(** * The DB writer and the controller loop of the beacon indexer

    A shallow embedding of the [dbWriter] of package [beacon] and of the
    controller parts of [indexer/beacon/indexer.go]: the restore of the
    unfinalized epoch stats in [StartIndexer], and [runIndexerLoop].

    Conventions.
    - [uint64] values are integers of [Z]; every arithmetic operation of the
      source that can leave the range is followed by [u64].
    - A Go function that mutates the database, the logger or a block runs in
      the monad [M] over a [World]; the [*sqlx.Tx] argument of the source is
      the open transaction [w_tx] of the world, so that argument is only kept
      where the source tests it against [nil].
    - A Go [error] result is an [option error]; a run-time panic (index out of
      range, division by zero) is the outcome [Panic]; a loop that never
      exits is the outcome [Diverge].
    - Byte strings that are only copied from a block into a row (graffiti,
      state root, execution payload hash and extra data) are not carried,
      and neither is the [float32] sync participation of the slot and epoch
      rows; the loops over the sync aggregate bits write nothing else. *)

From Stdlib Require Import ZArith List Bool Lia Sorted String.
From stdpp Require Import gmap.
Import ListNotations.

#[local] Open Scope Z_scope.

(** ** Machine integers *)

Module U64.
Definition modulus : Z := 2 ^ 64.
Definition MaxInt64 : Z := 2 ^ 63 - 1.

(** Reduction to the range of [uint64]. *)
Definition u64 (z : Z) : Z := z mod modulus.

(** [int(x)] for [x : uint64] on a 64-bit platform. *)
Definition to_int (z : Z) : Z := if z <? 2 ^ 63 then z else z - modulus.

(** [uint32(x)] and [uint8(x)]. *)
Definition u32 (z : Z) : Z := z mod 2 ^ 32.
Definition u8 (z : Z) : Z := z mod 2 ^ 8.
End U64.
Export U64.

(** [l[i]] for an [int] index: [None] stands for the index-out-of-range
    panic. *)
Definition index_at {A : Type} (l : list A) (i : Z) : option A :=
  if i <? 0 then None else nth_error l (Z.to_nat i).

(** ** Chain state *)

Record ChainSpec := {
  SlotsPerEpoch : Z;
  AltairForkEpoch : Z;
  EpochsPerSyncCommitteePeriod : Z
}.

Record ChainState := {
  GetSpecs : ChainSpec;
  CurrentEpoch : Z;
  FinalizedSlot : Z;
  FinalizedEpoch : Z
}.

(** Modelled from the spec: the chain-state reader ([clients/consensus]) is
    not part of the sources at hand; section 4.A describes [epochStartSlot],
    [slotToEpoch] and [slotIndexWithinEpoch] as pure functions over the spec
    constants.  The divisions are guarded by their callers below. *)
Definition EpochStartSlot (cs : ChainState) (epoch : Z) : Z :=
  u64 (epoch * SlotsPerEpoch (GetSpecs cs)).

Definition EpochOfSlot (cs : ChainState) (slot : Z) : Z :=
  slot / SlotsPerEpoch (GetSpecs cs).

Definition SlotToSlotIndex (cs : ChainState) (slot : Z) : Z :=
  slot mod SlotsPerEpoch (GetSpecs cs).

(** ** Consensus objects read by the writer *)

Module phase0.
Record DepositData := {
  PublicKey : Z;
  WithdrawalCredentials : Z;
  Amount : Z
}.
Record Deposit := { Data : DepositData }.

Record VoluntaryExit := { ExitValidatorIndex : Z }.

Record BeaconBlockHeader := {
  HeaderSlot : Z;
  ProposerIndex : Z;
  ParentRoot : Z;
  StateRoot : Z
}.

(** [SignedHeader1.Message] and [SignedHeader2.Message]. *)
Record ProposerSlashing := {
  SignedHeader1 : BeaconBlockHeader;
  SignedHeader2 : BeaconBlockHeader
}.

Record Attestation := { AttestationSlot : Z; CommitteeIndex : Z }.
Record Withdrawal := { WithdrawalAmount : Z }.
End phase0.

(** A versioned indexed attestation: [AttestingIndices] answers a slice that
    may be [nil] ([None]). *)
Record IndexedAttestation := { AttestingIndices : option (list Z) }.

(** A versioned attester slashing: [Attestation1()] and [Attestation2()] may
    answer [nil]. *)
Record AttesterSlashing := {
  Attestation1 : option IndexedAttestation;
  Attestation2 : option IndexedAttestation
}.

(** The versioned signed block body.  An accessor whose error some caller
    inspects is an [option] ([None]: the accessor failed); an accessor whose
    error every caller drops is its value (a [nil] slice on failure). *)
Record BlockBody := {
  Attestations : list phase0.Attestation;
  Deposits : option (list phase0.Deposit);
  VoluntaryExits : option (list phase0.VoluntaryExit);
  ProposerSlashings : option (list phase0.ProposerSlashing);
  AttesterSlashings : option (list AttesterSlashing);
  BodyProposerIndex : option Z;
  BLSToExecutionChanges : list Z;
  ExecutionBlockNumber : Z;
  ExecutionTransactions : list Z;
  Withdrawals : list phase0.Withdrawal
}.

(** [x, _ := accessor()]: the value, [nil] when the accessor failed. *)
Definition dropErr {A : Type} (r : option (list A)) : list A :=
  match r with Some l => l | None => [] end.

(** A cached block.  [GetBlock] answers the body, [None] when it is not
    loaded.  The flag [isInFinalizedDb] lives in the world, see
    [w_inFinalizedDb]. *)
Record Block := {
  Root : Z;
  Slot : Z;
  forkId : Z;
  header : phase0.BeaconBlockHeader;
  GetBlock : option BlockBody
}.

Record EpochStatsValues := {
  ActiveValidators : Z;
  ActiveBalance : Z;
  EffectiveBalance : Z;
  FirstDepositIndex : Z;
  ProposerDuties : list Z;
  AttesterDuties : list (list (list Z));
  SyncCommitteeDuties : list Z
}.

(** Modelled from the spec: [EpochStats] ([epochstats.go]) is not part of the
    sources at hand.  Section 3: an entry has the key [(epoch,
    dependentRoot)], an optional [EpochStatsValues], [isInDb] and a pruning
    flag; "if pruned, the large duty arrays may be absent". *)
Record EpochStats := {
  epoch : Z;
  dependentRoot : Z;
  values : option EpochStatsValues;
  isInDb : bool;
  pruned : bool
}.

(** Modelled from the spec: [GetValues] answers the optional values of the
    entry, [nil] when there are none (also for a [nil] entry, which
    [persistMissedSlots] does not exclude). *)
Definition GetValues (cs : ChainState) (es : option EpochStats)
  : option EpochStatsValues :=
  match es with Some s => values s | None => None end.

Record VoteAmounts := {
  TargetVoteAmount : Z;
  HeadVoteAmount : Z;
  TotalVoteAmount : Z
}.

Record EpochVotes := {
  VotesCurrentEpoch : VoteAmounts;
  VotesNextEpoch : VoteAmounts
}.

(** ** Rows of the finalized tables *)

Module dbtypes.
Inductive SlotStatus := Missing | Canonical | Orphaned.
Inductive SlashingReason :=
  UnspecifiedSlashing | ProposerSlashing | AttesterSlashing.

Module SlotHeader.
Record t := mk { Slot : Z; Proposer : Z; Status : SlotStatus }.
End SlotHeader.

Module Slot.
Record t := mk {
  Slot : Z;
  Proposer : Z;
  Status : SlotStatus;
  ForkId : Z;
  Root : Z;
  ParentRoot : Z;
  AttestationCount : Z;
  DepositCount : Z;
  ExitCount : Z;
  AttesterSlashingCount : Z;
  ProposerSlashingCount : Z;
  BLSChangeCount : Z;
  EthTransactionCount : Z;
  EthBlockNumber : option Z;
  WithdrawCount : Z;
  WithdrawAmount : Z
}.
End Slot.

Module Epoch.
Record t := mk {
  Epoch : Z;
  ValidatorCount : Z;
  ValidatorBalance : Z;
  Eligible : Z;
  VotedTarget : Z;
  VotedHead : Z;
  VotedTotal : Z;
  BlockCount : Z;
  AttestationCount : Z;
  DepositCount : Z;
  ExitCount : Z;
  AttesterSlashingCount : Z;
  ProposerSlashingCount : Z;
  BLSChangeCount : Z;
  EthTransactionCount : Z;
  WithdrawCount : Z;
  WithdrawAmount : Z
}.
End Epoch.

Module Deposit.
Record t := mk {
  Index : option Z;
  SlotNumber : Z;
  SlotIndex : Z;
  SlotRoot : Z;
  Orphaned : bool;
  ForkId : Z;
  PublicKey : Z;
  WithdrawalCredentials : Z;
  Amount : Z
}.
End Deposit.

Module VoluntaryExit.
Record t := mk {
  SlotNumber : Z;
  SlotIndex : Z;
  SlotRoot : Z;
  Orphaned : bool;
  ForkId : Z;
  ValidatorIndex : Z
}.
End VoluntaryExit.

Module Slashing.
Record t := mk {
  SlotNumber : Z;
  SlotIndex : Z;
  SlotRoot : Z;
  Orphaned : bool;
  ForkId : Z;
  ValidatorIndex : Z;
  SlasherIndex : Z;
  Reason : SlashingReason
}.
End Slashing.

Module SyncAssignment.
Record t := mk { Period : Z; Index : Z; Validator : Z }.
End SyncAssignment.

Module Consolidation.
Record t := mk { SlotNumber : Z; SlotIndex : Z; Orphaned : bool }.
End Consolidation.

Module ElRequest.
Record t := mk { SlotNumber : Z; SlotIndex : Z; Orphaned : bool }.
End ElRequest.
End dbtypes.

(** ** The world: database, logger, block flags and controller state *)

Inductive error :=
| DbError (what : string)
| Errorf (msg : string) (cause : error).

(** A statement executed against the database. *)
Inductive DbOp :=
| InsertSlot (row : dbtypes.Slot.t)
| InsertMissingSlot (row : dbtypes.SlotHeader.t)
| InsertEpoch (row : dbtypes.Epoch.t)
| InsertDeposits (rows : list dbtypes.Deposit.t)
| InsertVoluntaryExits (rows : list dbtypes.VoluntaryExit.t)
| InsertSlashings (rows : list dbtypes.Slashing.t)
| InsertConsolidations (rows : list dbtypes.Consolidation.t)
| InsertElRequests (rows : list dbtypes.ElRequest.t)
| InsertSyncAssignments (rows : list dbtypes.SyncAssignment.t)
| SetPruneState (epoch : Z).

Inductive LogLine :=
| LogError (msg : string) (cause : option error)
| LogPanic (msg : string).

Arguments DbError what%_string.
Arguments Errorf msg%_string cause.
Arguments LogError msg%_string cause.
Arguments LogPanic msg%_string.

Inductive PanicKind := NilDereference | IndexOutOfRange | DivideByZero.

(** The keys of the epoch cache are [(epoch, dependentRoot)]. *)
Abbreviation EpochCache := (gmap (Z * Z) EpochStats).

Record World := {
  (** statements of the open transaction, oldest first *)
  w_tx : list DbOp;
  (** statements of the committed transactions, oldest first *)
  w_committed : list DbOp;
  (** the database's verdict on a statement, given the open transaction:
      [true] when it answers an error *)
  w_dbFail : list DbOp -> DbOp -> bool;
  (** the database's answer to [IsSyncCommitteeSynchronized(period)] *)
  w_syncSynchronized : Z -> bool;
  w_log : list LogLine;
  (** roots of the blocks whose [isInFinalizedDb] is set *)
  w_inFinalizedDb : list Z;
  (** the indexer state owned by the controller *)
  running : bool;
  lastFinalizedEpoch : Z;
  lastPrunedEpoch : Z;
  lastPruneRunEpoch : Z;
  epochCache : EpochCache
}.

Definition set_tx (tx : list DbOp) (w : World) : World :=
  {| w_tx := tx; w_committed := w_committed w; w_dbFail := w_dbFail w;
     w_syncSynchronized := w_syncSynchronized w; w_log := w_log w;
     w_inFinalizedDb := w_inFinalizedDb w; running := running w;
     lastFinalizedEpoch := lastFinalizedEpoch w;
     lastPrunedEpoch := lastPrunedEpoch w;
     lastPruneRunEpoch := lastPruneRunEpoch w; epochCache := epochCache w |}.

Definition set_committed (c : list DbOp) (w : World) : World :=
  {| w_tx := w_tx w; w_committed := c; w_dbFail := w_dbFail w;
     w_syncSynchronized := w_syncSynchronized w; w_log := w_log w;
     w_inFinalizedDb := w_inFinalizedDb w; running := running w;
     lastFinalizedEpoch := lastFinalizedEpoch w;
     lastPrunedEpoch := lastPrunedEpoch w;
     lastPruneRunEpoch := lastPruneRunEpoch w; epochCache := epochCache w |}.

Definition set_log (l : list LogLine) (w : World) : World :=
  {| w_tx := w_tx w; w_committed := w_committed w; w_dbFail := w_dbFail w;
     w_syncSynchronized := w_syncSynchronized w; w_log := l;
     w_inFinalizedDb := w_inFinalizedDb w; running := running w;
     lastFinalizedEpoch := lastFinalizedEpoch w;
     lastPrunedEpoch := lastPrunedEpoch w;
     lastPruneRunEpoch := lastPruneRunEpoch w; epochCache := epochCache w |}.

Definition set_inFinalizedDb (l : list Z) (w : World) : World :=
  {| w_tx := w_tx w; w_committed := w_committed w; w_dbFail := w_dbFail w;
     w_syncSynchronized := w_syncSynchronized w; w_log := w_log w;
     w_inFinalizedDb := l; running := running w;
     lastFinalizedEpoch := lastFinalizedEpoch w;
     lastPrunedEpoch := lastPrunedEpoch w;
     lastPruneRunEpoch := lastPruneRunEpoch w; epochCache := epochCache w |}.

Definition set_running (b : bool) (w : World) : World :=
  {| w_tx := w_tx w; w_committed := w_committed w; w_dbFail := w_dbFail w;
     w_syncSynchronized := w_syncSynchronized w; w_log := w_log w;
     w_inFinalizedDb := w_inFinalizedDb w; running := b;
     lastFinalizedEpoch := lastFinalizedEpoch w;
     lastPrunedEpoch := lastPrunedEpoch w;
     lastPruneRunEpoch := lastPruneRunEpoch w; epochCache := epochCache w |}.

Definition set_lastFinalizedEpoch (e : Z) (w : World) : World :=
  {| w_tx := w_tx w; w_committed := w_committed w; w_dbFail := w_dbFail w;
     w_syncSynchronized := w_syncSynchronized w; w_log := w_log w;
     w_inFinalizedDb := w_inFinalizedDb w; running := running w;
     lastFinalizedEpoch := e;
     lastPrunedEpoch := lastPrunedEpoch w;
     lastPruneRunEpoch := lastPruneRunEpoch w; epochCache := epochCache w |}.

Definition set_lastPrunedEpoch (e : Z) (w : World) : World :=
  {| w_tx := w_tx w; w_committed := w_committed w; w_dbFail := w_dbFail w;
     w_syncSynchronized := w_syncSynchronized w; w_log := w_log w;
     w_inFinalizedDb := w_inFinalizedDb w; running := running w;
     lastFinalizedEpoch := lastFinalizedEpoch w;
     lastPrunedEpoch := e;
     lastPruneRunEpoch := lastPruneRunEpoch w; epochCache := epochCache w |}.

Definition set_lastPruneRunEpoch (e : Z) (w : World) : World :=
  {| w_tx := w_tx w; w_committed := w_committed w; w_dbFail := w_dbFail w;
     w_syncSynchronized := w_syncSynchronized w; w_log := w_log w;
     w_inFinalizedDb := w_inFinalizedDb w; running := running w;
     lastFinalizedEpoch := lastFinalizedEpoch w;
     lastPrunedEpoch := lastPrunedEpoch w;
     lastPruneRunEpoch := e; epochCache := epochCache w |}.

Definition set_epochCache (c : EpochCache) (w : World) : World :=
  {| w_tx := w_tx w; w_committed := w_committed w; w_dbFail := w_dbFail w;
     w_syncSynchronized := w_syncSynchronized w; w_log := w_log w;
     w_inFinalizedDb := w_inFinalizedDb w; running := running w;
     lastFinalizedEpoch := lastFinalizedEpoch w;
     lastPrunedEpoch := lastPrunedEpoch w;
     lastPruneRunEpoch := lastPruneRunEpoch w; epochCache := c |}.

(** ** The monad of the embedding *)

Inductive outcome (A : Type) : Type :=
| Ret (a : A) (w : World)
| Panic (p : PanicKind) (w : World)
| Diverge.
Arguments Ret {A} a w.
Arguments Panic {A} p w.
Arguments Diverge {A}.

Definition M (A : Type) : Type := World -> outcome A.

#[global] Instance M_ret : MRet M := fun A a w => Ret a w.
#[global] Instance M_bind : MBind M := fun A B f m w =>
  match m w with
  | Ret a w' => f a w'
  | Panic p w' => Panic p w'
  | Diverge => Diverge
  end.

Definition panic {A : Type} (p : PanicKind) : M A := fun w => Panic p w.
Definition diverge {A : Type} : M A := fun _ => Diverge.
Definition getWorld : M World := fun w => Ret w w.
Definition modifyWorld (f : World -> World) : M unit := fun w => Ret tt (f w).

(** [logger.Errorf] and friends. *)
Definition logError (msg : string) (cause : option error) : M unit :=
  modifyWorld (fun w => set_log (w_log w ++ [LogError msg cause]) w).

Arguments logError msg%_string cause.

(** One statement through the open transaction. *)
Definition dbExec (what : string) (op : DbOp) : M (option error) := fun w =>
  if w_dbFail w (w_tx w) op then Ret (Some (DbError what)) w
  else Ret None (set_tx (w_tx w ++ [op]) w).

Arguments dbExec what%_string op.

(** Modelled from the spec: the database package is not part of the sources
    at hand.  Section 6: "typed inserts per table ([InsertSlot],
    [InsertEpoch], [InsertDeposits], [InsertVoluntaryExits],
    [InsertSlashings], [InsertSyncAssignments], [InsertMissingSlot])"; each
    answers an error or stores its rows through the transaction. *)
Module db.
Definition InsertSlot (row : dbtypes.Slot.t) : M (option error) :=
  dbExec "InsertSlot" (InsertSlot row).
Definition InsertMissingSlot (row : dbtypes.SlotHeader.t) : M (option error) :=
  dbExec "InsertMissingSlot" (InsertMissingSlot row).
Definition InsertEpoch (row : dbtypes.Epoch.t) : M (option error) :=
  dbExec "InsertEpoch" (InsertEpoch row).
Definition InsertDeposits (rows : list dbtypes.Deposit.t) : M (option error) :=
  dbExec "InsertDeposits" (InsertDeposits rows).
Definition InsertVoluntaryExits (rows : list dbtypes.VoluntaryExit.t)
  : M (option error) :=
  dbExec "InsertVoluntaryExits" (InsertVoluntaryExits rows).
Definition InsertSlashings (rows : list dbtypes.Slashing.t) : M (option error) :=
  dbExec "InsertSlashings" (InsertSlashings rows).
Definition InsertConsolidations (rows : list dbtypes.Consolidation.t)
  : M (option error) :=
  dbExec "InsertConsolidations" (InsertConsolidations rows).
Definition InsertElRequests (rows : list dbtypes.ElRequest.t)
  : M (option error) :=
  dbExec "InsertElRequests" (InsertElRequests rows).
Definition InsertSyncAssignments (rows : list dbtypes.SyncAssignment.t)
  : M (option error) :=
  dbExec "InsertSyncAssignments" (InsertSyncAssignments rows).

(** The answer of the database to [IsSyncCommitteeSynchronized]. *)
Definition IsSyncCommitteeSynchronized (period : Z) : M bool :=
  fun w => Ret (w_syncSynchronized w period) w.

(** Modelled from the spec: "[RunDBTransaction(fn)] for atomicity": the
    statements of [fn] are committed together when it answers no error and
    dropped together otherwise. *)
Definition RunDBTransaction (fn : M (option error)) : M (option error) :=
  fun w =>
    match fn (set_tx [] w) with
    | Ret None w' =>
        Ret None (set_tx (w_tx w) (set_committed (w_committed w' ++ w_tx w') w'))
    | Ret (Some e) w' => Ret (Some e) (set_tx (w_tx w) w')
    | Panic p w' => Panic p (set_tx (w_tx w) w')
    | Diverge => Diverge
    end.

(** Modelled from the spec: "[GetExplorerState(key, out)]" for the cursor
    [indexer.prunestate]: the epoch of the last committed
    [SetPruneState], and the zero value when there is none. *)
Definition GetExplorerState_prunestate (w : World) : Z :=
  fold_left (fun acc op => match op with SetPruneState e => e | _ => acc end)
            (w_committed w) 0.
End db.

(** ** The DB writer *)

(** [if err != nil { return err }] followed by the rest of the function. *)
Definition orReturn (err : option error) (rest : M (option error))
  : M (option error) :=
  match err with Some e => mret (Some e) | None => rest end.

(** [blockIdx < len(blocks) && blocks[blockIdx].Slot == slot] *)
Definition blockAt (blocks : list Block) (blockIdx : nat) (slot : Z)
  : option Block :=
  match nth_error blocks blockIdx with
  | Some b => if Slot b =? slot then Some b else None
  | None => None
  end.

Definition missedSlot (slot proposer : Z) : dbtypes.SlotHeader.t :=
  {| dbtypes.SlotHeader.Slot := slot;
     dbtypes.SlotHeader.Proposer := proposer;
     dbtypes.SlotHeader.Status := dbtypes.Missing |}.

(** The loop of [persistMissedSlots]:
    [for slot := firstSlot; slot < lastSlot; slot++]. *)
Fixpoint persistMissedSlots_loop (fuel : nat) (blocks : list Block)
    (epochStatsValues : option EpochStatsValues) (firstSlot lastSlot : Z)
    (slot : Z) (blockIdx : nat) : M (option error) :=
  match fuel with
  | O => diverge
  | S fuel =>
      if slot <? lastSlot then
        match blockAt blocks blockIdx slot with
        | Some _ =>
            persistMissedSlots_loop fuel blocks epochStatsValues
              firstSlot lastSlot (u64 (slot + 1)) (S blockIdx)
        | None =>
            proposer ←
              match epochStatsValues with
              | None => mret MaxInt64
              | Some v =>
                  match index_at (ProposerDuties v)
                                 (to_int (u64 (slot - firstSlot))) with
                  | Some p => mret p
                  | None => panic IndexOutOfRange
                  end
              end;
            err ← db.InsertMissingSlot (missedSlot slot proposer);
            match err with
            | Some e =>
                mret (Some (Errorf "error while adding missed slot to db" e))
            | None =>
                persistMissedSlots_loop fuel blocks epochStatsValues
                  firstSlot lastSlot (u64 (slot + 1)) blockIdx
            end
        end
      else mret None
  end.

(** The loop runs at most [SlotsPerEpoch] times: [lastSlot] is either
    [firstSlot + SlotsPerEpoch] or, after wrap-around, below [firstSlot]. *)
Definition persistMissedSlots (cs : ChainState) (epoch : Z)
    (blocks : list Block) (epochStats : option EpochStats) : M (option error) :=
  let epochStatsValues := GetValues cs epochStats in
  let firstSlot := EpochStartSlot cs epoch in
  let lastSlot := u64 (firstSlot + SlotsPerEpoch (GetSpecs cs)) in
  persistMissedSlots_loop (S (Z.to_nat (SlotsPerEpoch (GetSpecs cs))))
    blocks epochStatsValues firstSlot lastSlot firstSlot 0%nat.

(** [for _, withdrawal := range executionWithdrawals { total += Amount }] *)
Definition addWithdrawals (total : Z) (ws : list phase0.Withdrawal) : Z :=
  fold_left (fun acc w => u64 (acc + phase0.WithdrawalAmount w)) ws total.

(** The row [buildDbBlock] fills in for a block with a body. *)
Definition buildDbBlock_row (block : Block) (blockBody : BlockBody)
    (overrideForkId : option Z) : dbtypes.Slot.t :=
  let attestations := Attestations blockBody in
  let deposits := dropErr (Deposits blockBody) in
  let voluntaryExits := dropErr (VoluntaryExits blockBody) in
  let attesterSlashings := dropErr (AttesterSlashings blockBody) in
  let proposerSlashings := dropErr (ProposerSlashings blockBody) in
  let blsToExecChanges := BLSToExecutionChanges blockBody in
  let executionBlockNumber := ExecutionBlockNumber blockBody in
  let executionTransactions := ExecutionTransactions blockBody in
  let executionWithdrawals := Withdrawals blockBody in
  let withExecution := 0 <? executionBlockNumber in
  {| dbtypes.Slot.Slot := phase0.HeaderSlot (header block);
     dbtypes.Slot.Proposer := phase0.ProposerIndex (header block);
     dbtypes.Slot.Status := dbtypes.Canonical;
     dbtypes.Slot.ForkId :=
       match overrideForkId with
       | Some f => f
       | None => forkId block
       end;
     dbtypes.Slot.Root := Root block;
     dbtypes.Slot.ParentRoot := phase0.ParentRoot (header block);
     dbtypes.Slot.AttestationCount := Z.of_nat (length attestations);
     dbtypes.Slot.DepositCount := Z.of_nat (length deposits);
     dbtypes.Slot.ExitCount := Z.of_nat (length voluntaryExits);
     dbtypes.Slot.AttesterSlashingCount := Z.of_nat (length attesterSlashings);
     dbtypes.Slot.ProposerSlashingCount := Z.of_nat (length proposerSlashings);
     dbtypes.Slot.BLSChangeCount := Z.of_nat (length blsToExecChanges);
     dbtypes.Slot.EthTransactionCount :=
       if withExecution then Z.of_nat (length executionTransactions) else 0;
     dbtypes.Slot.EthBlockNumber :=
       if withExecution then Some executionBlockNumber else None;
     dbtypes.Slot.WithdrawCount :=
       if withExecution then Z.of_nat (length executionWithdrawals) else 0;
     dbtypes.Slot.WithdrawAmount :=
       if withExecution then addWithdrawals 0 executionWithdrawals else 0 |}.

(** The epoch stats only feed the sync participation, which is not
    carried. *)
Definition buildDbBlock (cs : ChainState) (block : Block)
    (epochStats : option EpochStats) (overrideForkId : option Z)
  : M (option dbtypes.Slot.t) :=
  match GetBlock block with
  | None =>
      logError "error while building db blocks: block body not found" None;;
      mret None
  | Some blockBody =>
      mret (Some (buildDbBlock_row block blockBody overrideForkId))
  end.

Definition slot_with_Status (s : dbtypes.SlotStatus) (r : dbtypes.Slot.t)
  : dbtypes.Slot.t :=
  {| dbtypes.Slot.Slot := dbtypes.Slot.Slot r;
     dbtypes.Slot.Proposer := dbtypes.Slot.Proposer r;
     dbtypes.Slot.Status := s;
     dbtypes.Slot.ForkId := dbtypes.Slot.ForkId r;
     dbtypes.Slot.Root := dbtypes.Slot.Root r;
     dbtypes.Slot.ParentRoot := dbtypes.Slot.ParentRoot r;
     dbtypes.Slot.AttestationCount := dbtypes.Slot.AttestationCount r;
     dbtypes.Slot.DepositCount := dbtypes.Slot.DepositCount r;
     dbtypes.Slot.ExitCount := dbtypes.Slot.ExitCount r;
     dbtypes.Slot.AttesterSlashingCount := dbtypes.Slot.AttesterSlashingCount r;
     dbtypes.Slot.ProposerSlashingCount := dbtypes.Slot.ProposerSlashingCount r;
     dbtypes.Slot.BLSChangeCount := dbtypes.Slot.BLSChangeCount r;
     dbtypes.Slot.EthTransactionCount := dbtypes.Slot.EthTransactionCount r;
     dbtypes.Slot.EthBlockNumber := dbtypes.Slot.EthBlockNumber r;
     dbtypes.Slot.WithdrawCount := dbtypes.Slot.WithdrawCount r;
     dbtypes.Slot.WithdrawAmount := dbtypes.Slot.WithdrawAmount r |}.

(** The loop of [buildDbDeposits].  [depositIndex] is the content of the
    cell the pointer of the source refers to, [None] for a [nil] pointer;
    the loop answers the rows and the content of the cell afterwards. *)
Fixpoint buildDbDeposits_loop (block : Block) (orphaned : bool)
    (overrideForkId : option Z) (deposits : list phase0.Deposit) (idx : nat)
    (depositIndex : option Z) : list dbtypes.Deposit.t * option Z :=
  match deposits with
  | [] => ([], depositIndex)
  | deposit :: rest =>
      let dbDeposit :=
        {| dbtypes.Deposit.Index := depositIndex;
           dbtypes.Deposit.SlotNumber := Slot block;
           dbtypes.Deposit.SlotIndex := Z.of_nat idx;
           dbtypes.Deposit.SlotRoot := Root block;
           dbtypes.Deposit.Orphaned := orphaned;
           dbtypes.Deposit.ForkId :=
             match overrideForkId with
             | Some f => f
             | None => forkId block
             end;
           dbtypes.Deposit.PublicKey :=
             phase0.PublicKey (phase0.Data deposit);
           dbtypes.Deposit.WithdrawalCredentials :=
             phase0.WithdrawalCredentials (phase0.Data deposit);
           dbtypes.Deposit.Amount := phase0.Amount (phase0.Data deposit) |} in
      let depositIndex :=
        match depositIndex with
        | Some d => Some (u64 (d + 1))
        | None => None
        end in
      let '(rows, depositIndex) :=
        buildDbDeposits_loop block orphaned overrideForkId rest (S idx)
          depositIndex in
      (dbDeposit :: rows, depositIndex)
  end.

Definition buildDbDeposits (block : Block) (depositIndex : option Z)
    (orphaned : bool) (overrideForkId : option Z)
  : list dbtypes.Deposit.t * option Z :=
  match GetBlock block with
  | None => ([], depositIndex)
  | Some blockBody =>
      match Deposits blockBody with
      | None => ([], depositIndex)
      | Some deposits =>
          buildDbDeposits_loop block orphaned overrideForkId deposits 0%nat
            depositIndex
      end
  end.

Definition deposit_with_Orphaned (o : bool) (r : dbtypes.Deposit.t)
  : dbtypes.Deposit.t :=
  {| dbtypes.Deposit.Index := dbtypes.Deposit.Index r;
     dbtypes.Deposit.SlotNumber := dbtypes.Deposit.SlotNumber r;
     dbtypes.Deposit.SlotIndex := dbtypes.Deposit.SlotIndex r;
     dbtypes.Deposit.SlotRoot := dbtypes.Deposit.SlotRoot r;
     dbtypes.Deposit.Orphaned := o;
     dbtypes.Deposit.ForkId := dbtypes.Deposit.ForkId r;
     dbtypes.Deposit.PublicKey := dbtypes.Deposit.PublicKey r;
     dbtypes.Deposit.WithdrawalCredentials :=
       dbtypes.Deposit.WithdrawalCredentials r;
     dbtypes.Deposit.Amount := dbtypes.Deposit.Amount r |}.

(** Answers the error and the content of [*depositIndex] afterwards. *)
Definition persistBlockDeposits (block : Block) (depositIndex : option Z)
    (orphaned : bool) (overrideForkId : option Z)
  : M (option error * option Z) :=
  let '(dbDeposits, depositIndex) :=
    buildDbDeposits block depositIndex orphaned overrideForkId in
  let dbDeposits :=
    if orphaned then map (deposit_with_Orphaned true) dbDeposits
    else dbDeposits in
  if (0 <? length dbDeposits)%nat then
    err ← db.InsertDeposits dbDeposits;
    match err with
    | Some e => mret (Some (Errorf "error inserting deposits" e), depositIndex)
    | None => mret (None, depositIndex)
    end
  else mret (None, depositIndex).

Definition buildDbVoluntaryExits (block : Block) (orphaned : bool)
    (overrideForkId : option Z) : list dbtypes.VoluntaryExit.t :=
  match GetBlock block with
  | None => []
  | Some blockBody =>
      match VoluntaryExits blockBody with
      | None => []
      | Some voluntaryExits =>
          imap (fun idx voluntaryExit =>
            {| dbtypes.VoluntaryExit.SlotNumber := Slot block;
               dbtypes.VoluntaryExit.SlotIndex := Z.of_nat idx;
               dbtypes.VoluntaryExit.SlotRoot := Root block;
               dbtypes.VoluntaryExit.Orphaned := orphaned;
               dbtypes.VoluntaryExit.ForkId :=
                 match overrideForkId with
                 | Some f => f
                 | None => forkId block
                 end;
               dbtypes.VoluntaryExit.ValidatorIndex :=
                 phase0.ExitValidatorIndex voluntaryExit |})
            voluntaryExits
      end
  end.

Definition persistBlockVoluntaryExits (block : Block) (orphaned : bool)
    (overrideForkId : option Z) : M (option error) :=
  let dbVoluntaryExits := buildDbVoluntaryExits block orphaned overrideForkId in
  if (0 <? length dbVoluntaryExits)%nat then
    err ← db.InsertVoluntaryExits dbVoluntaryExits;
    match err with
    | Some e => mret (Some (Errorf "error inserting voluntary exits" e))
    | None => mret None
    end
  else mret None.

(** [intersect.Simple] of the go-intersect package, which is outside this
    repository: the elements of the first slice that the second slice
    contains, in the order of the first. *)
Module intersect.
Definition Simple (a b : list Z) : list Z :=
  List.filter (fun x => existsb (Z.eqb x) b) a.
End intersect.

(** The states of the two loops of [buildDbSlashings] are the rows built so
    far and [slashingIndex]. *)
Definition proposerSlashingRow (block : Block) (orphaned : bool)
    (overrideForkId : option Z) (proposerIndex : Z) (slashingIndex : nat)
    (proposerSlashing : phase0.ProposerSlashing) : dbtypes.Slashing.t :=
  {| dbtypes.Slashing.SlotNumber := Slot block;
     dbtypes.Slashing.SlotIndex := Z.of_nat slashingIndex;
     dbtypes.Slashing.SlotRoot := Root block;
     dbtypes.Slashing.Orphaned := orphaned;
     dbtypes.Slashing.ForkId :=
       match overrideForkId with
       | Some f => f
       | None => forkId block
       end;
     dbtypes.Slashing.ValidatorIndex :=
       phase0.ProposerIndex (phase0.SignedHeader1 proposerSlashing);
     dbtypes.Slashing.SlasherIndex := proposerIndex;
     dbtypes.Slashing.Reason := dbtypes.ProposerSlashing |}.

(** The row of the second loop: [Orphaned] is the literal [false] and
    [ForkId] is not assigned, so it keeps its zero value. *)
Definition attesterSlashingRow (block : Block) (proposerIndex : Z)
    (slashingIndex : nat) (valIdx : Z) : dbtypes.Slashing.t :=
  {| dbtypes.Slashing.SlotNumber := Slot block;
     dbtypes.Slashing.SlotIndex := Z.of_nat slashingIndex;
     dbtypes.Slashing.SlotRoot := Root block;
     dbtypes.Slashing.Orphaned := false;
     dbtypes.Slashing.ForkId := 0;
     dbtypes.Slashing.ValidatorIndex := valIdx;
     dbtypes.Slashing.SlasherIndex := proposerIndex;
     dbtypes.Slashing.Reason := dbtypes.AttesterSlashing |}.

Definition proposerSlashingStep (block : Block) (orphaned : bool)
    (overrideForkId : option Z) (proposerIndex : Z)
    (st : list dbtypes.Slashing.t * nat)
    (proposerSlashing : phase0.ProposerSlashing)
  : list dbtypes.Slashing.t * nat :=
  let '(dbSlashings, slashingIndex) := st in
  let dbSlashing :=
    proposerSlashingRow block orphaned overrideForkId proposerIndex
      slashingIndex proposerSlashing in
  (dbSlashings ++ [dbSlashing], S slashingIndex).

Definition attesterSlashingStep (block : Block) (proposerIndex : Z)
    (st : list dbtypes.Slashing.t * nat) (attesterSlashing : AttesterSlashing)
  : list dbtypes.Slashing.t * nat :=
  let '(dbSlashings, slashingIndex) := st in
  match Attestation1 attesterSlashing, Attestation2 attesterSlashing with
  | Some att1, Some att2 =>
      match AttestingIndices att1, AttestingIndices att2 with
      | Some att1AttestingIndices, Some att2AttestingIndices =>
          let inter :=
            intersect.Simple att1AttestingIndices att2AttestingIndices in
          (fold_left
             (fun dbSlashings valIdx =>
                dbSlashings ++
                [attesterSlashingRow block proposerIndex slashingIndex valIdx])
             inter dbSlashings,
           S slashingIndex)
      | _, _ => st
      end
  | _, _ => st
  end.

Definition buildDbSlashings (block : Block) (orphaned : bool)
    (overrideForkId : option Z) : list dbtypes.Slashing.t :=
  match GetBlock block with
  | None => []
  | Some blockBody =>
      match ProposerSlashings blockBody with
      | None => []
      | Some proposerSlashings =>
          match AttesterSlashings blockBody with
          | None => []
          | Some attesterSlashings =>
              match BodyProposerIndex blockBody with
              | None => []
              | Some proposerIndex =>
                  let st :=
                    fold_left
                      (proposerSlashingStep block orphaned overrideForkId
                         proposerIndex)
                      proposerSlashings ([], 0%nat) in
                  fst (fold_left (attesterSlashingStep block proposerIndex)
                                 attesterSlashings st)
              end
          end
      end
  end.

Definition persistBlockSlashings (block : Block) (orphaned : bool)
    (overrideForkId : option Z) : M (option error) :=
  let dbSlashings := buildDbSlashings block orphaned overrideForkId in
  if (0 <? length dbSlashings)%nat then
    err ← db.InsertSlashings dbSlashings;
    match err with
    | Some e => mret (Some (Errorf "error inserting slashings" e))
    | None => mret None
    end
  else mret None.

(** The bodies of [buildDbConsolidations] and [buildDbElRequests] are
    commented out in the source: both answer no row. *)
Definition buildDbConsolidations (block : Block)
  : list dbtypes.Consolidation.t :=
  match GetBlock block with
  | None => []
  | Some _ => []
  end.

Definition persistBlockConsolidations (block : Block) (orphaned : bool)
  : M (option error) :=
  let dbConsolidations := buildDbConsolidations block in
  let dbConsolidations :=
    if orphaned then
      map (fun r =>
             {| dbtypes.Consolidation.SlotNumber :=
                  dbtypes.Consolidation.SlotNumber r;
                dbtypes.Consolidation.SlotIndex :=
                  dbtypes.Consolidation.SlotIndex r;
                dbtypes.Consolidation.Orphaned := true |})
          dbConsolidations
    else dbConsolidations in
  if (0 <? length dbConsolidations)%nat then
    err ← db.InsertConsolidations dbConsolidations;
    match err with
    | Some e => mret (Some (Errorf "error inserting consolidations" e))
    | None => mret None
    end
  else mret None.

Definition buildDbElRequests (block : Block) : list dbtypes.ElRequest.t :=
  match GetBlock block with
  | None => []
  | Some _ => []
  end.

Definition persistBlockElRequests (block : Block) (orphaned : bool)
  : M (option error) :=
  let dbElRequests := buildDbElRequests block in
  let dbElRequests :=
    if orphaned then
      map (fun r =>
             {| dbtypes.ElRequest.SlotNumber := dbtypes.ElRequest.SlotNumber r;
                dbtypes.ElRequest.SlotIndex := dbtypes.ElRequest.SlotIndex r;
                dbtypes.ElRequest.Orphaned := true |})
          dbElRequests
    else dbElRequests in
  if (0 <? length dbElRequests)%nat then
    err ← db.InsertElRequests dbElRequests;
    match err with
    | Some e => mret (Some (Errorf "error inserting el requests" e))
    | None => mret None
    end
  else mret None.

Definition persistBlockChildObjects (block : Block) (depositIndex : option Z)
    (orphaned : bool) (overrideForkId : option Z)
  : M (option error * option Z) :=
  '(err, depositIndex) ←
    persistBlockDeposits block depositIndex orphaned overrideForkId;
  match err with
  | Some e => mret (Some e, depositIndex)
  | None =>
      err ←
        (err ← persistBlockVoluntaryExits block orphaned overrideForkId;
         orReturn err (
         err ← persistBlockSlashings block orphaned overrideForkId;
         orReturn err (
         err ← persistBlockConsolidations block orphaned;
         orReturn err (
         err ← persistBlockElRequests block orphaned;
         orReturn err (mret None)))));
      mret (err, depositIndex)
  end.

(** [block.isInFinalizedDb = true] *)
Definition markInFinalizedDb (block : Block) : M unit :=
  modifyWorld (fun w => set_inFinalizedDb (Root block :: w_inFinalizedDb w) w).

(** A [nil] row of [buildDbBlock] is dereferenced, by the assignment of the
    status or by [db.InsertSlot] reading its fields. *)
Definition persistBlockData (cs : ChainState) (block : Block)
    (epochStats : option EpochStats) (depositIndex : option Z)
    (orphaned : bool) (overrideForkId : option Z)
  : M (option error * option Z) :=
  dbBlock ← buildDbBlock cs block epochStats overrideForkId;
  match dbBlock with
  | None => panic NilDereference
  | Some dbBlock =>
      let dbBlock :=
        if orphaned then slot_with_Status dbtypes.Orphaned dbBlock
        else dbBlock in
      err ← db.InsertSlot dbBlock;
      match err with
      | Some e => mret (Some (Errorf "error inserting slot" e), depositIndex)
      | None =>
          markInFinalizedDb block;;
          persistBlockChildObjects block depositIndex orphaned overrideForkId
      end
  end.

(** The callback of [buildDbEpoch]: it receives the block and the content of
    [*depositIndex] and answers the content afterwards. *)
Definition BlockFn : Type := Block -> option Z -> M (option Z).

Definition newDbEpoch (epoch : Z) (epochVotes : option EpochVotes)
    (epochStatsValues : option EpochStatsValues) : dbtypes.Epoch.t :=
  {| dbtypes.Epoch.Epoch := epoch;
     dbtypes.Epoch.ValidatorCount :=
       match epochStatsValues with
       | Some v => ActiveValidators v
       | None => 0
       end;
     dbtypes.Epoch.ValidatorBalance :=
       match epochStatsValues with
       | Some v => ActiveBalance v
       | None => 0
       end;
     dbtypes.Epoch.Eligible :=
       match epochStatsValues with
       | Some v => EffectiveBalance v
       | None => 0
       end;
     dbtypes.Epoch.VotedTarget :=
       match epochVotes with
       | Some v => u64 (TargetVoteAmount (VotesCurrentEpoch v)
                        + TargetVoteAmount (VotesNextEpoch v))
       | None => 0
       end;
     dbtypes.Epoch.VotedHead :=
       match epochVotes with
       | Some v => u64 (HeadVoteAmount (VotesCurrentEpoch v)
                        + HeadVoteAmount (VotesNextEpoch v))
       | None => 0
       end;
     dbtypes.Epoch.VotedTotal :=
       match epochVotes with
       | Some v => u64 (TotalVoteAmount (VotesCurrentEpoch v)
                        + TotalVoteAmount (VotesNextEpoch v))
       | None => 0
       end;
     dbtypes.Epoch.BlockCount := 0;
     dbtypes.Epoch.AttestationCount := 0;
     dbtypes.Epoch.DepositCount := 0;
     dbtypes.Epoch.ExitCount := 0;
     dbtypes.Epoch.AttesterSlashingCount := 0;
     dbtypes.Epoch.ProposerSlashingCount := 0;
     dbtypes.Epoch.BLSChangeCount := 0;
     dbtypes.Epoch.EthTransactionCount := 0;
     dbtypes.Epoch.WithdrawCount := 0;
     dbtypes.Epoch.WithdrawAmount := 0 |}.

(** [dbEpoch.BlockCount++] *)
Definition epoch_incBlockCount (e : dbtypes.Epoch.t) : dbtypes.Epoch.t :=
  {| dbtypes.Epoch.Epoch := dbtypes.Epoch.Epoch e;
     dbtypes.Epoch.ValidatorCount := dbtypes.Epoch.ValidatorCount e;
     dbtypes.Epoch.ValidatorBalance := dbtypes.Epoch.ValidatorBalance e;
     dbtypes.Epoch.Eligible := dbtypes.Epoch.Eligible e;
     dbtypes.Epoch.VotedTarget := dbtypes.Epoch.VotedTarget e;
     dbtypes.Epoch.VotedHead := dbtypes.Epoch.VotedHead e;
     dbtypes.Epoch.VotedTotal := dbtypes.Epoch.VotedTotal e;
     dbtypes.Epoch.BlockCount := u64 (dbtypes.Epoch.BlockCount e + 1);
     dbtypes.Epoch.AttestationCount := dbtypes.Epoch.AttestationCount e;
     dbtypes.Epoch.DepositCount := dbtypes.Epoch.DepositCount e;
     dbtypes.Epoch.ExitCount := dbtypes.Epoch.ExitCount e;
     dbtypes.Epoch.AttesterSlashingCount :=
       dbtypes.Epoch.AttesterSlashingCount e;
     dbtypes.Epoch.ProposerSlashingCount :=
       dbtypes.Epoch.ProposerSlashingCount e;
     dbtypes.Epoch.BLSChangeCount := dbtypes.Epoch.BLSChangeCount e;
     dbtypes.Epoch.EthTransactionCount := dbtypes.Epoch.EthTransactionCount e;
     dbtypes.Epoch.WithdrawCount := dbtypes.Epoch.WithdrawCount e;
     dbtypes.Epoch.WithdrawAmount := dbtypes.Epoch.WithdrawAmount e |}.

(** The [+=] statements of the aggregation for one block body. *)
Definition epoch_addBody (blockBody : BlockBody) (e : dbtypes.Epoch.t)
  : dbtypes.Epoch.t :=
  let attestations := Attestations blockBody in
  let deposits := dropErr (Deposits blockBody) in
  let voluntaryExits := dropErr (VoluntaryExits blockBody) in
  let attesterSlashings := dropErr (AttesterSlashings blockBody) in
  let proposerSlashings := dropErr (ProposerSlashings blockBody) in
  let blsToExecChanges := BLSToExecutionChanges blockBody in
  let executionTransactions := ExecutionTransactions blockBody in
  let executionWithdrawals := Withdrawals blockBody in
  {| dbtypes.Epoch.Epoch := dbtypes.Epoch.Epoch e;
     dbtypes.Epoch.ValidatorCount := dbtypes.Epoch.ValidatorCount e;
     dbtypes.Epoch.ValidatorBalance := dbtypes.Epoch.ValidatorBalance e;
     dbtypes.Epoch.Eligible := dbtypes.Epoch.Eligible e;
     dbtypes.Epoch.VotedTarget := dbtypes.Epoch.VotedTarget e;
     dbtypes.Epoch.VotedHead := dbtypes.Epoch.VotedHead e;
     dbtypes.Epoch.VotedTotal := dbtypes.Epoch.VotedTotal e;
     dbtypes.Epoch.BlockCount := dbtypes.Epoch.BlockCount e;
     dbtypes.Epoch.AttestationCount :=
       u64 (dbtypes.Epoch.AttestationCount e + Z.of_nat (length attestations));
     dbtypes.Epoch.DepositCount :=
       u64 (dbtypes.Epoch.DepositCount e + Z.of_nat (length deposits));
     dbtypes.Epoch.ExitCount :=
       u64 (dbtypes.Epoch.ExitCount e + Z.of_nat (length voluntaryExits));
     dbtypes.Epoch.AttesterSlashingCount :=
       u64 (dbtypes.Epoch.AttesterSlashingCount e
            + Z.of_nat (length attesterSlashings));
     dbtypes.Epoch.ProposerSlashingCount :=
       u64 (dbtypes.Epoch.ProposerSlashingCount e
            + Z.of_nat (length proposerSlashings));
     dbtypes.Epoch.BLSChangeCount :=
       u64 (dbtypes.Epoch.BLSChangeCount e
            + Z.of_nat (length blsToExecChanges));
     dbtypes.Epoch.EthTransactionCount :=
       u64 (dbtypes.Epoch.EthTransactionCount e
            + Z.of_nat (length executionTransactions));
     dbtypes.Epoch.WithdrawCount :=
       u64 (dbtypes.Epoch.WithdrawCount e
            + Z.of_nat (length executionWithdrawals));
     dbtypes.Epoch.WithdrawAmount :=
       addWithdrawals (dbtypes.Epoch.WithdrawAmount e) executionWithdrawals |}.

(** The loop of [buildDbEpoch]:
    [for slot := firstSlot; slot <= lastSlot; slot++]. *)
Fixpoint buildDbEpoch_loop (fuel : nat) (blocks : list Block)
    (blockFn : option BlockFn) (lastSlot : Z) (slot : Z) (blockIdx : nat)
    (depositIndex : option Z) (dbEpoch : dbtypes.Epoch.t)
  : M dbtypes.Epoch.t :=
  match fuel with
  | O => diverge
  | S fuel =>
      if slot <=? lastSlot then
        match blockAt blocks blockIdx slot with
        | Some block =>
            let blockIdx := S blockIdx in
            let dbEpoch := epoch_incBlockCount dbEpoch in
            match GetBlock block with
            | None =>
                logError
                  "error while building db epoch: block body not found for aggregation"
                  None;;
                buildDbEpoch_loop fuel blocks blockFn lastSlot
                  (u64 (slot + 1)) blockIdx depositIndex dbEpoch
            | Some blockBody =>
                depositIndex ←
                  match blockFn with
                  | Some fn => fn block depositIndex
                  | None => mret depositIndex
                  end;
                buildDbEpoch_loop fuel blocks blockFn lastSlot
                  (u64 (slot + 1)) blockIdx depositIndex
                  (epoch_addBody blockBody dbEpoch)
            end
        | None =>
            buildDbEpoch_loop fuel blocks blockFn lastSlot
              (u64 (slot + 1)) blockIdx depositIndex dbEpoch
        end
      else mret dbEpoch
  end.

(** The loop either exits within [SlotsPerEpoch] rounds or never: it never
    exits when [lastSlot] is the largest [uint64] and [firstSlot] is not
    above it. *)
Definition buildDbEpoch (cs : ChainState) (epoch : Z) (blocks : list Block)
    (epochStats : option EpochStats) (epochVotes : option EpochVotes)
    (blockFn : option BlockFn) : M dbtypes.Epoch.t :=
  let epochStatsValues :=
    match epochStats with
    | Some _ => GetValues cs epochStats
    | None => None
    end in
  let firstSlot := EpochStartSlot cs epoch in
  let lastSlot := u64 (firstSlot + SlotsPerEpoch (GetSpecs cs) - 1) in
  let depositIndex :=
    match epochStatsValues with
    | Some v => Some (FirstDepositIndex v)
    | None => None
    end in
  buildDbEpoch_loop (S (Z.to_nat (SlotsPerEpoch (GetSpecs cs)))) blocks
    blockFn lastSlot firstSlot 0%nat depositIndex
    (newDbEpoch epoch epochVotes epochStatsValues).

(** The transaction handle of the source; only its being [nil] matters. *)
Inductive Tx := OpenTx.

(** The closure [persistEpochData] hands to [buildDbEpoch]. *)
Definition persistEpochData_blockFn (cs : ChainState)
    (epochStats : option EpochStats) (canonicalForkId : Z) : BlockFn :=
  fun block depositIndex =>
    '(err, depositIndex) ←
      persistBlockData cs block epochStats depositIndex false
        (Some canonicalForkId);
    match err with
    | Some e => logError "error persisting slot" (Some e)
    | None => mret tt
    end;;
    mret depositIndex.

(** The body of [persistEpochData] for a transaction that is not [nil]. *)
Definition persistEpochData_in (cs : ChainState) (epoch : Z)
    (blocks : list Block) (epochStats : option EpochStats)
    (epochVotes : option EpochVotes) : M (option error) :=
  let canonicalForkId := 0 in
  dbEpoch ←
    buildDbEpoch cs epoch blocks epochStats epochVotes
      (Some (persistEpochData_blockFn cs epochStats canonicalForkId));
  err ← persistMissedSlots cs epoch blocks epochStats;
  orReturn err (
  err ← db.InsertEpoch dbEpoch;
  match err with
  | Some e => mret (Some (Errorf "error while saving epoch to db" e))
  | None => mret None
  end).

(** With a [nil] transaction the source re-enters itself inside
    [db.RunDBTransaction]. *)
Definition persistEpochData (tx : option Tx) (cs : ChainState) (epoch : Z)
    (blocks : list Block) (epochStats : option EpochStats)
    (epochVotes : option EpochVotes) : M (option error) :=
  match tx with
  | None =>
      db.RunDBTransaction
        (persistEpochData_in cs epoch blocks epochStats epochVotes)
  | Some _ => persistEpochData_in cs epoch blocks epochStats epochVotes
  end.

Definition persistSyncAssignments (cs : ChainState) (epoch : Z)
    (epochStats : option EpochStats) : M (option error) :=
  let specs := GetSpecs cs in
  if epoch <? AltairForkEpoch specs then mret None
  else
    let epochStatsValues :=
      match epochStats with
      | Some _ => GetValues cs epochStats
      | None => None
      end in
    match epochStatsValues with
    | None => mret None
    | Some epochStatsValues =>
        if EpochsPerSyncCommitteePeriod specs =? 0 then panic DivideByZero
        else
          let period := epoch / EpochsPerSyncCommitteePeriod specs in
          let isStartOfPeriod :=
            epoch =? u64 (period * EpochsPerSyncCommitteePeriod specs) in
          synchronized ←
            (if negb isStartOfPeriod
             then db.IsSyncCommitteeSynchronized period
             else mret false);
          if synchronized : bool then mret None
          else
            let syncAssignments :=
              imap (fun idx val =>
                      {| dbtypes.SyncAssignment.Period := period;
                         dbtypes.SyncAssignment.Index := u32 (Z.of_nat idx);
                         dbtypes.SyncAssignment.Validator := val |})
                   (SyncCommitteeDuties epochStatsValues) in
            db.InsertSyncAssignments syncAssignments
    end.

(** ** The controller *)

(** Modelled from the spec: [forkCache.updatePruningState(tx, epoch)]
    ([forkcache.go]) is not part of the sources at hand; section 4.D: it
    "persists the current [lastPrunedEpoch]". *)
Definition updatePruningState (epoch : Z) : M (option error) :=
  dbExec "SetExplorerState" (SetPruneState epoch).

(** [EpochToSlot] of the chain state is [EpochStartSlot] under its other
    name. *)
Definition EpochToSlot (cs : ChainState) (epoch : Z) : Z :=
  EpochStartSlot cs epoch.

Definition getMinInMemoryEpoch : M Z :=
  w ← getWorld;
  let minInMemoryEpoch := 0 in
  let minInMemoryEpoch :=
    if 0 <? lastFinalizedEpoch w then u64 (lastFinalizedEpoch w - 1)
    else minInMemoryEpoch in
  let minInMemoryEpoch :=
    if (0 <? lastPrunedEpoch w) && (minInMemoryEpoch <? lastPrunedEpoch w)
    then u64 (lastPrunedEpoch w - 1)
    else minInMemoryEpoch in
  mret minInMemoryEpoch.

Definition getMinInMemorySlot (cs : ChainState) : M Z :=
  minInMemoryEpoch ← getMinInMemoryEpoch;
  mret (EpochToSlot cs (u64 (minInMemoryEpoch + 1))).

(** A row of the unfinalized duties table.  The SSZ payload is kept as what
    the dynamic codec decodes it to, [None] when it does not decode. *)
Record UnfinalizedDuty := {
  DutyEpoch : Z;
  DutyDependentRoot : Z;
  DutiesSSZ : option EpochStatsValues
}.

(** Modelled from the spec: [createOrGetEpochStats] ([epochcache.go]) is not
    part of the sources at hand; section 4.C: it is "idempotent on [(epoch,
    dependentRoot)]".  The entry stays in the cache, so the key stands for
    the pointer the source gets. *)
Definition createOrGetEpochStats (epoch dependentRoot : Z) (fromDb : bool)
  : M (Z * Z) :=
  fun w =>
    match epochCache w !! (epoch, dependentRoot) with
    | Some _ => Ret (epoch, dependentRoot) w
    | None =>
        Ret (epoch, dependentRoot)
            (set_epochCache
               (<[(epoch, dependentRoot) :=
                    {| epoch := epoch; dependentRoot := dependentRoot;
                       values := None; isInDb := false; pruned := false |}]>
                  (epochCache w)) w)
    end.

(** An assignment through the pointer to a cache entry. *)
Definition updateEpochStats (key : Z * Z) (f : EpochStats -> EpochStats)
  : M unit :=
  modifyWorld (fun w => set_epochCache (alter f key (epochCache w)) w).

(** Modelled from the spec: [restoreFromDb] ([epochstats.go]) is not part of
    the sources at hand; section 6: the duties are "decoded through a dynamic
    SSZ codec".  It answers an error when the payload does not decode and
    sets the values of the entry otherwise. *)
Definition restoreFromDb (key : Z * Z) (dbDuty : UnfinalizedDuty)
  : M (option error) :=
  match DutiesSSZ dbDuty with
  | None => mret (Some (DbError "failed unmarshalling duties"))
  | Some v =>
      updateEpochStats key (fun es =>
        {| epoch := epoch es; dependentRoot := dependentRoot es;
           values := Some v; isInDb := isInDb es; pruned := false |});;
      mret None
  end.

Definition dropDutyArrays (v : EpochStatsValues) : EpochStatsValues :=
  {| ActiveValidators := ActiveValidators v;
     ActiveBalance := ActiveBalance v;
     EffectiveBalance := EffectiveBalance v;
     FirstDepositIndex := FirstDepositIndex v;
     ProposerDuties := [];
     AttesterDuties := [];
     SyncCommitteeDuties := [] |}.

(** Modelled from the spec: [pruneValues] ([epochstats.go]) is not part of
    the sources at hand; section 4.C: it "discards the large duty arrays in
    memory", and section 3 names the pruning flag. *)
Definition pruneValues (es : EpochStats) : EpochStats :=
  {| epoch := epoch es; dependentRoot := dependentRoot es;
     values := dropDutyArrays <$> values es;
     isInDb := isInDb es; pruned := true |}.

Definition epochStats_with_isInDb (b : bool) (es : EpochStats) : EpochStats :=
  {| epoch := epoch es; dependentRoot := dependentRoot es;
     values := values es; isInDb := b; pruned := pruned es |}.

(** The callback [StartIndexer] hands to [db.StreamUnfinalizedDuties].  The
    source runs its second half in up to ten goroutines; each touches the
    entry of its own row only, and the rows are taken here in the order of
    the stream. *)
Definition restoreUnfinalizedDuty (finalizedEpoch : Z)
    (dbDuty : UnfinalizedDuty) : M unit :=
  if DutyEpoch dbDuty <? finalizedEpoch then mret tt
  else
    epochStats ←
      createOrGetEpochStats (DutyEpoch dbDuty) (DutyDependentRoot dbDuty) false;
    err ← restoreFromDb epochStats dbDuty;
    match err with
    | Some e => logError "failed restoring epoch stats from db" (Some e)
    | None =>
        updateEpochStats epochStats (epochStats_with_isInDb true);;
        w ← getWorld;
        if DutyEpoch dbDuty <? lastPrunedEpoch w
        then updateEpochStats epochStats pruneValues
        else mret tt
    end.

Fixpoint forEach {A : Type} (f : A -> M unit) (l : list A) : M unit :=
  match l with
  | [] => mret tt
  | x :: rest => f x;; forEach f rest
  end.

(** Lines 143-160 of [StartIndexer]: the finalized epoch of the chain
    state, the pruning cursor of the database, which is raised to the
    finalized epoch and written back when it is behind, and the epoch of the
    last prune run. *)
Definition StartIndexer_loadState (cs : ChainState) : M unit :=
  let finalizedEpoch := FinalizedEpoch cs in
  modifyWorld (set_lastFinalizedEpoch finalizedEpoch);;
  modifyWorld (fun w =>
    set_lastPrunedEpoch (db.GetExplorerState_prunestate w) w);;
  w ← getWorld;
  (if lastPrunedEpoch w <? finalizedEpoch then
     modifyWorld (set_lastPrunedEpoch finalizedEpoch);;
     err ← db.RunDBTransaction (updatePruningState finalizedEpoch);
     match err with
     | Some e => logError "error while updating prune state" (Some e)
     | None => mret tt
     end
   else mret tt);;
  modifyWorld (set_lastPruneRunEpoch (CurrentEpoch cs)).

(** [StartIndexer] up to the end of the restore of the unfinalized epoch
    stats.  [unfinalizedDuties] are the rows [db.StreamUnfinalizedDuties]
    delivers.  The restore of forks, epoch aggregations and blocks, and the
    start of the clients and of the loop, are not carried: they do not
    assign the values of an epoch stats entry. *)
Definition StartIndexer (cs : ChainState)
    (unfinalizedDuties : list UnfinalizedDuty) : M unit :=
  w ← getWorld;
  if running w then mret tt
  else
    modifyWorld (set_running true);;
    StartIndexer_loadState cs;;
    forEach (restoreUnfinalizedDuty (FinalizedEpoch cs)) unfinalizedDuties.

(** [v1.Finality]: the finalized checkpoint of the event. *)
Record Finality := { FinalizedCheckpointEpoch : Z; FinalizedCheckpointRoot : Z }.

(** What the two subscriptions of [runIndexerLoop] deliver. *)
Inductive Event :=
| FinalityEvent (finalityEvent : Finality)
| WallclockSlotEvent (number : Z).

Section IndexerLoop.
(** [processFinalityEvent] ([finalization.go]) and [runCachePruning]
    ([pruning.go]) are not part of the sources at hand: the loop is
    embedded for any two such methods. *)
Variable processFinalityEvent : Finality -> M (option error).
Variable runCachePruning : M (option error).
Variable chainState : ChainState.

(** Lines 319-322: the error of [processFinalityEvent] is logged. *)
Definition finality_process (finalityEvent : Finality) : M unit :=
  err ← processFinalityEvent finalityEvent;
  match err with
  | Some e => logError "error processing finality event" (Some e)
  | None => mret tt
  end.

(** Lines 324-332. *)
Definition finality_advancePruned : M unit :=
  w ← getWorld;
  if lastPrunedEpoch w <? lastFinalizedEpoch w then
    modifyWorld (set_lastPrunedEpoch (lastFinalizedEpoch w));;
    err ← db.RunDBTransaction (updatePruningState (lastFinalizedEpoch w));
    match err with
    | Some e => logError "error while updating prune state" (Some e)
    | None => mret tt
    end
  else mret tt.

(** Lines 334-339. *)
Definition finality_prune : M unit :=
  err ← runCachePruning;
  match err with
  | Some e => logError "failed pruning cache" (Some e)
  | None => mret tt
  end;;
  modifyWorld (set_lastPruneRunEpoch (CurrentEpoch chainState)).

Definition onFinalityEvent (finalityEvent : Finality) : M unit :=
  finality_process finalityEvent;;
  finality_advancePruned;;
  finality_prune.

(** [uint8(100 / SlotsPerEpoch * uint64(slotIndex))] *)
Definition slotProgress (slotIndex : Z) : Z :=
  u8 (u64 (100 / SlotsPerEpoch (GetSpecs chainState) * slotIndex)).

(** Lines 341-354.  The three divisions by [SlotsPerEpoch] panic when it
    is zero. *)
Definition onSlotEvent (number : Z) : M unit :=
  if SlotsPerEpoch (GetSpecs chainState) =? 0 then panic DivideByZero
  else
    let epoch := EpochOfSlot chainState number in
    let slotIndex := SlotToSlotIndex chainState number in
    w ← getWorld;
    if (lastPruneRunEpoch w <? epoch) && (50 <=? slotProgress slotIndex) then
      err ← runCachePruning;
      match err with
      | Some e => logError "failed pruning cache" (Some e)
      | None => mret tt
      end;;
      modifyWorld (set_lastPruneRunEpoch epoch)
    else mret tt.

Definition handleEvent (ev : Event) : M unit :=
  match ev with
  | FinalityEvent finalityEvent => onFinalityEvent finalityEvent
  | WallclockSlotEvent number => onSlotEvent number
  end.

(** [runIndexerLoop] over the events the two channels deliver, in the
    order the [select] takes them.  A panic is recovered and logged by the
    deferred function, which starts the loop again. *)
Fixpoint runIndexerLoop (events : list Event) : M unit :=
  fun w =>
    match events with
    | [] => Ret tt w
    | ev :: rest =>
        match handleEvent ev w with
        | Ret _ w' => runIndexerLoop rest w'
        | Panic _ w' =>
            runIndexerLoop rest
              (set_log
                 (w_log w' ++
                  [LogPanic "uncaught panic in indexer.beacon.Indexer.runIndexerLoop subroutine"])
                 w')
        | Diverge => Diverge
        end
    end.
End IndexerLoop.

(** ** Vocabulary of the properties *)

(** The two attesting-index lists of an attester slashing, when both
    attestations and both lists are there. *)
Definition attestingIndexLists (s : AttesterSlashing)
  : option (list Z * list Z) :=
  match Attestation1 s, Attestation2 s with
  | Some att1, Some att2 =>
      match AttestingIndices att1, AttestingIndices att2 with
      | Some i1, Some i2 => Some (i1, i2)
      | _, _ => None
      end
  | _, _ => None
  end.

(** The rows the second loop of [buildDbSlashings] appends for one attester
    slashing. *)
Definition attesterSlashingRows (block : Block) (proposerIndex : Z)
    (slashingIndex : nat) (s : AttesterSlashing) : list dbtypes.Slashing.t :=
  match attestingIndexLists s with
  | Some (i1, i2) =>
      map (attesterSlashingRow block proposerIndex slashingIndex)
          (intersect.Simple i1 i2)
  | None => []
  end.


(** The database answers no error, whatever the statement. *)
Definition dbHealthy (w : World) : Prop :=
  forall tx op, w_dbFail w tx op = false.

(** The statements a run appended to the open transaction. *)
Definition newTxOps (w w' : World) : list DbOp :=
  skipn (length (w_tx w)) (w_tx w').

Definition slashingRowsOf (ops : list DbOp) : list dbtypes.Slashing.t :=
  flat_map (fun op => match op with InsertSlashings rows => rows | _ => [] end)
           ops.

(** How many of the rows name validator [v]. *)
Definition rowsForValidator (v : Z) (rows : list dbtypes.Slashing.t) : nat :=
  length (List.filter (fun r => dbtypes.Slashing.ValidatorIndex r =? v) rows).

(** [v] is in both attesting-index lists of the slashing. *)
Definition inIntersection (v : Z) (s : AttesterSlashing) : bool :=
  match attestingIndexLists s with
  | Some (i1, i2) => existsb (Z.eqb v) i1 && existsb (Z.eqb v) i2
  | None => false
  end.

(** The attesting indices of the first attestation are pairwise distinct,
    as the consensus rules require of an indexed attestation. *)
Definition firstIndicesDistinct (s : AttesterSlashing) : Prop :=
  match attestingIndexLists s with
  | Some (i1, _) => NoDup i1
  | None => True
  end.

(** *** Worked inputs *)

Module Sample.
Definition world : World :=
  {| w_tx := []; w_committed := []; w_dbFail := fun _ _ => false;
     w_syncSynchronized := fun _ => false; w_log := [];
     w_inFinalizedDb := []; running := false; lastFinalizedEpoch := 0;
     lastPrunedEpoch := 0; lastPruneRunEpoch := 0; epochCache := ∅ |}.

Definition headerAt (slot : Z) : phase0.BeaconBlockHeader :=
  {| phase0.HeaderSlot := slot; phase0.ProposerIndex := 7;
     phase0.ParentRoot := 0; phase0.StateRoot := 0 |}.

Definition deposit (key : Z) : phase0.Deposit :=
  {| phase0.Data :=
       {| phase0.PublicKey := key; phase0.WithdrawalCredentials := 2;
          phase0.Amount := 32 |} |}.

(** A body with one attestation, two deposits, one proposer slashing and
    one attester slashing whose index lists share the validators 2 and 3. *)
Definition body : BlockBody :=
  {| Attestations :=
       [{| phase0.AttestationSlot := 1; phase0.CommitteeIndex := 0 |}];
     Deposits := Some [deposit 1; deposit 3];
     VoluntaryExits := Some [];
     ProposerSlashings :=
       Some [{| phase0.SignedHeader1 := headerAt 1;
                phase0.SignedHeader2 := headerAt 1 |}];
     AttesterSlashings :=
       Some [{| Attestation1 := Some {| AttestingIndices := Some [1; 2; 3] |};
                Attestation2 := Some {| AttestingIndices := Some [3; 2; 9] |} |}];
     BodyProposerIndex := Some 7;
     BLSToExecutionChanges := [];
     ExecutionBlockNumber := 0;
     ExecutionTransactions := [];
     Withdrawals := [] |}.

Definition blockAtSlot (slot : Z) : Block :=
  {| Root := 100 + slot; Slot := slot; forkId := 5; header := headerAt slot;
     GetBlock := Some body |}.

(** Four slots per epoch, two epochs per sync-committee period. *)
Definition chain : ChainState :=
  {| GetSpecs :=
       {| SlotsPerEpoch := 4; AltairForkEpoch := 0;
          EpochsPerSyncCommitteePeriod := 2 |};
     CurrentEpoch := 3; FinalizedSlot := 4; FinalizedEpoch := 1 |}.

Definition statsValues : EpochStatsValues :=
  {| ActiveValidators := 10; ActiveBalance := 320; EffectiveBalance := 320;
     FirstDepositIndex := 1000; ProposerDuties := [11; 12; 13; 14];
     AttesterDuties := []; SyncCommitteeDuties := [21; 22] |}.

Definition stats (e : Z) : EpochStats :=
  {| epoch := e; dependentRoot := 9; values := Some statsValues;
     isInDb := false; pruned := false |}.

Definition statsWithoutValues (e : Z) : EpochStats :=
  {| epoch := e; dependentRoot := 9; values := None;
     isInDb := false; pruned := false |}.
End Sample.

(** *** Rows of a run *)

(** The statements a run of [persistEpochData] leaves behind: in the open
    transaction it was given, or committed by its own transaction. *)
Definition persistedOps (tx : option Tx) (w w' : World) : list DbOp :=
  match tx with
  | Some _ => newTxOps w w'
  | None => skipn (length (w_committed w)) (w_committed w')
  end.

(** The slot table: full rows and the rows of missed slots. *)
Definition slotRowsOf (ops : list DbOp) : list dbtypes.Slot.t :=
  flat_map (fun op => match op with InsertSlot r => [r] | _ => [] end) ops.

Definition missedSlotRowsOf (ops : list DbOp) : list dbtypes.SlotHeader.t :=
  flat_map (fun op => match op with InsertMissingSlot h => [h] | _ => [] end)
           ops.

Definition epochRowsOf (ops : list DbOp) : list dbtypes.Epoch.t :=
  flat_map (fun op => match op with InsertEpoch e => [e] | _ => [] end) ops.

Definition depositRowsOf (ops : list DbOp) : list dbtypes.Deposit.t :=
  flat_map (fun op => match op with InsertDeposits rows => rows | _ => [] end)
           ops.

Definition isMissing (s : dbtypes.SlotStatus) : bool :=
  match s with dbtypes.Missing => true | _ => false end.

(** The header view of every slot row with status Missing at [slot]. *)
Definition missingRowsAt (slot : Z) (ops : list DbOp)
  : list dbtypes.SlotHeader.t :=
  flat_map
    (fun op =>
       match op with
       | InsertSlot r =>
           if isMissing (dbtypes.Slot.Status r) && (dbtypes.Slot.Slot r =? slot)
           then [missedSlot (dbtypes.Slot.Slot r) (dbtypes.Slot.Proposer r)]
           else []
       | InsertMissingSlot h =>
           if isMissing (dbtypes.SlotHeader.Status h)
              && (dbtypes.SlotHeader.Slot h =? slot)
           then [h] else []
       | _ => []
       end) ops.

(** How many slot rows have status Missing. *)
Definition missingCount (ops : list DbOp) : nat :=
  length (List.filter (fun r => isMissing (dbtypes.Slot.Status r))
                      (slotRowsOf ops))
  + length (List.filter (fun h => isMissing (dbtypes.SlotHeader.Status h))
                        (missedSlotRowsOf ops)).

Definition hasBlockAt (blocks : list Block) (slot : Z) : bool :=
  existsb (fun b => Slot b =? slot) blocks.

(** *** Well-formed inputs of an epoch *)

(** The slots of the epoch fit [uint64], and their number fits [int]. *)
Definition epochInRange (cs : ChainState) (epoch : Z) : Prop :=
  0 < SlotsPerEpoch (GetSpecs cs) <= MaxInt64 /\ 0 <= epoch
  /\ epoch * SlotsPerEpoch (GetSpecs cs) + SlotsPerEpoch (GetSpecs cs)
     < U64.modulus.

Definition slotsAscending (blocks : list Block) : Prop :=
  Sorted (fun a b => Slot a < Slot b) blocks.

Definition slotsInEpoch (cs : ChainState) (epoch : Z) (blocks : list Block)
  : Prop :=
  Forall (fun b => EpochStartSlot cs epoch <= Slot b
                   < EpochStartSlot cs epoch + SlotsPerEpoch (GetSpecs cs))
         blocks.

(** There is a proposer duty for every slot of the epoch. *)
Definition dutiesCover (cs : ChainState) (epochStats : option EpochStats)
  : Prop :=
  match GetValues cs epochStats with
  | Some v => SlotsPerEpoch (GetSpecs cs) <= Z.of_nat (length (ProposerDuties v))
  | None => True
  end.

(** The proposer the writer knows for the slot with index [slotIndex]. *)
Definition knownProposer (epochStatsValues : option EpochStatsValues)
    (slotIndex : Z) : Z :=
  match epochStatsValues with
  | Some v => nth (Z.to_nat slotIndex) (ProposerDuties v) 0
  | None => MaxInt64
  end.

(** *** The two slot loops, in closed form *)

(** What the walk shared by [buildDbEpoch] and [persistMissedSlots] decides
    for [n] slots from [slot]: the block it takes at each slot, if any. *)
Fixpoint slotWalk (blocks : list Block) (n : nat) (slot : Z) (blockIdx : nat)
  : list (Z * option Block) :=
  match n with
  | O => []
  | S n =>
      match blockAt blocks blockIdx slot with
      | Some b => (slot, Some b) :: slotWalk blocks n (slot + 1) (S blockIdx)
      | None => (slot, None) :: slotWalk blocks n (slot + 1) blockIdx
      end
  end.

Definition takenBlocks (walk : list (Z * option Block)) : list Block :=
  flat_map (fun e => match snd e with Some b => [b] | None => [] end) walk.

Definition missedOf (epochStatsValues : option EpochStatsValues)
    (firstSlot : Z) (walk : list (Z * option Block))
  : list dbtypes.SlotHeader.t :=
  flat_map
    (fun e =>
       match snd e with
       | Some _ => []
       | None =>
           [missedSlot (fst e)
              (knownProposer epochStatsValues (fst e - firstSlot))]
       end) walk.

(** [if len(rows) > 0 { insert(rows) }] *)
Definition insertIfAny {A : Type} (mk : list A -> DbOp) (rows : list A)
  : list DbOp :=
  if (0 <? length rows)%nat then [mk rows] else [].

(** The statements of [persistBlockData] against a healthy database. *)
Definition persistBlockData_ops (block : Block) (blockBody : BlockBody)
    (depositIndex : option Z) (orphaned : bool) (overrideForkId : option Z)
  : list DbOp :=
  let dbBlock := buildDbBlock_row block blockBody overrideForkId in
  let dbDeposits :=
    fst (buildDbDeposits block depositIndex orphaned overrideForkId) in
  InsertSlot
    (if orphaned then slot_with_Status dbtypes.Orphaned dbBlock else dbBlock)
  :: insertIfAny InsertDeposits
       (if orphaned then map (deposit_with_Orphaned true) dbDeposits
        else dbDeposits)
  ++ insertIfAny InsertVoluntaryExits
       (buildDbVoluntaryExits block orphaned overrideForkId)
  ++ insertIfAny InsertSlashings
       (buildDbSlashings block orphaned overrideForkId).

(** The statements of the canonical blocks an epoch takes, in order. *)
Fixpoint epochOps (taken : list Block) (depositIndex : option Z)
  : list DbOp :=
  match taken with
  | [] => []
  | b :: rest =>
      match GetBlock b with
      | None => epochOps rest depositIndex
      | Some body =>
          persistBlockData_ops b body depositIndex false (Some 0)
          ++ epochOps rest
               (snd (buildDbDeposits b depositIndex false (Some 0)))
      end
  end.

(** The aggregation of the blocks an epoch takes. *)
Fixpoint epochTotals (taken : list Block) (e : dbtypes.Epoch.t)
  : dbtypes.Epoch.t :=
  match taken with
  | [] => e
  | b :: rest =>
      match GetBlock b with
      | None => epochTotals rest (epoch_incBlockCount e)
      | Some body =>
          epochTotals rest (epoch_addBody body (epoch_incBlockCount e))
      end
  end.

(** The world after some more statements of the open transaction. *)
Definition addOps (ops : list DbOp) (w : World) : World :=
  set_tx (w_tx w ++ ops) w.

(** Every statement of [persistEpochData] against a healthy database: the
    canonical blocks, the missed slots, the epoch. *)
Definition epochStatements (cs : ChainState) (epoch : Z) (blocks : list Block)
    (epochStats : option EpochStats) (epochVotes : option EpochVotes)
  : list DbOp :=
  let epochStatsValues := GetValues cs epochStats in
  let firstSlot := EpochStartSlot cs epoch in
  let walk :=
    slotWalk blocks (Z.to_nat (SlotsPerEpoch (GetSpecs cs))) firstSlot 0%nat in
  epochOps (takenBlocks walk)
           (FirstDepositIndex <$> epochStatsValues)
  ++ map InsertMissingSlot (missedOf epochStatsValues firstSlot walk)
  ++ [InsertEpoch
        (epochTotals (takenBlocks walk)
                     (newDbEpoch epoch epochVotes epochStatsValues))].

(** [w'] is [w] after the statements [ops] of the open transaction; the
    committed statements and the database's verdicts are those of [w]. *)
Definition extends (ops : list DbOp) (w w' : World) : Prop :=
  w_tx w' = w_tx w ++ ops
  /\ w_dbFail w' = w_dbFail w
  /\ w_committed w' = w_committed w.

Definition sumZ (l : list Z) : Z := fold_right Z.add 0 l.

(** The blocks an epoch takes that have a body, with it. *)
Fixpoint withBody (taken : list Block) : list (Block * BlockBody) :=
  match taken with
  | [] => []
  | b :: rest =>
      match GetBlock b with
      | Some body => (b, body) :: withBody rest
      | None => withBody rest
      end
  end.


(** The first block of the list at [slot], if any. *)
Definition blockOfSlot (blocks : list Block) (slot : Z) : option Block :=
  List.find (fun b => Slot b =? slot) blocks.

(** [n] slots from [slot] on. *)
Fixpoint slotsFrom (slot : Z) (n : nat) : list Z :=
  match n with
  | O => []
  | S n => slot :: slotsFrom (slot + 1) n
  end.

(** The state of the walk at [slot]: the blocks before the index lie below
    [slot], the others are ascending from [slot] on. *)
Definition walkInvariant (pre rest : list Block) (slot : Z) : Prop :=
  Forall (fun b => Slot b < slot) pre
  /\ StronglySorted (fun b c => Slot b < Slot c) rest
  /\ Forall (fun b => slot <= Slot b) rest.

(** The deposits [buildDbDeposits] reads from a block. *)
Definition depositCount (b : Block) : nat :=
  match GetBlock b with
  | Some body => length (dropErr (Deposits body))
  | None => 0
  end.

Definition totalDeposits (blocks : list Block) : nat :=
  fold_right (fun b acc => (depositCount b + acc)%nat) 0%nat blocks.

(** [n] consecutive integers from [d] on. *)
Definition indicesFrom (d : Z) (n : nat) : list Z :=
  map (fun k => d + Z.of_nat k) (seq 0 n).

(** *** Worked inputs of the controller *)

(** Modelled from the spec: [processFinalityEvent] ([finalization.go]) is
    not part of the sources at hand; section 4.I, steps 1 and 2: it records
    the new finalized epoch in [lastFinalizedEpoch], then persists, under a
    database transaction, the epochs up to it through [persistEpochData];
    here that is the one epoch before the checkpoint, with the blocks and
    stats it is given. *)
Definition processFinalityEvent_spec (cs : ChainState) (blocks : list Block)
    (epochStats : option EpochStats) (finalityEvent : Finality)
  : M (option error) :=
  modifyWorld (set_lastFinalizedEpoch (FinalizedCheckpointEpoch finalityEvent));;
  persistEpochData None cs (FinalizedCheckpointEpoch finalityEvent - 1)
    blocks epochStats None.

Module SampleLoop.
(** Thirty-two slots per epoch, as on mainnet. *)
Definition mainnet : ChainState :=
  {| GetSpecs :=
       {| SlotsPerEpoch := 32; AltairForkEpoch := 74240;
          EpochsPerSyncCommitteePeriod := 256 |};
     CurrentEpoch := 1; FinalizedSlot := 0; FinalizedEpoch := 0 |}.

(** A world whose database rejects every statement but the write of the
    pruning cursor. *)
Definition rejectingWorld : World :=
  {| w_tx := []; w_committed := [];
     w_dbFail := fun _ op =>
                   match op with SetPruneState _ => false | _ => true end;
     w_syncSynchronized := fun _ => false; w_log := [];
     w_inFinalizedDb := []; running := true; lastFinalizedEpoch := 1;
     lastPrunedEpoch := 1; lastPruneRunEpoch := 1; epochCache := ∅ |}.

Definition finalityOfEpoch (e : Z) : Finality :=
  {| FinalizedCheckpointEpoch := e; FinalizedCheckpointRoot := 0 |}.

(** A world that restarts with the pruning cursor at epoch 3. *)
Definition restartWorld : World :=
  {| w_tx := []; w_committed := [SetPruneState 3];
     w_dbFail := fun _ _ => false;
     w_syncSynchronized := fun _ => false; w_log := [];
     w_inFinalizedDb := []; running := false; lastFinalizedEpoch := 0;
     lastPrunedEpoch := 0; lastPruneRunEpoch := 0; epochCache := ∅ |}.

Definition dutyOfEpoch (e : Z) : UnfinalizedDuty :=
  {| DutyEpoch := e; DutyDependentRoot := 9;
     DutiesSSZ := Some Sample.statsValues |}.
End SampleLoop.

(** The key of the epoch cache a row of the unfinalized duties restores. *)
Definition dutyKey (dbDuty : UnfinalizedDuty) : Z * Z :=
  (DutyEpoch dbDuty, DutyDependentRoot dbDuty).

(** The state of a restored entry: in the database, and with its duty
    arrays discarded exactly when [prune] holds. *)
Definition restoredAs (prune : bool) (v : EpochStatsValues) (es : EpochStats)
  : Prop :=
  isInDb es = true
  /\ if prune then pruned es = true /\ values es = Some (dropDutyArrays v)
     else pruned es = false /\ values es = Some v.

(** *** Runs against any database *)

(** A statement of a block: neither a slot row with status Missing nor an
    epoch row. *)
Definition isBlockOp (op : DbOp) : Prop :=
  match op with
  | InsertSlot r => isMissing (dbtypes.Slot.Status r) = false
  | InsertMissingSlot _ => False
  | InsertEpoch _ => False
  | _ => True
  end.

(** The computation answers, whatever the database does, and the statements
    it leaves in the open transaction all satisfy [P]. *)
Definition writesOnly (P : DbOp -> Prop) {A : Type} (m : M A) : Prop :=
  forall w,
    exists a ops w', m w = Ret a w' /\ extends ops w w' /\ Forall P ops.

(** ** The constructor of the indexer *)

(** [uint16(x)] *)
Definition u16 (z : Z) : Z := z mod 2 ^ 16.

(** The settings of [utils.Config] that [NewIndexer] reads.  The first two
    are assigned to [uint16] fields as they are; the third goes through a
    conversion to [uint16]. *)
Record IndexerConfig := {
  InMemoryEpochs : Z;
  CachePersistenceDelay : Z;
  MaxParallelValidatorSetRequests : Z;
  DisableIndexWriter : bool;
  DisableSynchronizer : bool;
  DisableBlockCompression : bool
}.

(** The configuration fields of the new [Indexer], and the static spec it
    hands to [dynssz.NewDynSsz]. *)
Record IndexerSettings := {
  writeDb : bool;
  disableSync : bool;
  blockCompression : bool;
  inMemoryEpochs : Z;
  maxParallelStateCalls : Z;
  cachePersistenceDelay : Z;
  staticSpec : list (string * string)
}.

Section NewIndexer.
(** [yaml.Marshal] and [yaml.Unmarshal] of the yaml package, which is
    outside this repository: the first answers the document and an error,
    the second fills the map it is given. *)
Variable yamlMarshal : ChainSpec -> string * option error.
Variable yamlUnmarshal :
  string -> list (string * string) -> list (string * string).

Definition NewIndexer (config : IndexerConfig) (cs : ChainState)
  : IndexerSettings :=
  let inMemoryEpochs := InMemoryEpochs config in
  let inMemoryEpochs := if inMemoryEpochs <? 2 then 2 else inMemoryEpochs in
  let cachePersistenceDelay := CachePersistenceDelay config in
  let cachePersistenceDelay :=
    if cachePersistenceDelay <? 2 then 2 else cachePersistenceDelay in
  let maxParallelStateCalls := u16 (MaxParallelValidatorSetRequests config) in
  let maxParallelStateCalls :=
    if maxParallelStateCalls <? 2 then 2 else maxParallelStateCalls in
  let blockCompression :=
    if DisableBlockCompression config then false else true in
  let staticSpec : list (string * string) := [] in
  let '(specYaml, err) := yamlMarshal (GetSpecs cs) in
  let staticSpec :=
    match err with
    | Some _ => yamlUnmarshal specYaml staticSpec
    | None => staticSpec
    end in
  {| writeDb := negb (DisableIndexWriter config);
     disableSync := DisableSynchronizer config;
     blockCompression := blockCompression;
     inMemoryEpochs := inMemoryEpochs;
     maxParallelStateCalls := maxParallelStateCalls;
     cachePersistenceDelay := cachePersistenceDelay;
     staticSpec := staticSpec |}.
End NewIndexer.

(** ** Vocabulary of the further properties *)

(** *** The statements of one block *)

Definition voluntaryExitRowsOf (ops : list DbOp)
  : list dbtypes.VoluntaryExit.t :=
  flat_map
    (fun op => match op with InsertVoluntaryExits rows => rows | _ => [] end)
    ops.

(** What [persistBlockData] may hand to the database: the slot row, or a
    batch of deposits, voluntary exits or slashings that holds a row. *)
Definition isBlockStatement (op : DbOp) : Prop :=
  match op with
  | InsertSlot _ => True
  | InsertDeposits rows => rows <> []
  | InsertVoluntaryExits rows => rows <> []
  | InsertSlashings rows => rows <> []
  | _ => False
  end.

(** The statements of the child objects of a block, in the order of
    [persistBlockChildObjects]. *)
Definition childStatements (block : Block) (depositIndex : option Z)
    (orphaned : bool) (overrideForkId : option Z) : list DbOp :=
  let dbDeposits :=
    fst (buildDbDeposits block depositIndex orphaned overrideForkId) in
  insertIfAny InsertDeposits
    (if orphaned then map (deposit_with_Orphaned true) dbDeposits
     else dbDeposits)
  ++ insertIfAny InsertVoluntaryExits
       (buildDbVoluntaryExits block orphaned overrideForkId)
  ++ insertIfAny InsertSlashings
       (buildDbSlashings block orphaned overrideForkId).

(** The row [persistBlockData] hands to [db.InsertSlot]. *)
Definition slotRowOf (block : Block) (blockBody : BlockBody) (orphaned : bool)
    (overrideForkId : option Z) : dbtypes.Slot.t :=
  let dbBlock := buildDbBlock_row block blockBody overrideForkId in
  if orphaned then slot_with_Status dbtypes.Orphaned dbBlock else dbBlock.

(** [*depositIndex] after [n] increments. *)
Definition advanced (n : nat) (depositIndex : option Z) : option Z :=
  (fun d => u64 (d + Z.of_nat n)) <$> depositIndex.

(** The fork id a row gets: the override when there is one. *)
Definition rowForkId (block : Block) (overrideForkId : option Z) : Z :=
  match overrideForkId with
  | Some f => f
  | None => forkId block
  end.

(** *** Worked inputs of the further properties *)

Module SampleDb.
(** A world whose database rejects every batch of deposits and nothing
    else. *)
Definition depositsRejected : World :=
  {| w_tx := []; w_committed := [];
     w_dbFail := fun _ op =>
                   match op with InsertDeposits _ => true | _ => false end;
     w_syncSynchronized := fun _ => false; w_log := [];
     w_inFinalizedDb := []; running := false; lastFinalizedEpoch := 0;
     lastPrunedEpoch := 0; lastPruneRunEpoch := 0; epochCache := ∅ |}.

(** A world whose database rejects every statement of a block and accepts
    the rows of missed slots and of epochs. *)
Definition blocksRejected : World :=
  {| w_tx := []; w_committed := [];
     w_dbFail := fun _ op =>
                   match op with
                   | InsertMissingSlot _ | InsertEpoch _ => false
                   | _ => true
                   end;
     w_syncSynchronized := fun _ => false; w_log := [];
     w_inFinalizedDb := []; running := false; lastFinalizedEpoch := 0;
     lastPrunedEpoch := 0; lastPruneRunEpoch := 0; epochCache := ∅ |}.

(** A world whose database rejects every epoch row and nothing else. *)
Definition epochRowsRejected : World :=
  {| w_tx := []; w_committed := [];
     w_dbFail := fun _ op =>
                   match op with InsertEpoch _ => true | _ => false end;
     w_syncSynchronized := fun _ => false; w_log := [];
     w_inFinalizedDb := []; running := false; lastFinalizedEpoch := 0;
     lastPrunedEpoch := 0; lastPruneRunEpoch := 0; epochCache := ∅ |}.

(** The body of the worked inputs with two voluntary exits. *)
Definition bodyWithExits : BlockBody :=
  {| Attestations := Attestations Sample.body;
     Deposits := Deposits Sample.body;
     VoluntaryExits :=
       Some [{| phase0.ExitValidatorIndex := 8 |};
             {| phase0.ExitValidatorIndex := 9 |}];
     ProposerSlashings := ProposerSlashings Sample.body;
     AttesterSlashings := AttesterSlashings Sample.body;
     BodyProposerIndex := BodyProposerIndex Sample.body;
     BLSToExecutionChanges := BLSToExecutionChanges Sample.body;
     ExecutionBlockNumber := ExecutionBlockNumber Sample.body;
     ExecutionTransactions := ExecutionTransactions Sample.body;
     Withdrawals := Withdrawals Sample.body |}.

Definition blockWithExitsAtSlot (slot : Z) : Block :=
  {| Root := 100 + slot; Slot := slot; forkId := 5;
     header := Sample.headerAt slot; GetBlock := Some bodyWithExits |}.

(** Epoch stats whose values hold two proposer duties for the four slots
    of an epoch. *)
Definition shortStats (e : Z) : EpochStats :=
  {| epoch := e; dependentRoot := 9;
     values :=
       Some {| ActiveValidators := 10; ActiveBalance := 320;
               EffectiveBalance := 320; FirstDepositIndex := 1000;
               ProposerDuties := [11; 12]; AttesterDuties := [];
               SyncCommitteeDuties := [] |};
     isInDb := false; pruned := false |}.

(** A block without a body. *)
Definition bodilessBlockAtSlot (slot : Z) : Block :=
  {| Root := 100 + slot; Slot := slot; forkId := 5;
     header := Sample.headerAt slot; GetBlock := None |}.
End SampleDb.

(** *** Epochs against a database that rejects statements of blocks *)

(** The database accepts every row of a missed slot and every epoch row,
    whatever it does with the other statements. *)
Definition acceptsEpochRows (w : World) : Prop :=
  forall tx op,
    match op with
    | InsertMissingSlot _ | InsertEpoch _ => w_dbFail w tx op = false
    | _ => True
    end.

(** The database accepts every slot row of a block. *)
Definition acceptsSlotRows (w : World) : Prop :=
  forall tx row, w_dbFail w tx (InsertSlot row) = false.

(** The database rejects every epoch row. *)
Definition rejectsEpochRows (w : World) : Prop :=
  forall tx row, w_dbFail w tx (InsertEpoch row) = true.

(** *** Aggregates of an epoch *)

(** The body of the block is loaded. *)
Definition hasBody (b : Block) : bool :=
  match GetBlock b with
  | Some _ => true
  | None => false
  end.

(** *** Missed slots beyond the proposer duties *)

(** The walk misses the slot, and [duties] proposer duties hold no entry
    for its index. *)
Definition beyondDuties (duties : nat) (firstSlot : Z)
    (e : Z * option Block) : bool :=
  match snd e with
  | Some _ => false
  | None => Z.of_nat duties <=? fst e - firstSlot
  end.

(** The walk up to its first missed slot beyond the duties. *)
Fixpoint coveredPrefix (duties : nat) (firstSlot : Z)
    (walk : list (Z * option Block)) : list (Z * option Block) :=
  match walk with
  | [] => []
  | e :: rest =>
      if beyondDuties duties firstSlot e then []
      else e :: coveredPrefix duties firstSlot rest
  end.

(** The slot has no block in the list and no proposer duty. *)
Definition uncoveredSlot (blocks : list Block) (duties : nat) (firstSlot : Z)
    (slot : Z) : bool :=
  negb (hasBlockAt blocks slot) && (Z.of_nat duties <=? slot - firstSlot).

(** The rows of the slots without a block that have a proposer duty. *)
Definition coveredMissedRows (blocks : list Block) (proposerDuties : list Z)
    (firstSlot : Z) (slots : list Z) : list dbtypes.SlotHeader.t :=
  flat_map
    (fun slot =>
       if hasBlockAt blocks slot
          || (Z.of_nat (length proposerDuties) <=? slot - firstSlot)
       then []
       else [missedSlot slot
               (nth (Z.to_nat (slot - firstSlot)) proposerDuties 0)])
    slots.

(** *** Worked inputs at the bounds of the slot range *)

Module SampleBounds.
(** The last epoch whose slots fit [uint64], with thirty-two slots per
    epoch: its last slot is the largest [uint64]. *)
Definition lastEpoch : Z := 2 ^ 59 - 1.

(** A chain state whose spec has no epochs in a sync-committee period. *)
Definition zeroPeriodChain : ChainState :=
  {| GetSpecs :=
       {| SlotsPerEpoch := 4; AltairForkEpoch := 0;
          EpochsPerSyncCommitteePeriod := 0 |};
     CurrentEpoch := 3; FinalizedSlot := 4; FinalizedEpoch := 1 |}.
End SampleBounds.

(** The rows of [n] missed slots from [firstSlot] on. *)
Definition allMissed (epochStatsValues : option EpochStatsValues)
    (firstSlot : Z) (n : nat) : list dbtypes.SlotHeader.t :=
  map (fun slot =>
         missedSlot slot (knownProposer epochStatsValues (slot - firstSlot)))
      (slotsFrom firstSlot n).

(** *** The numbering of the slashing rows *)

(** The [SlotIndex] values of the rows of the attester slashings when the
    next slashing index is [k]: one value per validator of the
    intersection, the same for all rows of one slashing. *)
Fixpoint attesterSlotIndexes (k : nat)
    (attesterSlashings : list AttesterSlashing) : list Z :=
  match attesterSlashings with
  | [] => []
  | s :: rest =>
      match attestingIndexLists s with
      | Some (i1, i2) =>
          repeat (Z.of_nat k) (length (intersect.Simple i1 i2))
          ++ attesterSlotIndexes (S k) rest
      | None => attesterSlotIndexes k rest
      end
  end.

(** *** The state of the controller *)

(** The four fields of the indexer state the controller owns. *)
Definition controllerState (w : World) : bool * Z * Z * Z :=
  (running w, lastFinalizedEpoch w, lastPrunedEpoch w, lastPruneRunEpoch w).

(** The computation leaves [lastPrunedEpoch] as it is, also when it
    panics. *)
Definition keepsPrunedEpoch {A : Type} (m : M A) : Prop :=
  forall w,
    match m w with
    | Ret _ w' | Panic _ w' => lastPrunedEpoch w' = lastPrunedEpoch w
    | Diverge => True
    end.

(** The prune pass of a slot event and what follows it, lines 348-353. *)
Definition slotEventPrune (runCachePruning : M (option error)) (epoch : Z)
  : M unit :=
  err ← runCachePruning;
  match err with
  | Some e => logError "failed pruning cache" (Some e)
  | None => mret tt
  end;;
  modifyWorld (set_lastPruneRunEpoch epoch).

Module SampleController.
(** A finality handler that records the finalized epoch and nothing
    else. *)
Definition recordFinalized (finalityEvent : Finality) : M (option error) :=
  modifyWorld
    (set_lastFinalizedEpoch (FinalizedCheckpointEpoch finalityEvent));;
  mret None.

(** A prune pass that fails. *)
Definition failingPrune : M (option error) :=
  mret (Some (DbError "prune")).

(** A prune pass that panics. *)
Definition panickingPrune : M (option error) := panic NilDereference.

(** A row of the unfinalized duties whose payload does not decode. *)
Definition undecodableDutyOfEpoch (e : Z) : UnfinalizedDuty :=
  {| DutyEpoch := e; DutyDependentRoot := 9; DutiesSSZ := None |}.
End SampleController.
(** * Properties *)

(** ** Slashing rows *)

Section Slashings.
Variable block : Block.
Variable orphaned : bool.
Variable overrideForkId : option Z.
Variable proposerIndex : Z.

(** The first loop appends one row per proposer slashing. *)
Lemma proposerSlashing_fold (proposerSlashings : list phase0.ProposerSlashing) :
  forall dbSlashings slashingIndex,
  exists rows,
    fold_left
      (proposerSlashingStep block orphaned overrideForkId proposerIndex)
      proposerSlashings (dbSlashings, slashingIndex)
    = (dbSlashings ++ rows, (slashingIndex + length proposerSlashings)%nat)
    /\ Forall2
         (fun p row =>
            exists k, row = proposerSlashingRow block orphaned
                              overrideForkId proposerIndex k p)
         proposerSlashings rows.
Proof.
  induction proposerSlashings as [|p ps IH]; intros acc k; simpl.
  - exists []. rewrite app_nil_r, Nat.add_0_r. split; [reflexivity | constructor].
  - destruct (IH (acc ++ [proposerSlashingRow block orphaned overrideForkId
                             proposerIndex k p]) (S k)) as (rows & Heq & Hall).
    exists (proposerSlashingRow block orphaned overrideForkId
              proposerIndex k p :: rows).
    rewrite Heq, <- app_assoc. simpl. split.
    + f_equal. lia.
    + constructor; eauto.
Qed.

(** The inner loop of the second one is an append of mapped rows. *)
Lemma attesterRows_fold (slashingIndex : nat) (inter : list Z) :
  forall dbSlashings,
    fold_left
      (fun dbSlashings valIdx =>
         dbSlashings ++
         [attesterSlashingRow block proposerIndex slashingIndex valIdx])
      inter dbSlashings
    = dbSlashings
      ++ map (attesterSlashingRow block proposerIndex slashingIndex) inter.
Proof.
  induction inter as [|v vs IH]; intros acc; simpl.
  - now rewrite app_nil_r.
  - rewrite IH, <- app_assoc. reflexivity.
Qed.
End Slashings.

Lemma attesterSlashingStep_rows block proposerIndex dbSlashings k s :
  exists k',
    attesterSlashingStep block proposerIndex (dbSlashings, k) s
    = (dbSlashings ++ attesterSlashingRows block proposerIndex k s, k').
Proof.
  unfold attesterSlashingStep, attesterSlashingRows, attestingIndexLists.
  destruct (Attestation1 s) as [a1|], (Attestation2 s) as [a2|];
    try (exists k; now rewrite app_nil_r).
  destruct (AttestingIndices a1) as [i1|], (AttestingIndices a2) as [i2|];
    try (exists k; now rewrite app_nil_r).
  exists (S k). now rewrite attesterRows_fold.
Qed.

Lemma attesterSlashing_fold block proposerIndex
    (attesterSlashings : list AttesterSlashing) :
  forall dbSlashings slashingIndex,
  exists groups,
    fst (fold_left (attesterSlashingStep block proposerIndex)
                   attesterSlashings (dbSlashings, slashingIndex))
    = dbSlashings ++ concat groups
    /\ Forall2
         (fun s rows =>
            exists k, rows = attesterSlashingRows block proposerIndex k s)
         attesterSlashings groups.
Proof.
  induction attesterSlashings as [|s ss IH]; intros acc k; cbn [fold_left].
  - exists []. simpl. rewrite app_nil_r. split; [reflexivity | constructor].
  - destruct (attesterSlashingStep_rows block proposerIndex acc k s)
      as (k' & Hstep).
    rewrite Hstep.
    destruct (IH (acc ++ attesterSlashingRows block proposerIndex k s) k')
      as (groups & Heq & Hall).
    exists (attesterSlashingRows block proposerIndex k s :: groups).
    rewrite Heq, <- app_assoc. simpl. split; [reflexivity|].
    constructor; eauto.
Qed.

(** The shape of the result of [buildDbSlashings] for a readable body. *)
Lemma buildDbSlashings_shape block orphaned overrideForkId blockBody
    proposerSlashings attesterSlashings proposerIndex :
  GetBlock block = Some blockBody ->
  ProposerSlashings blockBody = Some proposerSlashings ->
  AttesterSlashings blockBody = Some attesterSlashings ->
  BodyProposerIndex blockBody = Some proposerIndex ->
  exists proposerRows attesterGroups,
    buildDbSlashings block orphaned overrideForkId
    = proposerRows ++ concat attesterGroups
    /\ Forall2
         (fun p row =>
            exists k, row = proposerSlashingRow block orphaned
                              overrideForkId proposerIndex k p)
         proposerSlashings proposerRows
    /\ Forall2
         (fun s rows =>
            exists k, rows = attesterSlashingRows block proposerIndex k s)
         attesterSlashings attesterGroups.
Proof.
  intros Hb Hp Ha Hi. unfold buildDbSlashings. rewrite Hb, Hp, Ha, Hi.
  destruct (proposerSlashing_fold block orphaned overrideForkId proposerIndex
              proposerSlashings [] 0%nat) as (prs & Hpf & Hpall).
  rewrite Hpf. simpl.
  destruct (attesterSlashing_fold block proposerIndex attesterSlashings prs
              (length proposerSlashings)) as (groups & Haf & Haall).
  exists prs, groups. rewrite Haf. auto.
Qed.

(** Every row of [buildDbSlashings] comes from one of its two loops. *)
Lemma buildDbSlashings_rows block orphaned overrideForkId row :
  In row (buildDbSlashings block orphaned overrideForkId) ->
  exists proposerIndex k,
    (exists p, row = proposerSlashingRow block orphaned overrideForkId
                       proposerIndex k p)
    \/ (exists valIdx, row = attesterSlashingRow block proposerIndex k valIdx).
Proof.
  intros Hin.
  destruct (GetBlock block) as [body|] eqn:Hb;
    [|unfold buildDbSlashings in Hin; rewrite Hb in Hin; destruct Hin].
  destruct (ProposerSlashings body) as [ps|] eqn:Hp;
    [|unfold buildDbSlashings in Hin; rewrite Hb, Hp in Hin; destruct Hin].
  destruct (AttesterSlashings body) as [ss|] eqn:Ha;
    [|unfold buildDbSlashings in Hin; rewrite Hb, Hp, Ha in Hin; destruct Hin].
  destruct (BodyProposerIndex body) as [pidx|] eqn:Hi;
    [|unfold buildDbSlashings in Hin; rewrite Hb, Hp, Ha, Hi in Hin;
      destruct Hin].
  destruct (buildDbSlashings_shape block orphaned overrideForkId body ps ss
              pidx Hb Hp Ha Hi) as (prs & groups & Heq & Hps & Hss).
  rewrite Heq in Hin. exists pidx.
  apply in_app_or in Hin as [Hin|Hin].
  - clear Heq Hss Hp. induction Hps as [|p r ps' prs' (k & Hr) _ IH].
    + destruct Hin.
    + destruct Hin as [<-|Hin]; [exists k; left; eauto | exact (IH Hin)].
  - clear Heq Hps Ha. induction Hss as [|s g ss' gs' (k & Hg) _ IH].
    + destruct Hin.
    + simpl in Hin. apply in_app_or in Hin as [Hin|Hin]; [|exact (IH Hin)].
      subst g. unfold attesterSlashingRows in Hin.
      destruct (attestingIndexLists s) as [[i1 i2]|]; [|destruct Hin].
      apply in_map_iff in Hin as (v & <- & _). exists k; right; eauto.
Qed.

Lemma count_in_filtered (P : Z -> bool) (v : Z) (l : list Z) :
  NoDup l ->
  length (List.filter (fun x => x =? v) (List.filter P l))
  = if existsb (Z.eqb v) l && P v then 1%nat else 0%nat.
Proof.
  induction 1 as [|x l Hnotin Hnd IH]; [reflexivity|].
  cbn [List.filter existsb].
  destruct (Z.eqb_spec v x) as [->|Hne].
  - assert (Hrest : length (List.filter (fun y => y =? x) (List.filter P l))
                    = 0%nat).
    { rewrite IH. destruct (existsb (Z.eqb x) l) eqn:Hex; [|reflexivity].
      apply existsb_exists in Hex as (y & Hy & Heq).
      apply Z.eqb_eq in Heq. subst y.
      apply list_elem_of_In in Hy. contradiction. }
    destruct (P x); cbn [List.filter orb andb length].
    + rewrite Z.eqb_refl. cbn [length]. now rewrite Hrest.
    + exact Hrest.
  - cbn [orb]. destruct (P x); cbn [List.filter]; [|exact IH].
    destruct (Z.eqb_spec x v) as [->|_]; [contradiction | exact IH].
Qed.

Lemma rowsForValidator_attesterRows block proposerIndex k v (l : list Z) :
  rowsForValidator v (map (attesterSlashingRow block proposerIndex k) l)
  = length (List.filter (fun x => x =? v) l).
Proof.
  unfold rowsForValidator. induction l as [|x l IH]; [reflexivity|].
  cbn [map List.filter dbtypes.Slashing.ValidatorIndex attesterSlashingRow].
  destruct (x =? v); cbn [length]; now rewrite IH.
Qed.

Lemma attesterSlashingRows_count block proposerIndex k s v :
  firstIndicesDistinct s ->
  rowsForValidator v (attesterSlashingRows block proposerIndex k s)
  = if inIntersection v s then 1%nat else 0%nat.
Proof.
  unfold firstIndicesDistinct, attesterSlashingRows, inIntersection.
  destruct (attestingIndexLists s) as [[i1 i2]|]; [|reflexivity].
  intros Hnd. rewrite rowsForValidator_attesterRows.
  unfold intersect.Simple. now rewrite count_in_filtered.
Qed.

Lemma attesterSlashingRows_reason block proposerIndex k s :
  Forall (fun r => dbtypes.Slashing.Reason r = dbtypes.AttesterSlashing)
         (attesterSlashingRows block proposerIndex k s).
Proof.
  unfold attesterSlashingRows.
  destruct (attestingIndexLists s) as [[i1 i2]|]; [|constructor].
  apply List.Forall_forall. intros r Hin.
  apply in_map_iff in Hin as (v & <- & _). reflexivity.
Qed.

(** C4.  For a block whose body is readable, the rows of [buildDbSlashings]
    are one row with reason ProposerSlashing for each proposer slashing,
    followed by one group of rows for each attester slashing; a group has
    reason AttesterSlashing throughout and names every validator index of
    the intersection of the two attesting-index lists exactly once and no
    other index (the indices of the first list being pairwise distinct). *)
Theorem slashing_rows_one_per_slashed_validator
    block orphaned overrideForkId blockBody proposerSlashings
    attesterSlashings proposerIndex :
  GetBlock block = Some blockBody ->
  ProposerSlashings blockBody = Some proposerSlashings ->
  AttesterSlashings blockBody = Some attesterSlashings ->
  BodyProposerIndex blockBody = Some proposerIndex ->
  Forall firstIndicesDistinct attesterSlashings ->
  exists proposerRows attesterGroups,
    buildDbSlashings block orphaned overrideForkId
    = proposerRows ++ concat attesterGroups
    /\ Forall2
         (fun p row =>
            dbtypes.Slashing.Reason row = dbtypes.ProposerSlashing
            /\ dbtypes.Slashing.ValidatorIndex row
               = phase0.ProposerIndex (phase0.SignedHeader1 p))
         proposerSlashings proposerRows
    /\ Forall2
         (fun s rows =>
            Forall (fun r => dbtypes.Slashing.Reason r
                             = dbtypes.AttesterSlashing) rows
            /\ forall v, rowsForValidator v rows
                         = if inIntersection v s then 1%nat else 0%nat)
         attesterSlashings attesterGroups.
Proof.
  intros Hb Hp Ha Hi Hnd.
  destruct (buildDbSlashings_shape block orphaned overrideForkId blockBody
              proposerSlashings attesterSlashings proposerIndex Hb Hp Ha Hi)
    as (prs & groups & Heq & Hps & Hss).
  exists prs, groups. split; [exact Heq|]. clear Heq. split.
  - clear Hp. induction Hps as [|p r ps' prs' (k & ->) _ IH].
    + constructor.
    + constructor; [split; reflexivity | exact IH].
  - clear Ha. revert Hnd.
    induction Hss as [|s g ss' gs' (k & ->) _ IH]; intros Hnd; constructor.
    + inversion Hnd; subst. split.
      * apply attesterSlashingRows_reason.
      * intros v. now apply attesterSlashingRows_count.
    + inversion Hnd; subst. auto.
Qed.

Lemma slashing_rows_witness :
  exists proposerRows attesterGroups,
    buildDbSlashings (Sample.blockAtSlot 4) false None
    = proposerRows ++ concat attesterGroups
    /\ Forall2
         (fun p row =>
            dbtypes.Slashing.Reason row = dbtypes.ProposerSlashing
            /\ dbtypes.Slashing.ValidatorIndex row
               = phase0.ProposerIndex (phase0.SignedHeader1 p))
         (dropErr (ProposerSlashings Sample.body)) proposerRows
    /\ Forall2
         (fun s rows =>
            Forall (fun r => dbtypes.Slashing.Reason r
                             = dbtypes.AttesterSlashing) rows
            /\ forall v, rowsForValidator v rows
                         = if inIntersection v s then 1%nat else 0%nat)
         (dropErr (AttesterSlashings Sample.body)) attesterGroups.
Proof.
  apply (slashing_rows_one_per_slashed_validator
           (Sample.blockAtSlot 4) false None Sample.body _ _ 7
           eq_refl eq_refl eq_refl eq_refl).
  constructor; [|constructor].
  unfold firstIndicesDistinct. simpl.
  refine (bool_decide_unpack _ _). vm_compute. exact I.
Defined.

(** ** Reasoning about the world *)

Lemma newTxOps_app w ops : newTxOps w (set_tx (w_tx w ++ ops) w) = ops.
Proof. unfold newTxOps. cbn [w_tx set_tx]. apply drop_app_length. Qed.

Lemma newTxOps_same w : newTxOps w w = [].
Proof. unfold newTxOps. apply drop_all. Qed.

Lemma dbExec_cases what op w err w' :
  dbExec what op w = Ret err w' ->
  (err = None /\ w' = set_tx (w_tx w ++ [op]) w)
  \/ (err = Some (DbError what) /\ w' = w).
Proof.
  unfold dbExec. destruct (w_dbFail w (w_tx w) op); intros [= <- <-]; auto.
Qed.

Lemma dbExec_healthy what op w :
  dbHealthy w -> dbExec what op w = Ret None (set_tx (w_tx w ++ [op]) w).
Proof. intros H. unfold dbExec. now rewrite H. Qed.

Lemma dbHealthy_set_tx tx w : dbHealthy w -> dbHealthy (set_tx tx w).
Proof. intros H ? ?. apply H. Qed.

(** [persistBlockSlashings] hands the rows of [buildDbSlashings] to the
    database as they are, or writes nothing. *)
Lemma persistBlockSlashings_ops block orphaned overrideForkId w err w' :
  persistBlockSlashings block orphaned overrideForkId w = Ret err w' ->
  newTxOps w w' = []
  \/ newTxOps w w'
     = [InsertSlashings (buildDbSlashings block orphaned overrideForkId)].
Proof.
  unfold persistBlockSlashings.
  destruct (0 <? length (buildDbSlashings block orphaned overrideForkId))%nat.
  - unfold db.InsertSlashings, mbind, M_bind.
    destruct (dbExec _ _ w) as [e w1| |] eqn:Hexec; [|discriminate..].
    apply dbExec_cases in Hexec as [[-> ->]|[-> ->]]; intros [= <- <-].
    + right. apply newTxOps_app.
    + left. apply newTxOps_same.
  - intros [= <- <-]. left. apply newTxOps_same.
Qed.

(** C10.  Of the slashing rows written for a block that is persisted as
    orphaned under an override fork id, those of the attester slashings
    carry [Orphaned = false] and [ForkId = 0], and those of the proposer
    slashings carry [Orphaned = true] and the override as [ForkId]. *)
Theorem attester_slashing_rows_ignore_orphaned_and_fork
    block overrideForkId w err w' row :
  persistBlockSlashings block true (Some overrideForkId) w = Ret err w' ->
  In row (slashingRowsOf (newTxOps w w')) ->
  match dbtypes.Slashing.Reason row with
  | dbtypes.AttesterSlashing =>
      dbtypes.Slashing.Orphaned row = false
      /\ dbtypes.Slashing.ForkId row = 0
  | dbtypes.ProposerSlashing =>
      dbtypes.Slashing.Orphaned row = true
      /\ dbtypes.Slashing.ForkId row = overrideForkId
  | dbtypes.UnspecifiedSlashing => False
  end.
Proof.
  intros Hrun Hin.
  apply persistBlockSlashings_ops in Hrun as [Hops|Hops];
    rewrite Hops in Hin; simpl in Hin; [destruct Hin|].
  rewrite app_nil_r in Hin.
  apply buildDbSlashings_rows in Hin
    as (pidx & k & [(p & ->)|(v & ->)]); simpl; auto.
Qed.

Lemma attester_slashing_rows_witness :
  let block := Sample.blockAtSlot 4 in
  let row := attesterSlashingRow block 7 1 2 in
  In row (buildDbSlashings block true (Some 3))
  /\ dbtypes.Slashing.Orphaned row = false
  /\ dbtypes.Slashing.ForkId row = 0.
Proof.
  intros block row. split.
  - vm_compute. right. left. reflexivity.
  - apply (attester_slashing_rows_ignore_orphaned_and_fork
             block 3 Sample.world None
             (set_tx [InsertSlashings (buildDbSlashings block true (Some 3))]
                     Sample.world)
             row).
    + reflexivity.
    + vm_compute. right. left. reflexivity.
Defined.

Lemma addOps_nil w : addOps [] w = w.
Proof. destruct w. unfold addOps, set_tx. cbn. now rewrite app_nil_r. Qed.

Lemma addOps_addOps a b w : addOps b (addOps a w) = addOps (a ++ b) w.
Proof. unfold addOps, set_tx. cbn. now rewrite app_assoc. Qed.

Lemma dbHealthy_addOps ops w : dbHealthy w -> dbHealthy (addOps ops w).
Proof. apply dbHealthy_set_tx. Qed.

Lemma dbExec_addOps what op w :
  dbHealthy w -> dbExec what op w = Ret None (addOps [op] w).
Proof. apply dbExec_healthy. Qed.

Ltac unfold_monad :=
  unfold mbind, M_bind, mret, M_ret, orReturn, modifyWorld, getWorld.

(** Against a healthy database an insert guarded by [len(rows) > 0] writes
    [insertIfAny]. *)
Lemma guarded_insert_healthy {A : Type} (mk : list A -> DbOp) what msg
    (rows : list A) w :
  dbHealthy w ->
  (if (0 <? length rows)%nat then
     err ← dbExec what (mk rows);
     match err with
     | Some e => mret (Some (Errorf msg e))
     | None => mret None
     end
   else mret None) w
  = Ret None (addOps (insertIfAny mk rows) w).
Proof.
  intros H. unfold insertIfAny. destruct (0 <? length rows)%nat.
  - unfold_monad. now rewrite dbExec_addOps.
  - unfold_monad. now rewrite addOps_nil.
Qed.

Lemma persistBlockVoluntaryExits_healthy block orphaned overrideForkId w :
  dbHealthy w ->
  persistBlockVoluntaryExits block orphaned overrideForkId w
  = Ret None
      (addOps (insertIfAny InsertVoluntaryExits
                 (buildDbVoluntaryExits block orphaned overrideForkId)) w).
Proof. intros H. now apply guarded_insert_healthy. Qed.

Lemma persistBlockSlashings_healthy block orphaned overrideForkId w :
  dbHealthy w ->
  persistBlockSlashings block orphaned overrideForkId w
  = Ret None
      (addOps (insertIfAny InsertSlashings
                 (buildDbSlashings block orphaned overrideForkId)) w).
Proof. intros H. now apply guarded_insert_healthy. Qed.

Lemma persistBlockConsolidations_healthy block orphaned w :
  persistBlockConsolidations block orphaned w = Ret None w.
Proof.
  unfold persistBlockConsolidations, buildDbConsolidations.
  destruct (GetBlock block), orphaned; reflexivity.
Qed.

Lemma persistBlockElRequests_healthy block orphaned w :
  persistBlockElRequests block orphaned w = Ret None w.
Proof.
  unfold persistBlockElRequests, buildDbElRequests.
  destruct (GetBlock block), orphaned; reflexivity.
Qed.

Lemma persistBlockDeposits_healthy block depositIndex orphaned overrideForkId w :
  dbHealthy w ->
  persistBlockDeposits block depositIndex orphaned overrideForkId w
  = Ret (None,
         snd (buildDbDeposits block depositIndex orphaned overrideForkId))
      (addOps
         (insertIfAny InsertDeposits
            (if orphaned
             then map (deposit_with_Orphaned true)
                    (fst (buildDbDeposits block depositIndex orphaned
                            overrideForkId))
             else fst (buildDbDeposits block depositIndex orphaned
                         overrideForkId))) w).
Proof.
  intros H. unfold persistBlockDeposits.
  destruct (buildDbDeposits block depositIndex orphaned overrideForkId)
    as [rows di]. cbn [fst snd]. unfold insertIfAny.
  destruct (0 <? length _)%nat.
  - unfold_monad. unfold db.InsertDeposits. now rewrite dbExec_addOps.
  - unfold_monad. now rewrite addOps_nil.
Qed.

Lemma persistBlockChildObjects_healthy block depositIndex orphaned
    overrideForkId w :
  dbHealthy w ->
  persistBlockChildObjects block depositIndex orphaned overrideForkId w
  = Ret (None,
         snd (buildDbDeposits block depositIndex orphaned overrideForkId))
      (addOps
         (insertIfAny InsertDeposits
            (if orphaned
             then map (deposit_with_Orphaned true)
                    (fst (buildDbDeposits block depositIndex orphaned
                            overrideForkId))
             else fst (buildDbDeposits block depositIndex orphaned
                         overrideForkId))
          ++ insertIfAny InsertVoluntaryExits
               (buildDbVoluntaryExits block orphaned overrideForkId)
          ++ insertIfAny InsertSlashings
               (buildDbSlashings block orphaned overrideForkId)) w).
Proof.
  intros H. unfold persistBlockChildObjects.
  unfold mbind at 1. unfold M_bind at 1.
  rewrite persistBlockDeposits_healthy by exact H.
  unfold mbind at 1. unfold M_bind at 1.
  unfold mbind at 1. unfold M_bind at 1.
  rewrite persistBlockVoluntaryExits_healthy by now apply dbHealthy_addOps.
  cbn [orReturn].
  unfold mbind at 1. unfold M_bind at 1.
  rewrite persistBlockSlashings_healthy by now repeat apply dbHealthy_addOps.
  cbn [orReturn].
  unfold mbind at 1. unfold M_bind at 1.
  rewrite persistBlockConsolidations_healthy. cbn [orReturn].
  unfold mbind at 1. unfold M_bind at 1.
  rewrite persistBlockElRequests_healthy. cbn [orReturn].
  unfold mret, M_ret. now rewrite !addOps_addOps.
Qed.

Lemma extends_refl w : extends [] w w.
Proof. unfold extends. now rewrite app_nil_r. Qed.

Lemma extends_trans a b w w1 w2 :
  extends a w w1 -> extends b w1 w2 -> extends (a ++ b) w w2.
Proof.
  intros (Ht1 & Hf1 & Hc1) (Ht2 & Hf2 & Hc2). unfold extends.
  rewrite Ht2, Ht1, Hf2, Hf1, Hc2, Hc1, app_assoc. auto.
Qed.

Lemma extends_addOps ops w : extends ops w (addOps ops w).
Proof. unfold extends, addOps. cbn. auto. Qed.

Lemma extends_healthy ops w w' : extends ops w w' -> dbHealthy w -> dbHealthy w'.
Proof. intros (_ & Hf & _) H tx op. rewrite Hf. apply H. Qed.

Lemma extends_newTxOps ops w w' : extends ops w w' -> newTxOps w w' = ops.
Proof. intros (Ht & _). unfold newTxOps. rewrite Ht. apply drop_app_length. Qed.

Lemma persistBlockData_healthy cs block blockBody epochStats depositIndex
    orphaned overrideForkId w :
  dbHealthy w ->
  GetBlock block = Some blockBody ->
  exists w',
    persistBlockData cs block epochStats depositIndex orphaned overrideForkId w
    = Ret (None,
           snd (buildDbDeposits block depositIndex orphaned overrideForkId)) w'
    /\ extends (persistBlockData_ops block blockBody depositIndex orphaned
                  overrideForkId) w w'.
Proof.
  intros H Hb. unfold persistBlockData, buildDbBlock. rewrite Hb.
  unfold mbind at 1. unfold M_bind at 1. unfold mret at 1. unfold M_ret at 1.
  unfold mbind at 1. unfold M_bind at 1.
  unfold db.InsertSlot. rewrite dbExec_addOps by exact H.
  unfold mbind at 1. unfold M_bind at 1.
  unfold markInFinalizedDb, modifyWorld.
  rewrite persistBlockChildObjects_healthy
    by (intros ? ?; apply H).
  eexists. split; [reflexivity|].
  unfold persistBlockData_ops, extends, addOps. cbn.
  rewrite <- app_assoc. auto.
Qed.

(** The closure of [persistEpochData] against a healthy database. *)
Lemma persistEpochData_blockFn_healthy cs epochStats block blockBody
    depositIndex w :
  dbHealthy w ->
  GetBlock block = Some blockBody ->
  exists w',
    persistEpochData_blockFn cs epochStats 0 block depositIndex w
    = Ret (snd (buildDbDeposits block depositIndex false (Some 0))) w'
    /\ extends (persistBlockData_ops block blockBody depositIndex false
                  (Some 0)) w w'.
Proof.
  intros H Hb. unfold persistEpochData_blockFn.
  destruct (persistBlockData_healthy cs block blockBody epochStats
              depositIndex false (Some 0) w H Hb) as (w' & Hrun & Hext).
  exists w'. split; [|exact Hext].
  unfold mbind at 1. unfold M_bind at 1. rewrite Hrun. reflexivity.
Qed.

(** ** The two slot loops *)

Lemma u64_small z : 0 <= z < U64.modulus -> u64 z = z.
Proof. intros H. unfold u64. now apply Z.mod_small. Qed.

Lemma dbHealthy_set_log l w : dbHealthy w -> dbHealthy (set_log l w).
Proof. intros H ? ?. apply H. Qed.

Lemma extends_set_log l w : extends [] w (set_log l w).
Proof. unfold extends. cbn. now rewrite app_nil_r. Qed.

Section EpochLoop.
Variable cs : ChainState.
Variable epochStats : option EpochStats.
Variable blocks : list Block.

Lemma buildDbEpoch_loop_healthy (n : nat) :
  forall fuel lastSlot slot blockIdx depositIndex dbEpoch w,
    dbHealthy w ->
    (n < fuel)%nat ->
    0 <= slot ->
    slot + Z.of_nat n < U64.modulus ->
    lastSlot = slot + Z.of_nat n - 1 ->
    exists w',
      buildDbEpoch_loop fuel blocks
        (Some (persistEpochData_blockFn cs epochStats 0))
        lastSlot slot blockIdx depositIndex dbEpoch w
      = Ret (epochTotals (takenBlocks (slotWalk blocks n slot blockIdx))
                         dbEpoch) w'
      /\ extends (epochOps (takenBlocks (slotWalk blocks n slot blockIdx))
                           depositIndex) w w'.
Proof.
  induction n as [|n IH];
    intros fuel lastSlot slot blockIdx di e w H Hfuel Hslot Hmax ->;
    (destruct fuel as [|fuel]; [lia|]); cbn [buildDbEpoch_loop slotWalk].
  - destruct (Z.leb_spec slot (slot + Z.of_nat 0 - 1)); [lia|].
    exists w. split; [reflexivity | apply extends_refl].
  - destruct (Z.leb_spec slot (slot + Z.of_nat (S n) - 1)); [|lia].
    rewrite (u64_small (slot + 1)) by lia.
    assert (Hlast : slot + Z.of_nat (S n) - 1 = slot + 1 + Z.of_nat n - 1)
      by lia.
    destruct (blockAt blocks blockIdx slot) as [b|];
      cbn [takenBlocks flat_map snd app epochOps epochTotals].
    + fold (takenBlocks (slotWalk blocks n (slot + 1) (S blockIdx))).
      destruct (GetBlock b) as [body|] eqn:Hb.
      * destruct (persistEpochData_blockFn_healthy cs epochStats b body di
                    w H Hb) as (w1 & Hfn & Hext1).
        unfold mbind at 1. unfold M_bind at 1. rewrite Hfn.
        destruct (IH fuel (slot + Z.of_nat (S n) - 1) (slot + 1)
                    (S blockIdx)
                    (snd (buildDbDeposits b di false (Some 0)))
                    (epoch_addBody body (epoch_incBlockCount e)) w1)
          as (w2 & Hloop & Hext2);
          [eapply extends_healthy; eauto | lia | lia | lia | exact Hlast |].
        exists w2. split; [exact Hloop|].
        eapply extends_trans; eauto.
      * unfold mbind at 1. unfold M_bind at 1.
        unfold logError, modifyWorld.
        destruct (IH fuel (slot + Z.of_nat (S n) - 1) (slot + 1)
                    (S blockIdx) di (epoch_incBlockCount e)
                    (set_log
                       (w_log w ++
                        [LogError
                           "error while building db epoch: block body not found for aggregation"
                           None]) w))
          as (w2 & Hloop & Hext2);
          [now apply dbHealthy_set_log | lia | lia | lia | exact Hlast |].
        exists w2. split; [exact Hloop|].
        exact (extends_trans [] _ _ _ _ (extends_set_log _ w) Hext2).
    + fold (takenBlocks (slotWalk blocks n (slot + 1) blockIdx)).
      apply IH; auto; lia.
Qed.

Variable epochStatsValues : option EpochStatsValues.
Variable firstSlot : Z.

Lemma persistMissedSlots_loop_healthy (n : nat) :
  forall fuel lastSlot slot blockIdx w,
    dbHealthy w ->
    (n < fuel)%nat ->
    0 <= firstSlot <= slot ->
    slot + Z.of_nat n < U64.modulus ->
    lastSlot = slot + Z.of_nat n ->
    lastSlot - firstSlot <= MaxInt64 ->
    match epochStatsValues with
    | Some v => lastSlot - firstSlot <= Z.of_nat (length (ProposerDuties v))
    | None => True
    end ->
    persistMissedSlots_loop fuel blocks epochStatsValues firstSlot lastSlot
      slot blockIdx w
    = Ret None
        (addOps
           (map InsertMissingSlot
              (missedOf epochStatsValues firstSlot
                 (slotWalk blocks n slot blockIdx))) w).
Proof.
  induction n as [|n IH];
    intros fuel lastSlot slot blockIdx w H Hfuel Hslot Hmax -> Hint Hduty;
    (destruct fuel as [|fuel]; [lia|]);
    cbn [persistMissedSlots_loop slotWalk].
  - destruct (Z.ltb_spec slot (slot + Z.of_nat 0)); [lia|].
    cbn [missedOf flat_map map]. now rewrite addOps_nil.
  - destruct (Z.ltb_spec slot (slot + Z.of_nat (S n))); [|lia].
    rewrite (u64_small (slot + 1)) by lia.
    assert (Hlast : slot + Z.of_nat (S n) = slot + 1 + Z.of_nat n) by lia.
    destruct (blockAt blocks blockIdx slot) as [b|];
      cbn [missedOf flat_map snd fst app map].
    + fold (missedOf epochStatsValues firstSlot
              (slotWalk blocks n (slot + 1) (S blockIdx))).
      apply IH; auto; lia.
    + fold (missedOf epochStatsValues firstSlot
              (slotWalk blocks n (slot + 1) blockIdx)).
      assert (Hproposer :
        match epochStatsValues with
        | None => mret MaxInt64
        | Some v =>
            match index_at (ProposerDuties v)
                           (to_int (u64 (slot - firstSlot))) with
            | Some p => mret p
            | None => panic IndexOutOfRange
            end
        end w
        = Ret (knownProposer epochStatsValues (slot - firstSlot)) w).
      { unfold knownProposer. destruct epochStatsValues as [v|];
          [|reflexivity].
        rewrite (u64_small (slot - firstSlot)) by lia.
        unfold to_int, MaxInt64, U64.modulus in *.
        destruct (Z.ltb_spec (slot - firstSlot) (2 ^ 63)); [|lia].
        unfold index_at.
        destruct (Z.ltb_spec (slot - firstSlot) 0); [lia|].
        rewrite (nth_error_nth' _ 0) by lia. reflexivity. }
      unfold mbind at 1. unfold M_bind at 1. rewrite Hproposer.
      unfold mbind at 1. unfold M_bind at 1.
      unfold db.InsertMissingSlot. rewrite dbExec_addOps by exact H.
      rewrite (IH fuel (slot + Z.of_nat (S n)) (slot + 1) blockIdx)
        by (auto using dbHealthy_addOps; lia).
      now rewrite addOps_addOps.
Qed.
End EpochLoop.

(** ** [persistEpochData] against a healthy database *)

Lemma EpochStartSlot_inRange cs epoch :
  epochInRange cs epoch ->
  EpochStartSlot cs epoch = epoch * SlotsPerEpoch (GetSpecs cs)
  /\ 0 <= EpochStartSlot cs epoch.
Proof.
  intros ((Hpos & Hint) & Hepoch & Hmax). unfold EpochStartSlot.
  rewrite u64_small by nia. split; [reflexivity | nia].
Qed.

Lemma persistEpochData_in_healthy cs epoch blocks epochStats epochVotes w :
  dbHealthy w ->
  epochInRange cs epoch ->
  dutiesCover cs epochStats ->
  exists w',
    persistEpochData_in cs epoch blocks epochStats epochVotes w = Ret None w'
    /\ extends (epochStatements cs epoch blocks epochStats epochVotes) w w'.
Proof.
  intros H Hrange Hduties.
  destruct (EpochStartSlot_inRange cs epoch Hrange) as (Hfirst & Hfirst0).
  destruct Hrange as ((Hpos & Hint) & Hepoch & Hmax).
  rewrite <- Hfirst in Hmax.
  set (spe := SlotsPerEpoch (GetSpecs cs)) in *.
  set (first := EpochStartSlot cs epoch) in *.
  assert (Hvals :
    match epochStats with
    | Some _ => GetValues cs epochStats
    | None => None
    end = GetValues cs epochStats) by (destruct epochStats; reflexivity).
  unfold persistEpochData_in, buildDbEpoch. rewrite Hvals.
  fold spe first.
  rewrite (u64_small (first + spe - 1)) by lia.
  destruct (buildDbEpoch_loop_healthy cs epochStats blocks (Z.to_nat spe)
              (S (Z.to_nat spe)) (first + spe - 1) first 0%nat
              (FirstDepositIndex <$> GetValues cs epochStats)
              (newDbEpoch epoch epochVotes (GetValues cs epochStats)) w)
    as (w1 & Hloop & Hext1); [exact H | lia | lia | lia | lia |].
  unfold mbind at 1. unfold M_bind at 1.
  change (match GetValues cs epochStats with
          | Some v => Some (FirstDepositIndex v)
          | None => None
          end) with (FirstDepositIndex <$> GetValues cs epochStats).
  rewrite Hloop.
  unfold mbind at 1. unfold M_bind at 1.
  unfold persistMissedSlots. fold spe first.
  rewrite (u64_small (first + spe)) by lia.
  rewrite (persistMissedSlots_loop_healthy blocks (GetValues cs epochStats)
             first (Z.to_nat spe)).
  - cbn [orReturn]. unfold mbind at 1. unfold M_bind at 1.
    unfold db.InsertEpoch.
    rewrite dbExec_addOps
      by (apply dbHealthy_addOps; eapply extends_healthy; eauto).
    eexists. split; [reflexivity|].
    unfold epochStatements. fold spe first.
    eapply extends_trans; [exact Hext1|].
    rewrite addOps_addOps. apply extends_addOps.
  - eapply extends_healthy; eauto.
  - lia.
  - lia.
  - lia.
  - lia.
  - unfold MaxInt64 in *. lia.
  - unfold dutiesCover in Hduties. fold spe in Hduties.
    destruct (GetValues cs epochStats); [lia | exact I].
Qed.

Lemma persistEpochData_healthy tx cs epoch blocks epochStats epochVotes w :
  dbHealthy w ->
  epochInRange cs epoch ->
  dutiesCover cs epochStats ->
  exists w',
    persistEpochData tx cs epoch blocks epochStats epochVotes w = Ret None w'
    /\ persistedOps tx w w'
       = epochStatements cs epoch blocks epochStats epochVotes.
Proof.
  intros H Hrange Hduties. destruct tx as [tx|]; cbn [persistEpochData].
  - destruct (persistEpochData_in_healthy cs epoch blocks epochStats
                epochVotes w H Hrange Hduties) as (w' & Hrun & Hext).
    exists w'. split; [exact Hrun|]. cbn [persistedOps].
    now apply extends_newTxOps.
  - destruct (persistEpochData_in_healthy cs epoch blocks epochStats
                epochVotes (set_tx [] w) (dbHealthy_set_tx _ _ H) Hrange
                Hduties) as (w' & Hrun & Htx & Hfail & Hcommitted).
    unfold db.RunDBTransaction. rewrite Hrun.
    eexists. split; [reflexivity|].
    cbn [persistedOps w_committed set_tx set_committed].
    rewrite Hcommitted, Htx. cbn [w_committed set_tx w_tx app].
    apply drop_app_length.
Qed.

(** The loop of [buildDbEpoch] never exits when the last slot of the epoch
    is the largest [uint64]: the slot counter wraps to zero and stays below
    it. *)
Example buildDbEpoch_diverges_at_last_uint64 :
  let cs :=
    {| GetSpecs :=
         {| SlotsPerEpoch := 1; AltairForkEpoch := 0;
            EpochsPerSyncCommitteePeriod := 1 |};
       CurrentEpoch := 0; FinalizedSlot := 0; FinalizedEpoch := 0 |} in
  buildDbEpoch cs (U64.modulus - 1) [] None None None Sample.world = Diverge.
Proof. vm_compute. reflexivity. Qed.

(** ** The rows among the statements of an epoch *)

Lemma flat_map_insertIfAny {A B : Type} (mk : list A -> DbOp)
    (f : DbOp -> list B) (rows : list A) (g : list A -> list B) :
  f (mk rows) = g rows -> g [] = [] ->
  flat_map f (insertIfAny mk rows) = g rows.
Proof.
  intros Hf Hg. unfold insertIfAny. destruct rows as [|r rows]; cbn.
  - now rewrite Hg.
  - now rewrite Hf, app_nil_r.
Qed.

Section BlockRows.
Variable block : Block.
Variable blockBody : BlockBody.
Variable depositIndex : option Z.
Variable overrideForkId : option Z.

Let ops :=
  persistBlockData_ops block blockBody depositIndex false overrideForkId.

Lemma slotRowsOf_block :
  slotRowsOf ops = [buildDbBlock_row block blockBody overrideForkId].
Proof.
  unfold ops, persistBlockData_ops, slotRowsOf.
  cbn [flat_map]. rewrite !flat_map_app.
  rewrite !(flat_map_insertIfAny _ _ _ (fun _ => [])) by reflexivity.
  reflexivity.
Qed.

Lemma epochRowsOf_block : epochRowsOf ops = [].
Proof.
  unfold ops, persistBlockData_ops, epochRowsOf.
  cbn [flat_map]. rewrite !flat_map_app.
  rewrite !(flat_map_insertIfAny _ _ _ (fun _ => [])) by reflexivity.
  reflexivity.
Qed.

Lemma depositRowsOf_block :
  depositRowsOf ops
  = fst (buildDbDeposits block depositIndex false overrideForkId).
Proof.
  unfold ops, persistBlockData_ops, depositRowsOf.
  cbn [flat_map]. rewrite !flat_map_app.
  rewrite (flat_map_insertIfAny InsertDeposits _ _ (fun rows => rows))
    by reflexivity.
  rewrite !(flat_map_insertIfAny _ _ _ (fun _ => [])) by reflexivity.
  now rewrite !app_nil_r.
Qed.

End BlockRows.

Lemma slotRowsOf_app a b : slotRowsOf (a ++ b) = slotRowsOf a ++ slotRowsOf b.
Proof. apply flat_map_app. Qed.

Lemma missedSlotRowsOf_app a b :
  missedSlotRowsOf (a ++ b) = missedSlotRowsOf a ++ missedSlotRowsOf b.
Proof. apply flat_map_app. Qed.

Lemma epochRowsOf_app a b :
  epochRowsOf (a ++ b) = epochRowsOf a ++ epochRowsOf b.
Proof. apply flat_map_app. Qed.

Lemma depositRowsOf_app a b :
  depositRowsOf (a ++ b) = depositRowsOf a ++ depositRowsOf b.
Proof. apply flat_map_app. Qed.

Lemma missingRowsAt_app slot a b :
  missingRowsAt slot (a ++ b) = missingRowsAt slot a ++ missingRowsAt slot b.
Proof. apply flat_map_app. Qed.

Lemma slotRowsOf_epochOps taken :
  forall depositIndex,
    slotRowsOf (epochOps taken depositIndex)
    = map (fun p => buildDbBlock_row (fst p) (snd p) (Some 0)) (withBody taken).
Proof.
  induction taken as [|b rest IH]; intros di; cbn [epochOps withBody];
    [reflexivity|].
  destruct (GetBlock b) as [body|]; [|apply IH].
  rewrite slotRowsOf_app, (slotRowsOf_block b body di (Some 0)), IH.
  reflexivity.
Qed.

Lemma epochRowsOf_epochOps taken :
  forall depositIndex, epochRowsOf (epochOps taken depositIndex) = [].
Proof.
  induction taken as [|b rest IH]; intros di; cbn [epochOps];
    [reflexivity|].
  destruct (GetBlock b) as [body|]; [|apply IH].
  rewrite epochRowsOf_app, (epochRowsOf_block b body di (Some 0)), IH.
  reflexivity.
Qed.

Lemma flat_map_InsertMissingSlot {B : Type} (f : DbOp -> list B)
    (g : dbtypes.SlotHeader.t -> list B) (l : list dbtypes.SlotHeader.t) :
  (forall h, f (InsertMissingSlot h) = g h) ->
  flat_map f (map InsertMissingSlot l) = flat_map g l.
Proof.
  intros Hf. induction l as [|h l IH]; cbn; [reflexivity|].
  now rewrite Hf, IH.
Qed.

Lemma flat_map_singleton {A : Type} (l : list A) :
  flat_map (fun x => [x]) l = l.
Proof. induction l as [|x l IH]; cbn; [reflexivity | now rewrite IH]. Qed.

Lemma flat_map_nil {A B : Type} (l : list A) :
  flat_map (fun _ : A => @nil B) l = [].
Proof. induction l as [|x l IH]; cbn; [reflexivity | exact IH]. Qed.

Section EpochRows.
Variable cs : ChainState.
Variable epoch : Z.
Variable blocks : list Block.
Variable epochStats : option EpochStats.
Variable epochVotes : option EpochVotes.

Let walk :=
  slotWalk blocks (Z.to_nat (SlotsPerEpoch (GetSpecs cs)))
           (EpochStartSlot cs epoch) 0%nat.
Let ops := epochStatements cs epoch blocks epochStats epochVotes.

Lemma slotRowsOf_epochStatements :
  slotRowsOf ops
  = map (fun p => buildDbBlock_row (fst p) (snd p) (Some 0))
        (withBody (takenBlocks walk)).
Proof.
  unfold ops, epochStatements. fold walk.
  rewrite !slotRowsOf_app, slotRowsOf_epochOps. unfold slotRowsOf.
  rewrite (flat_map_InsertMissingSlot _ (fun _ => [])) by reflexivity.
  rewrite flat_map_nil. cbn. now rewrite app_nil_r.
Qed.

Lemma epochRowsOf_epochStatements :
  epochRowsOf ops
  = [epochTotals (takenBlocks walk)
       (newDbEpoch epoch epochVotes (GetValues cs epochStats))].
Proof.
  unfold ops, epochStatements. fold walk.
  rewrite !epochRowsOf_app, epochRowsOf_epochOps. unfold epochRowsOf.
  rewrite (flat_map_InsertMissingSlot _ (fun _ => [])) by reflexivity.
  rewrite flat_map_nil. reflexivity.
Qed.
End EpochRows.

(** ** The walk over an ascending block list *)

Lemma find_all_false {A : Type} (f : A -> bool) (l r : list A) :
  Forall (fun x => f x = false) l -> List.find f (l ++ r) = List.find f r.
Proof.
  induction 1 as [|x l Hx _ IH]; cbn; [reflexivity | now rewrite Hx].
Qed.

Lemma blockOfSlot_hasBlockAt blocks slot :
  hasBlockAt blocks slot = match blockOfSlot blocks slot with
                           | Some _ => true
                           | None => false
                           end.
Proof.
  unfold hasBlockAt, blockOfSlot.
  induction blocks as [|b bs IH]; cbn; [reflexivity|].
  destruct (Slot b =? slot); [reflexivity | exact IH].
Qed.

Lemma blockAt_app pre rest slot :
  blockAt (pre ++ rest) (length pre) slot
  = match rest with
    | b :: _ => if Slot b =? slot then Some b else None
    | [] => None
    end.
Proof.
  unfold blockAt. rewrite nth_error_app2 by lia.
  rewrite Nat.sub_diag. destruct rest; reflexivity.
Qed.

Section AscendingWalk.
Lemma walkInvariant_skip pre rest slot :
  walkInvariant pre rest slot ->
  match rest with
  | b :: _ => Slot b <> slot
  | [] => True
  end ->
  walkInvariant pre rest (slot + 1)
  /\ blockOfSlot (pre ++ rest) slot = None.
Proof.
  intros (Hpre & Hsorted & Hrest) Hhead. split.
  - split; [|split; [exact Hsorted|]].
    + eapply Forall_impl; [exact Hpre|]. cbn. intros; lia.
    + destruct rest as [|b rest]; [constructor|].
      inversion Hrest as [|? ? Hb Hrest']; subst.
      inversion Hsorted as [|? ? _ Hall]; subst.
      constructor; [lia|].
      eapply Forall_impl; [exact Hall|]. cbn. intros; lia.
  - unfold blockOfSlot. rewrite find_all_false.
    + destruct rest as [|b rest]; [reflexivity|].
      inversion Hrest as [|? ? Hb Hrest']; subst.
      inversion Hsorted as [|? ? _ Hall]; subst.
      rewrite <- (app_nil_r (b :: rest)). rewrite find_all_false;
        [reflexivity|].
      constructor; [lia|].
      eapply Forall_impl; [exact Hall|]. cbn. intros; lia.
    + eapply Forall_impl; [exact Hpre|]. cbn. intros; lia.
Qed.

Lemma walkInvariant_take pre b rest slot :
  walkInvariant pre (b :: rest) slot ->
  Slot b = slot ->
  walkInvariant (pre ++ [b]) rest (slot + 1)
  /\ blockOfSlot (pre ++ b :: rest) slot = Some b.
Proof.
  intros (Hpre & Hsorted & Hrest) Hb.
  inversion Hsorted as [|? ? Hsorted' Hall]; subst. split.
  - split; [|split; [exact Hsorted'|]].
    + apply Forall_app. split.
      * eapply Forall_impl; [exact Hpre|]. cbn. intros; lia.
      * constructor; [lia | constructor].
    + eapply Forall_impl; [exact Hall|]. cbn. intros; lia.
  - unfold blockOfSlot. rewrite find_all_false.
    + cbn. now rewrite Z.eqb_refl.
    + eapply Forall_impl; [exact Hpre|]. cbn. intros; lia.
Qed.

(** The walk takes, at every slot, the block of the list at that slot. *)
Lemma slotWalk_ascending (n : nat) :
  forall pre rest slot,
    walkInvariant pre rest slot ->
    slotWalk (pre ++ rest) n slot (length pre)
    = map (fun s => (s, blockOfSlot (pre ++ rest) s)) (slotsFrom slot n).
Proof.
  induction n as [|n IH]; intros pre rest slot Hinv;
    cbn [slotWalk slotsFrom map]; [reflexivity|].
  rewrite blockAt_app. destruct rest as [|b rest].
  - destruct (walkInvariant_skip pre [] slot Hinv I) as (Hinv' & ->).
    now rewrite (IH pre [] (slot + 1) Hinv').
  - destruct (Z.eqb_spec (Slot b) slot) as [Hb|Hb].
    + destruct (walkInvariant_take pre b rest slot Hinv Hb) as (Hinv' & ->).
      specialize (IH (pre ++ [b]) rest (slot + 1) Hinv').
      rewrite length_app, Nat.add_1_r, <- app_assoc in IH. cbn in IH.
      now rewrite IH.
    + destruct (walkInvariant_skip pre (b :: rest) slot Hinv Hb)
        as (Hinv' & ->).
      now rewrite (IH pre (b :: rest) (slot + 1) Hinv').
Qed.

(** The walk takes every block of the list when they all lie in the [n]
    slots it visits. *)
Lemma takenBlocks_ascending (n : nat) :
  forall pre rest slot,
    walkInvariant pre rest slot ->
    Forall (fun b => Slot b < slot + Z.of_nat n) rest ->
    takenBlocks (slotWalk (pre ++ rest) n slot (length pre)) = rest.
Proof.
  induction n as [|n IH]; intros pre rest slot Hinv Hlt;
    cbn [slotWalk takenBlocks flat_map].
  - destruct rest as [|b rest]; [reflexivity|].
    destruct Hinv as (_ & _ & Hge).
    inversion Hge; inversion Hlt; subst. lia.
  - rewrite blockAt_app. destruct rest as [|b rest].
    + cbn [flat_map snd app].
      destruct (walkInvariant_skip pre [] slot Hinv I) as (Hinv' & _).
      apply (IH pre [] (slot + 1) Hinv'). constructor.
    + destruct (Z.eqb_spec (Slot b) slot) as [Hb|Hb].
      * destruct (walkInvariant_take pre b rest slot Hinv Hb)
          as (Hinv' & _).
        inversion Hlt as [|? ? _ Hlt']; subst.
        specialize (IH (pre ++ [b]) rest (Slot b + 1) Hinv').
        rewrite length_app, Nat.add_1_r, <- app_assoc in IH. cbn in IH.
        cbn [flat_map snd app]. unfold takenBlocks in IH. rewrite IH;
          [reflexivity|].
        eapply Forall_impl; [exact Hlt'|]. cbn. intros; lia.
      * destruct (walkInvariant_skip pre (b :: rest) slot Hinv Hb)
          as (Hinv' & _).
        cbn [flat_map snd app].
        apply (IH pre (b :: rest) (slot + 1) Hinv').
        eapply Forall_impl; [exact Hlt|]. cbn. intros; lia.
Qed.

Lemma walkInvariant_start blocks slot :
  slotsAscending blocks ->
  Forall (fun b => slot <= Slot b) blocks ->
  walkInvariant [] blocks slot.
Proof.
  intros Hsorted Hge. split; [constructor|]. split; [|exact Hge].
  apply Sorted_StronglySorted; [|exact Hsorted].
  intros a b c. cbn. lia.
Qed.
End AscendingWalk.

(** ** Missed slots *)

Lemma flat_map_slotsFrom_pick {B : Type} (g : Z -> list B) (slot : Z) (n : nat) :
  (forall s, s <> slot -> g s = []) ->
  forall start,
    flat_map g (slotsFrom start n)
    = if (start <=? slot) && (slot <? start + Z.of_nat n) then g slot else [].
Proof.
  intros Hg. induction n as [|n IH]; intros start; cbn [slotsFrom flat_map].
  - destruct (Z.leb_spec start slot), (Z.ltb_spec slot (start + Z.of_nat 0%nat));
      cbn; try reflexivity. lia.
  - rewrite IH. destruct (Z.eq_dec start slot) as [->|Hne].
    + destruct (Z.leb_spec (slot + 1) slot); [lia|].
      destruct (Z.leb_spec slot slot); [|lia].
      destruct (Z.ltb_spec slot (slot + Z.of_nat (S n))); [|lia].
      cbn. apply app_nil_r.
    + rewrite (Hg start Hne). cbn [app].
      destruct (Z.leb_spec (start + 1) slot), (Z.leb_spec start slot),
        (Z.ltb_spec slot (start + 1 + Z.of_nat n)),
        (Z.ltb_spec slot (start + Z.of_nat (S n)));
        cbn; try reflexivity; lia.
Qed.

Lemma flat_map_compose {A B C : Type} (f : A -> list B) (g : B -> list C)
    (l : list A) :
  flat_map g (flat_map f l) = flat_map (fun x => flat_map g (f x)) l.
Proof.
  induction l as [|x l IH]; cbn; [reflexivity|].
  now rewrite flat_map_app, IH.
Qed.

Lemma missedOf_closed_form epochStatsValues firstSlot blocks slots :
  missedOf epochStatsValues firstSlot
    (map (fun s => (s, blockOfSlot blocks s)) slots)
  = flat_map
      (fun s =>
         if hasBlockAt blocks s then []
         else [missedSlot s (knownProposer epochStatsValues (s - firstSlot))])
      slots.
Proof.
  unfold missedOf. induction slots as [|s slots IH]; cbn [map flat_map];
    [reflexivity|].
  rewrite IH. cbn [fst snd]. rewrite blockOfSlot_hasBlockAt.
  destruct (blockOfSlot blocks s); reflexivity.
Qed.

Lemma missingRowsAt_missed slot (missed : list dbtypes.SlotHeader.t) :
  missingRowsAt slot (map InsertMissingSlot missed)
  = flat_map
      (fun h =>
         if isMissing (dbtypes.SlotHeader.Status h)
            && (dbtypes.SlotHeader.Slot h =? slot)
         then [h] else []) missed.
Proof. unfold missingRowsAt. now apply flat_map_InsertMissingSlot. Qed.

Section MissedSlots.
Variable cs : ChainState.
Variable epoch : Z.
Variable blocks : list Block.
Variable epochStats : option EpochStats.
Hypothesis Hascending : slotsAscending blocks.
Hypothesis HinEpoch : slotsInEpoch cs epoch blocks.

Let firstSlot := EpochStartSlot cs epoch.
Let slotsPerEpoch := SlotsPerEpoch (GetSpecs cs).

Lemma slotWalk_epoch :
  slotWalk blocks (Z.to_nat slotsPerEpoch) firstSlot 0%nat
  = map (fun s => (s, blockOfSlot blocks s))
        (slotsFrom firstSlot (Z.to_nat slotsPerEpoch)).
Proof using Hascending HinEpoch.
  apply (slotWalk_ascending _ [] blocks firstSlot).
  apply walkInvariant_start; [exact Hascending|].
  eapply Forall_impl; [exact HinEpoch|]. cbn. intros b Hb.
  fold firstSlot in Hb. lia.
Qed.

Lemma takenBlocks_epoch :
  0 <= slotsPerEpoch ->
  takenBlocks (slotWalk blocks (Z.to_nat slotsPerEpoch) firstSlot 0%nat)
  = blocks.
Proof using Hascending HinEpoch.
  intros Hpos.
  apply (takenBlocks_ascending _ [] blocks firstSlot).
  - apply walkInvariant_start; [exact Hascending|].
    eapply Forall_impl; [exact HinEpoch|]. cbn. intros b Hb.
    fold firstSlot in Hb. lia.
  - eapply Forall_impl; [exact HinEpoch|]. cbn. intros b Hb.
    fold firstSlot slotsPerEpoch in Hb. lia.
Qed.

Lemma missingRowsAt_missedOf slot :
  0 <= slotsPerEpoch ->
  firstSlot <= slot < firstSlot + slotsPerEpoch ->
  missingRowsAt slot
    (map InsertMissingSlot
       (missedOf (GetValues cs epochStats) firstSlot
          (slotWalk blocks (Z.to_nat slotsPerEpoch) firstSlot 0%nat)))
  = if hasBlockAt blocks slot then []
    else [missedSlot slot
            (knownProposer (GetValues cs epochStats) (slot - firstSlot))].
Proof using Hascending HinEpoch.
  intros Hpos Hslot.
  rewrite slotWalk_epoch, missedOf_closed_form, missingRowsAt_missed.
  rewrite flat_map_compose.
  rewrite (flat_map_slotsFrom_pick _ slot).
  - destruct (Z.leb_spec firstSlot slot); [|lia].
    destruct (Z.ltb_spec slot (firstSlot + Z.of_nat (Z.to_nat slotsPerEpoch)));
      [|lia].
    cbn [andb]. destruct (hasBlockAt blocks slot); [reflexivity|].
    cbn. now rewrite Z.eqb_refl.
  - intros s Hs. destruct (hasBlockAt blocks s); [reflexivity|].
    cbn. destruct (Z.eqb_spec s slot); [contradiction | reflexivity].
Qed.
End MissedSlots.

(** ** [persistEpochData] against any database *)

Section WritesOnly.
Variable P : DbOp -> Prop.

Lemma writesOnly_ret {A : Type} (a : A) : writesOnly P (mret a).
Proof.
  intros w. exists a, [], w. split; [reflexivity|].
  split; [apply extends_refl | constructor].
Qed.

Lemma writesOnly_bind {A B : Type} (m : M A) (k : A -> M B) :
  writesOnly P m -> (forall a, writesOnly P (k a)) -> writesOnly P (m ≫= k).
Proof.
  intros Hm Hk w.
  destruct (Hm w) as (a & ops1 & w1 & Hrun1 & Hext1 & HP1).
  destruct (Hk a w1) as (b & ops2 & w2 & Hrun2 & Hext2 & HP2).
  exists b, (ops1 ++ ops2), w2. unfold mbind, M_bind. rewrite Hrun1.
  split; [exact Hrun2|]. split; [eapply extends_trans; eauto|].
  apply Forall_app. auto.
Qed.

Lemma writesOnly_dbExec what op : P op -> writesOnly P (dbExec what op).
Proof.
  intros Hop w. unfold dbExec. destruct (w_dbFail w (w_tx w) op).
  - exists (Some (DbError what)), [], w. split; [reflexivity|].
    split; [apply extends_refl | constructor].
  - exists None, [op], (addOps [op] w). split; [reflexivity|].
    split; [apply extends_addOps | repeat constructor; exact Hop].
Qed.

Lemma writesOnly_logError msg cause : writesOnly P (logError msg cause).
Proof.
  intros w. eexists tt, [], _. split; [reflexivity|].
  split; [apply extends_set_log | constructor].
Qed.

Lemma writesOnly_markInFinalizedDb block :
  writesOnly P (markInFinalizedDb block).
Proof.
  intros w. eexists tt, [], _. split; [reflexivity|].
  split; [|constructor]. unfold extends. cbn. now rewrite app_nil_r.
Qed.

(** [if len(rows) > 0 { err := insert(rows); ... }] *)
Lemma writesOnly_guarded_insert {A : Type} (mk : list A -> DbOp) what msg
    (rows : list A) :
  P (mk rows) ->
  writesOnly P
    (if (0 <? length rows)%nat then
       err ← dbExec what (mk rows);
       match err with
       | Some e => mret (Some (Errorf msg e))
       | None => mret None
       end
     else mret None).
Proof.
  intros Hop. destruct (0 <? length rows)%nat; [|apply writesOnly_ret].
  apply writesOnly_bind; [now apply writesOnly_dbExec|].
  intros [e|]; apply writesOnly_ret.
Qed.
End WritesOnly.

Lemma writesOnly_persistBlockDeposits block depositIndex orphaned
    overrideForkId :
  writesOnly isBlockOp
    (persistBlockDeposits block depositIndex orphaned overrideForkId).
Proof.
  unfold persistBlockDeposits.
  destruct (buildDbDeposits block depositIndex orphaned overrideForkId)
    as [rows di].
  destruct (0 <? length _)%nat; [|apply writesOnly_ret].
  apply writesOnly_bind; [now apply writesOnly_dbExec|].
  intros [e|]; apply writesOnly_ret.
Qed.

Lemma writesOnly_persistBlockChildObjects block depositIndex orphaned
    overrideForkId :
  writesOnly isBlockOp
    (persistBlockChildObjects block depositIndex orphaned overrideForkId).
Proof.
  unfold persistBlockChildObjects.
  apply writesOnly_bind; [apply writesOnly_persistBlockDeposits|].
  intros [[e|] di]; [apply writesOnly_ret|].
  apply writesOnly_bind; [|intros; apply writesOnly_ret].
  apply writesOnly_bind;
    [now apply writesOnly_guarded_insert|].
  intros [e|]; [apply writesOnly_ret|]. cbn [orReturn].
  apply writesOnly_bind;
    [now apply writesOnly_guarded_insert|].
  intros [e|]; [apply writesOnly_ret|]. cbn [orReturn].
  apply writesOnly_bind.
  { intros w. rewrite persistBlockConsolidations_healthy.
    exists None, [], w. split; [reflexivity|].
    split; [apply extends_refl | constructor]. }
  intros [e|]; [apply writesOnly_ret|]. cbn [orReturn].
  apply writesOnly_bind.
  { intros w. rewrite persistBlockElRequests_healthy.
    exists None, [], w. split; [reflexivity|].
    split; [apply extends_refl | constructor]. }
  intros [e|]; apply writesOnly_ret.
Qed.

Lemma buildDbBlock_row_not_missing block blockBody overrideForkId orphaned :
  isMissing
    (dbtypes.Slot.Status
       (if orphaned : bool
        then slot_with_Status dbtypes.Orphaned
               (buildDbBlock_row block blockBody overrideForkId)
        else buildDbBlock_row block blockBody overrideForkId)) = false.
Proof. destruct orphaned; reflexivity. Qed.

Lemma writesOnly_persistBlockData cs block blockBody epochStats depositIndex
    orphaned overrideForkId :
  GetBlock block = Some blockBody ->
  writesOnly isBlockOp
    (persistBlockData cs block epochStats depositIndex orphaned
       overrideForkId).
Proof.
  intros Hb.
  assert (Hrest :
    writesOnly isBlockOp
      (err ← db.InsertSlot
               (if orphaned
                then slot_with_Status dbtypes.Orphaned
                       (buildDbBlock_row block blockBody overrideForkId)
                else buildDbBlock_row block blockBody overrideForkId);
       match err with
       | Some e => mret (Some (Errorf "error inserting slot" e), depositIndex)
       | None =>
           markInFinalizedDb block;;
           persistBlockChildObjects block depositIndex orphaned overrideForkId
       end)).
  { apply writesOnly_bind.
    - apply writesOnly_dbExec. apply buildDbBlock_row_not_missing.
    - intros [e|]; [apply writesOnly_ret|].
      apply writesOnly_bind; [apply writesOnly_markInFinalizedDb|].
      intros _. apply writesOnly_persistBlockChildObjects. }
  intros w. unfold persistBlockData, buildDbBlock. rewrite Hb.
  exact (Hrest w).
Qed.

Lemma writesOnly_persistEpochData_blockFn cs epochStats block blockBody
    depositIndex :
  GetBlock block = Some blockBody ->
  writesOnly isBlockOp
    (persistEpochData_blockFn cs epochStats 0 block depositIndex).
Proof.
  intros Hb. unfold persistEpochData_blockFn.
  apply writesOnly_bind;
    [now apply (writesOnly_persistBlockData cs block blockBody)|].
  intros [[e|] di].
  - apply writesOnly_bind; [apply writesOnly_logError|].
    intros _. apply writesOnly_ret.
  - apply writesOnly_bind; [apply writesOnly_ret|].
    intros _. apply writesOnly_ret.
Qed.

(** Whatever the database does, the loop of [buildDbEpoch] answers the
    aggregation of the blocks it takes and leaves statements of blocks
    only. *)
Lemma buildDbEpoch_loop_any cs epochStats blocks (n : nat) :
  forall fuel lastSlot slot blockIdx depositIndex dbEpoch w,
    (n < fuel)%nat ->
    0 <= slot ->
    slot + Z.of_nat n < U64.modulus ->
    lastSlot = slot + Z.of_nat n - 1 ->
    exists ops w',
      buildDbEpoch_loop fuel blocks
        (Some (persistEpochData_blockFn cs epochStats 0))
        lastSlot slot blockIdx depositIndex dbEpoch w
      = Ret (epochTotals (takenBlocks (slotWalk blocks n slot blockIdx))
                         dbEpoch) w'
      /\ extends ops w w'
      /\ Forall isBlockOp ops.
Proof.
  induction n as [|n IH];
    intros fuel lastSlot slot blockIdx di e w Hfuel Hslot Hmax ->;
    (destruct fuel as [|fuel]; [lia|]); cbn [buildDbEpoch_loop slotWalk].
  - destruct (Z.leb_spec slot (slot + Z.of_nat 0 - 1)); [lia|].
    exists [], w. split; [reflexivity|].
    split; [apply extends_refl | constructor].
  - destruct (Z.leb_spec slot (slot + Z.of_nat (S n) - 1)); [|lia].
    rewrite (u64_small (slot + 1)) by lia.
    assert (Hlast : slot + Z.of_nat (S n) - 1 = slot + 1 + Z.of_nat n - 1)
      by lia.
    destruct (blockAt blocks blockIdx slot) as [b|];
      cbn [takenBlocks flat_map snd app epochTotals].
    + fold (takenBlocks (slotWalk blocks n (slot + 1) (S blockIdx))).
      destruct (GetBlock b) as [body|] eqn:Hb.
      * destruct (writesOnly_persistEpochData_blockFn cs epochStats b body di
                    Hb w) as (di' & ops1 & w1 & Hfn & Hext1 & HP1).
        unfold mbind at 1. unfold M_bind at 1. rewrite Hfn.
        destruct (IH fuel (slot + Z.of_nat (S n) - 1) (slot + 1)
                    (S blockIdx) di'
                    (epoch_addBody body (epoch_incBlockCount e)) w1)
          as (ops2 & w2 & Hloop & Hext2 & HP2); [lia | lia | lia | exact Hlast |].
        exists (ops1 ++ ops2), w2. split; [exact Hloop|].
        split; [eapply extends_trans; eauto | apply Forall_app; auto].
      * unfold mbind at 1. unfold M_bind at 1.
        unfold logError, modifyWorld.
        destruct (IH fuel (slot + Z.of_nat (S n) - 1) (slot + 1)
                    (S blockIdx) di (epoch_incBlockCount e)
                    (set_log
                       (w_log w ++
                        [LogError
                           "error while building db epoch: block body not found for aggregation"
                           None]) w))
          as (ops2 & w2 & Hloop & Hext2 & HP2); [lia | lia | lia | exact Hlast |].
        exists ops2, w2. split; [exact Hloop|]. split; [|exact HP2].
        exact (extends_trans [] _ _ _ _ (extends_set_log _ w) Hext2).
    + fold (takenBlocks (slotWalk blocks n (slot + 1) blockIdx)).
      apply IH; auto; lia.
Qed.

(** Whatever the database does, [persistMissedSlots] answers; when it
    answers no error it has written the rows of all the slots the walk
    misses. *)
Lemma persistMissedSlots_loop_any blocks epochStatsValues firstSlot (n : nat) :
  forall fuel lastSlot slot blockIdx w,
    (n < fuel)%nat ->
    0 <= firstSlot <= slot ->
    slot + Z.of_nat n < U64.modulus ->
    lastSlot = slot + Z.of_nat n ->
    lastSlot - firstSlot <= MaxInt64 ->
    match epochStatsValues with
    | Some v => lastSlot - firstSlot <= Z.of_nat (length (ProposerDuties v))
    | None => True
    end ->
    exists err w',
      persistMissedSlots_loop fuel blocks epochStatsValues firstSlot lastSlot
        slot blockIdx w = Ret err w'
      /\ (err = None ->
          extends
            (map InsertMissingSlot
               (missedOf epochStatsValues firstSlot
                  (slotWalk blocks n slot blockIdx))) w w').
Proof.
  induction n as [|n IH];
    intros fuel lastSlot slot blockIdx w Hfuel Hslot Hmax -> Hint Hduty;
    (destruct fuel as [|fuel]; [lia|]);
    cbn [persistMissedSlots_loop slotWalk].
  - destruct (Z.ltb_spec slot (slot + Z.of_nat 0)); [lia|].
    exists None, w. split; [reflexivity|]. intros _. apply extends_refl.
  - destruct (Z.ltb_spec slot (slot + Z.of_nat (S n))); [|lia].
    rewrite (u64_small (slot + 1)) by lia.
    assert (Hlast : slot + Z.of_nat (S n) = slot + 1 + Z.of_nat n) by lia.
    destruct (blockAt blocks blockIdx slot) as [b|];
      cbn [missedOf flat_map snd fst app map].
    + fold (missedOf epochStatsValues firstSlot
              (slotWalk blocks n (slot + 1) (S blockIdx))).
      apply IH; auto; lia.
    + fold (missedOf epochStatsValues firstSlot
              (slotWalk blocks n (slot + 1) blockIdx)).
      assert (Hproposer :
        match epochStatsValues with
        | None => mret MaxInt64
        | Some v =>
            match index_at (ProposerDuties v)
                           (to_int (u64 (slot - firstSlot))) with
            | Some p => mret p
            | None => panic IndexOutOfRange
            end
        end w
        = Ret (knownProposer epochStatsValues (slot - firstSlot)) w).
      { unfold knownProposer. destruct epochStatsValues as [v|];
          [|reflexivity].
        rewrite (u64_small (slot - firstSlot)) by lia.
        unfold to_int, MaxInt64, U64.modulus in *.
        destruct (Z.ltb_spec (slot - firstSlot) (2 ^ 63)); [|lia].
        unfold index_at.
        destruct (Z.ltb_spec (slot - firstSlot) 0); [lia|].
        rewrite (nth_error_nth' _ 0) by lia. reflexivity. }
      unfold mbind at 1. unfold M_bind at 1. rewrite Hproposer.
      unfold mbind at 1. unfold M_bind at 1.
      unfold db.InsertMissingSlot.
      destruct (dbExec _ _ w) as [e w1| |] eqn:Hexec;
        [|unfold dbExec in Hexec; destruct (w_dbFail _ _ _); discriminate..].
      apply dbExec_cases in Hexec as [[-> ->]|[-> ->]].
      * destruct (IH fuel (slot + Z.of_nat (S n)) (slot + 1) blockIdx
                    (set_tx (w_tx w ++
                             [InsertMissingSlot
                                (missedSlot slot
                                   (knownProposer epochStatsValues
                                      (slot - firstSlot)))]) w))
          as (err & w' & Hloop & Hext); [lia | lia | lia | lia | lia | auto |].
        exists err, w'. split; [exact Hloop|]. intros Herr.
        exact (extends_trans [_] _ _ _ _ (extends_addOps _ w) (Hext Herr)).
      * eexists _, _. split; [reflexivity|]. intros [=].
Qed.

Lemma persistEpochData_in_any cs epoch blocks epochStats epochVotes w :
  epochInRange cs epoch ->
  dutiesCover cs epochStats ->
  let epochStatsValues := GetValues cs epochStats in
  let firstSlot := EpochStartSlot cs epoch in
  let walk :=
    slotWalk blocks (Z.to_nat (SlotsPerEpoch (GetSpecs cs))) firstSlot 0%nat in
  exists err w',
    persistEpochData_in cs epoch blocks epochStats epochVotes w = Ret err w'
    /\ (err = None ->
        exists blockOps,
          Forall isBlockOp blockOps
          /\ extends
               (blockOps
                ++ map InsertMissingSlot
                     (missedOf epochStatsValues firstSlot walk)
                ++ [InsertEpoch
                      (epochTotals (takenBlocks walk)
                         (newDbEpoch epoch epochVotes epochStatsValues))])
               w w').
Proof.
  intros Hrange Hduties vals firstSlot walk.
  destruct (EpochStartSlot_inRange cs epoch Hrange) as (Hfirst & Hfirst0).
  destruct Hrange as ((Hpos & Hint) & Hepoch & Hmax).
  rewrite <- Hfirst in Hmax. fold firstSlot in Hmax, Hfirst0.
  set (spe := SlotsPerEpoch (GetSpecs cs)) in *.
  assert (Hvals :
    match epochStats with
    | Some _ => GetValues cs epochStats
    | None => None
    end = vals) by (destruct epochStats; reflexivity).
  unfold persistEpochData_in, buildDbEpoch. rewrite Hvals.
  fold spe firstSlot.
  rewrite (u64_small (firstSlot + spe - 1)) by lia.
  destruct (buildDbEpoch_loop_any cs epochStats blocks (Z.to_nat spe)
              (S (Z.to_nat spe)) (firstSlot + spe - 1) firstSlot 0%nat
              (FirstDepositIndex <$> vals)
              (newDbEpoch epoch epochVotes vals) w)
    as (ops1 & w1 & Hloop & Hext1 & HP1); [lia | lia | lia | lia |].
  unfold mbind at 1. unfold M_bind at 1.
  change (match vals with
          | Some v => Some (FirstDepositIndex v)
          | None => None
          end) with (FirstDepositIndex <$> vals).
  rewrite Hloop.
  unfold mbind at 1. unfold M_bind at 1.
  unfold persistMissedSlots. fold spe firstSlot vals.
  rewrite (u64_small (firstSlot + spe)) by lia.
  destruct (persistMissedSlots_loop_any blocks vals firstSlot (Z.to_nat spe)
              (S (Z.to_nat spe)) (firstSlot + spe) firstSlot 0%nat w1)
    as (err & w2 & Hmissed & Hext2).
  - lia.
  - lia.
  - lia.
  - lia.
  - unfold MaxInt64 in *. lia.
  - unfold dutiesCover in Hduties. fold spe vals in Hduties.
    destruct vals; [lia | exact I].
  - rewrite Hmissed. destruct err as [e|]; cbn [orReturn].
    + eexists _, _. split; [reflexivity|]. intros [=].
    + specialize (Hext2 eq_refl).
      unfold mbind at 1. unfold M_bind at 1. unfold db.InsertEpoch.
      destruct (dbExec _ _ w2) as [e w3| |] eqn:Hexec;
        [|unfold dbExec in Hexec; destruct (w_dbFail _ _ _); discriminate..].
      apply dbExec_cases in Hexec as [[-> ->]|[-> ->]].
      * eexists _, _. split; [reflexivity|]. intros _.
        exists ops1. split; [exact HP1|]. fold walk.
        eapply extends_trans; [exact Hext1|].
        eapply extends_trans; [exact Hext2|]. apply extends_addOps.
      * eexists _, _. split; [reflexivity|]. intros [=].
Qed.

(** The statements of a run of [persistEpochData] that answers no error:
    statements of blocks, then the rows of the missed slots, then the epoch
    row. *)
Lemma persistEpochData_any tx cs epoch blocks epochStats epochVotes w :
  epochInRange cs epoch ->
  dutiesCover cs epochStats ->
  let epochStatsValues := GetValues cs epochStats in
  let firstSlot := EpochStartSlot cs epoch in
  let walk :=
    slotWalk blocks (Z.to_nat (SlotsPerEpoch (GetSpecs cs))) firstSlot 0%nat in
  exists err w',
    persistEpochData tx cs epoch blocks epochStats epochVotes w = Ret err w'
    /\ (dbHealthy w -> err = None)
    /\ (err = None ->
        exists blockOps,
          Forall isBlockOp blockOps
          /\ persistedOps tx w w'
             = blockOps
               ++ map InsertMissingSlot
                    (missedOf epochStatsValues firstSlot walk)
               ++ [InsertEpoch
                     (epochTotals (takenBlocks walk)
                        (newDbEpoch epoch epochVotes epochStatsValues))]).
Proof.
  intros Hrange Hduties vals firstSlot walk.
  destruct tx as [tx|]; cbn [persistEpochData].
  - destruct (persistEpochData_in_any cs epoch blocks epochStats epochVotes w
                Hrange Hduties) as (err & w' & Hrun & Hops).
    exists err, w'. split; [exact Hrun|]. split.
    + intros H.
      destruct (persistEpochData_in_healthy cs epoch blocks epochStats
                  epochVotes w H Hrange Hduties) as (w'' & Hrun' & _).
      congruence.
    + intros Herr. destruct (Hops Herr) as (blockOps & HP & Hext).
      exists blockOps. split; [exact HP|]. cbn [persistedOps].
      now apply extends_newTxOps.
  - destruct (persistEpochData_in_any cs epoch blocks epochStats epochVotes
                (set_tx [] w) Hrange Hduties) as (err & w' & Hrun & Hops).
    unfold db.RunDBTransaction. rewrite Hrun. destruct err as [e|].
    + eexists _, _. split; [reflexivity|]. split; [|intros [=]].
      intros H.
      destruct (persistEpochData_in_healthy cs epoch blocks epochStats
                  epochVotes (set_tx [] w) (dbHealthy_set_tx _ _ H) Hrange
                  Hduties) as (w'' & Hrun' & _).
      congruence.
    + eexists _, _. split; [reflexivity|]. split; [reflexivity|].
      intros _. destruct (Hops eq_refl) as (blockOps & HP & Htx & _ & Hc).
      exists blockOps. split; [exact HP|].
      cbn [persistedOps w_committed set_tx set_committed].
      rewrite Hc, Htx. cbn [w_committed set_tx w_tx app].
      apply drop_app_length.
Qed.

(** Statements of blocks hold no row of a missed slot and no epoch row. *)
Lemma blockOps_rows ops :
  Forall isBlockOp ops ->
  (forall slot, missingRowsAt slot ops = [])
  /\ missedSlotRowsOf ops = []
  /\ epochRowsOf ops = []
  /\ List.filter (fun r => isMissing (dbtypes.Slot.Status r)) (slotRowsOf ops)
     = [].
Proof.
  induction 1 as [|op ops Hop _ (IH1 & IH2 & IH3 & IH4)];
    [repeat split; reflexivity|].
  unfold missingRowsAt, missedSlotRowsOf, epochRowsOf, slotRowsOf in *.
  cbn [flat_map]. repeat split.
  - intros slot. rewrite IH1. destruct op; cbn in Hop |- *; try reflexivity;
      try contradiction. now rewrite Hop.
  - rewrite IH2. destruct op; cbn in Hop |- *; try reflexivity;
      contradiction.
  - rewrite IH3. destruct op; cbn in Hop |- *; try reflexivity;
      contradiction.
  - destruct op; cbn in Hop |- *; try exact IH4; try contradiction.
    now rewrite Hop.
Qed.

(** *** The worked epoch *)

Lemma sample_world_healthy : dbHealthy Sample.world.
Proof. intros tx op. reflexivity. Qed.

Lemma sample_epoch_inRange : epochInRange Sample.chain 1.
Proof. unfold epochInRange, MaxInt64, U64.modulus. cbn. lia. Qed.

Lemma sample_blocks_ascending :
  slotsAscending [Sample.blockAtSlot 4; Sample.blockAtSlot 6].
Proof. repeat constructor. Qed.

Lemma sample_blocks_inEpoch :
  slotsInEpoch Sample.chain 1 [Sample.blockAtSlot 4; Sample.blockAtSlot 6].
Proof.
  unfold slotsInEpoch.
  constructor; [vm_compute; split; [discriminate | reflexivity]|].
  constructor; [vm_compute; split; [discriminate | reflexivity]|].
  constructor.
Qed.

Lemma sample_duties_cover : dutiesCover Sample.chain (Some (Sample.stats 1)).
Proof. unfold dutiesCover. cbn. lia. Qed.

(** C1, as amended.  A run of [persistEpochData] on a block list that is
    strictly ascending by slot and lies in the epoch answers, and answers no
    error when the database answers none.  Whenever it answers no error,
    every slot of the epoch without a block in the list has exactly one slot
    row with status Missing, whose proposer is the proposer duty of that
    slot index when the values of the epoch stats are available and
    [MaxInt64] when they are not, and a slot with a block in the list has no
    row with status Missing. *)
Theorem missing_slot_rows tx cs epoch blocks epochStats epochVotes w :
  epochInRange cs epoch ->
  slotsAscending blocks ->
  slotsInEpoch cs epoch blocks ->
  dutiesCover cs epochStats ->
  exists err w',
    persistEpochData tx cs epoch blocks epochStats epochVotes w = Ret err w'
    /\ (dbHealthy w -> err = None)
    /\ (err = None ->
        forall slot,
          EpochStartSlot cs epoch <= slot
            < EpochStartSlot cs epoch + SlotsPerEpoch (GetSpecs cs) ->
          missingRowsAt slot (persistedOps tx w w')
          = if hasBlockAt blocks slot then []
            else [missedSlot slot
                    (knownProposer (GetValues cs epochStats)
                       (slot - EpochStartSlot cs epoch))]).
Proof.
  intros Hrange Hasc Hin Hduties.
  destruct (persistEpochData_any tx cs epoch blocks epochStats epochVotes w
              Hrange Hduties) as (err & w' & Hrun & Hhealthy & Hops).
  exists err, w'. split; [exact Hrun|]. split; [exact Hhealthy|].
  intros Herr slot Hslot.
  destruct (Hops Herr) as (blockOps & HP & ->).
  destruct (blockOps_rows blockOps HP) as (Hnone & _).
  rewrite !missingRowsAt_app, Hnone.
  rewrite (missingRowsAt_missedOf cs epoch blocks epochStats Hasc Hin)
    by (destruct Hrange as ((? & _) & _); lia).
  cbn [app missingRowsAt flat_map]. apply app_nil_r.
Qed.

Lemma missing_slot_rows_witness :
  exists err w',
    persistEpochData (Some OpenTx) Sample.chain 1
      [Sample.blockAtSlot 4; Sample.blockAtSlot 6]
      (Some (Sample.stats 1)) None Sample.world = Ret err w'
    /\ (dbHealthy Sample.world -> err = None)
    /\ (err = None ->
        forall slot,
          4 <= slot < 8 ->
          missingRowsAt slot (persistedOps (Some OpenTx) Sample.world w')
          = if hasBlockAt [Sample.blockAtSlot 4; Sample.blockAtSlot 6] slot
            then []
            else [missedSlot slot
                    (knownProposer (Some Sample.statsValues) (slot - 4))]).
Proof.
  exact (missing_slot_rows (Some OpenTx) Sample.chain 1
           [Sample.blockAtSlot 4; Sample.blockAtSlot 6]
           (Some (Sample.stats 1)) None Sample.world
           sample_epoch_inRange sample_blocks_ascending
           sample_blocks_inEpoch sample_duties_cover).
Defined.

(** C1 as it is stated fails for an epoch whose stats have no values: the
    row of the missed slot 4 gets the proposer [MaxInt64], and there is no
    proposer duty it could be equal to. *)
Lemma missing_slot_proposer_counterexample :
  let epochStats := Some (Sample.statsWithoutValues 1) in
  exists w',
    persistEpochData (Some OpenTx) Sample.chain 1 [] epochStats None
      Sample.world = Ret None w'
    /\ missingRowsAt 4 (persistedOps (Some OpenTx) Sample.world w')
       = [missedSlot 4 MaxInt64]
    /\ ~ (exists v duty,
            GetValues Sample.chain epochStats = Some v
            /\ index_at (ProposerDuties v) 0 = Some duty
            /\ missingRowsAt 4 (persistedOps (Some OpenTx) Sample.world w')
               = [missedSlot 4 duty]).
Proof.
  intros epochStats. eexists. split; [vm_compute; reflexivity|].
  split; [vm_compute; reflexivity|].
  intros (v & duty & Hv & _). discriminate Hv.
Qed.

(** ** Block count and missed slots *)

Lemma length_slotWalk blocks n :
  forall slot blockIdx, length (slotWalk blocks n slot blockIdx) = n.
Proof.
  induction n as [|n IH]; intros slot blockIdx; cbn [slotWalk];
    [reflexivity|].
  destruct (blockAt blocks blockIdx slot); cbn [length]; now rewrite IH.
Qed.

Lemma length_taken_missed epochStatsValues firstSlot walk :
  (length (takenBlocks walk)
   + length (missedOf epochStatsValues firstSlot walk))%nat
  = length walk.
Proof.
  unfold takenBlocks, missedOf.
  induction walk as [|[s [b|]] walk IH]; cbn [flat_map snd fst app length];
    lia.
Qed.

Lemma missedOf_all_missing epochStatsValues firstSlot walk :
  List.filter (fun h => isMissing (dbtypes.SlotHeader.Status h))
              (missedOf epochStatsValues firstSlot walk)
  = missedOf epochStatsValues firstSlot walk.
Proof.
  unfold missedOf.
  induction walk as [|[s [b|]] walk IH]; cbn [flat_map snd fst app];
    [reflexivity | exact IH |].
  cbn [List.filter missedSlot dbtypes.SlotHeader.Status isMissing].
  now rewrite IH.
Qed.

Lemma BlockCount_epoch_addBody body e :
  dbtypes.Epoch.BlockCount (epoch_addBody body e) = dbtypes.Epoch.BlockCount e.
Proof. reflexivity. Qed.

Lemma epochTotals_BlockCount taken :
  forall e,
    0 <= dbtypes.Epoch.BlockCount e ->
    dbtypes.Epoch.BlockCount e + Z.of_nat (length taken) < U64.modulus ->
    dbtypes.Epoch.BlockCount (epochTotals taken e)
    = dbtypes.Epoch.BlockCount e + Z.of_nat (length taken).
Proof.
  induction taken as [|b rest IH]; intros e H0 Hmax;
    cbn [epochTotals length]; [cbn; lia|].
  assert (Hinc : dbtypes.Epoch.BlockCount (epoch_incBlockCount e)
                 = dbtypes.Epoch.BlockCount e + 1).
  { cbn. apply u64_small. cbn [length] in Hmax. lia. }
  cbn [length] in Hmax.
  destruct (GetBlock b) as [body|]; rewrite IH;
    rewrite ?BlockCount_epoch_addBody, ?Hinc; lia.
Qed.

(** C2.  A run of [persistEpochData] on a block list that is strictly
    ascending by slot and lies in the epoch answers, and answers no error
    when the database answers none.  Whenever it answers no error, the block
    count of the epoch row it wrote, which is the number of blocks of the
    list, and the number of slot rows with status Missing add up to the
    number of slots of an epoch. *)
Theorem block_count_plus_missing tx cs epoch blocks epochStats epochVotes w :
  epochInRange cs epoch ->
  slotsAscending blocks ->
  slotsInEpoch cs epoch blocks ->
  dutiesCover cs epochStats ->
  exists err w',
    persistEpochData tx cs epoch blocks epochStats epochVotes w = Ret err w'
    /\ (dbHealthy w -> err = None)
    /\ (err = None ->
        exists dbEpoch,
          epochRowsOf (persistedOps tx w w') = [dbEpoch]
          /\ dbtypes.Epoch.BlockCount dbEpoch = Z.of_nat (length blocks)
          /\ dbtypes.Epoch.BlockCount dbEpoch
             + Z.of_nat (missingCount (persistedOps tx w w'))
             = SlotsPerEpoch (GetSpecs cs)).
Proof.
  intros Hrange Hasc Hin Hduties.
  destruct (persistEpochData_any tx cs epoch blocks epochStats epochVotes w
              Hrange Hduties) as (err & w' & Hrun & Hhealthy & Hops).
  exists err, w'. split; [exact Hrun|]. split; [exact Hhealthy|].
  intros Herr. destruct (Hops Herr) as (blockOps & HP & ->).
  destruct (blockOps_rows blockOps HP) as (_ & Hmissed & Hepoch & Hslots).
  destruct Hrange as ((Hpos & Hint) & Hepoch0 & Hmax).
  set (walk := slotWalk blocks (Z.to_nat (SlotsPerEpoch (GetSpecs cs)))
                 (EpochStartSlot cs epoch) 0%nat).
  assert (Hlen := length_taken_missed (GetValues cs epochStats)
                    (EpochStartSlot cs epoch) walk).
  unfold walk in Hlen at 3. rewrite length_slotWalk in Hlen.
  assert (Hcount :
    dbtypes.Epoch.BlockCount
      (epochTotals (takenBlocks walk)
         (newDbEpoch epoch epochVotes (GetValues cs epochStats)))
    = Z.of_nat (length (takenBlocks walk))).
  { rewrite epochTotals_BlockCount; cbn; unfold U64.modulus in *; lia. }
  eexists. split.
  { rewrite !epochRowsOf_app, Hepoch. unfold epochRowsOf at 1.
    rewrite (flat_map_InsertMissingSlot _ (fun _ => [])) by reflexivity.
    rewrite flat_map_nil. reflexivity. }
  fold walk. split.
  - rewrite Hcount. unfold walk.
    rewrite (takenBlocks_epoch cs epoch blocks Hasc Hin) by lia. reflexivity.
  - unfold missingCount.
    rewrite !slotRowsOf_app, !missedSlotRowsOf_app, Hmissed.
    unfold slotRowsOf at 2 3, missedSlotRowsOf at 1 2.
    rewrite (flat_map_InsertMissingSlot _ (fun _ => [])) by reflexivity.
    rewrite (flat_map_InsertMissingSlot _ (fun h => [h])) by reflexivity.
    rewrite flat_map_nil, flat_map_singleton. cbn [flat_map app].
    rewrite !app_nil_r, Hslots, missedOf_all_missing, Hcount.
    cbn [length]. lia.
Qed.

Lemma block_count_plus_missing_witness :
  exists err w',
    persistEpochData (Some OpenTx) Sample.chain 1
      [Sample.blockAtSlot 4; Sample.blockAtSlot 6]
      (Some (Sample.stats 1)) None Sample.world = Ret err w'
    /\ (dbHealthy Sample.world -> err = None)
    /\ (err = None ->
        exists dbEpoch,
          epochRowsOf (persistedOps (Some OpenTx) Sample.world w') = [dbEpoch]
          /\ dbtypes.Epoch.BlockCount dbEpoch = 2
          /\ dbtypes.Epoch.BlockCount dbEpoch
             + Z.of_nat
                 (missingCount (persistedOps (Some OpenTx) Sample.world w'))
             = 4).
Proof.
  exact (block_count_plus_missing (Some OpenTx) Sample.chain 1
           [Sample.blockAtSlot 4; Sample.blockAtSlot 6]
           (Some (Sample.stats 1)) None Sample.world
           sample_epoch_inRange sample_blocks_ascending
           sample_blocks_inEpoch sample_duties_cover).
Defined.

(** ** Attestation counts *)

Lemma sumZ_cons x l : sumZ (x :: l) = x + sumZ l.
Proof. reflexivity. Qed.

Lemma epochTotals_AttestationCount taken :
  forall e,
    0 <= dbtypes.Epoch.AttestationCount e < U64.modulus ->
    dbtypes.Epoch.AttestationCount (epochTotals taken e)
    = u64 (dbtypes.Epoch.AttestationCount e
           + sumZ (map (fun p => Z.of_nat (length (Attestations (snd p))))
                       (withBody taken))).
Proof.
  induction taken as [|b rest IH]; intros e He; cbn [epochTotals withBody].
  - cbn. rewrite Z.add_0_r. symmetry. now apply u64_small.
  - destruct (GetBlock b) as [body|].
    + rewrite IH.
      * cbn [map snd]. rewrite sumZ_cons.
        cbn [dbtypes.Epoch.AttestationCount epoch_addBody
               epoch_incBlockCount].
        unfold u64. rewrite Zplus_mod_idemp_l. f_equal. lia.
      * cbn. unfold u64, U64.modulus. apply Z.mod_pos_bound. lia.
    + rewrite IH; [reflexivity | exact He].
Qed.

Lemma AttestationCount_built_rows (l : list (Block * BlockBody)) forkId :
  map dbtypes.Slot.AttestationCount
      (map (fun p => buildDbBlock_row (fst p) (snd p) forkId) l)
  = map (fun p => Z.of_nat (length (Attestations (snd p)))) l.
Proof. rewrite map_map. reflexivity. Qed.

Lemma built_rows_canonical (l : list (Block * BlockBody)) forkId :
  Forall (fun r => dbtypes.Slot.Status r = dbtypes.Canonical)
         (map (fun p => buildDbBlock_row (fst p) (snd p) forkId) l).
Proof. induction l as [|p l IH]; cbn; constructor; auto. Qed.

(** C3, as amended.  The attestation count of the epoch row is the sum, in
    [uint64] arithmetic, of the attestation counts of the slot rows
    [persistEpochData] writes for the epoch; these are the rows of its
    canonical blocks, all with status Canonical. *)
Theorem epoch_attestation_count_is_canonical_sum
    tx cs epoch blocks epochStats epochVotes w :
  dbHealthy w ->
  epochInRange cs epoch ->
  dutiesCover cs epochStats ->
  exists w' dbEpoch,
    persistEpochData tx cs epoch blocks epochStats epochVotes w = Ret None w'
    /\ epochRowsOf (persistedOps tx w w') = [dbEpoch]
    /\ Forall (fun r => dbtypes.Slot.Status r = dbtypes.Canonical)
              (slotRowsOf (persistedOps tx w w'))
    /\ dbtypes.Epoch.AttestationCount dbEpoch
       = u64 (sumZ (map dbtypes.Slot.AttestationCount
                        (slotRowsOf (persistedOps tx w w')))).
Proof.
  intros H Hrange Hduties.
  destruct (persistEpochData_healthy tx cs epoch blocks epochStats epochVotes
              w H Hrange Hduties) as (w' & Hrun & Hops).
  eexists w', _. split; [exact Hrun|]. rewrite Hops.
  split; [apply epochRowsOf_epochStatements|].
  rewrite slotRowsOf_epochStatements. split; [apply built_rows_canonical|].
  rewrite epochTotals_AttestationCount, AttestationCount_built_rows.
  - reflexivity.
  - cbn. unfold U64.modulus. lia.
Qed.

Lemma epoch_attestation_count_witness :
  exists w' dbEpoch,
    persistEpochData (Some OpenTx) Sample.chain 1
      [Sample.blockAtSlot 4; Sample.blockAtSlot 6]
      (Some (Sample.stats 1)) None Sample.world = Ret None w'
    /\ epochRowsOf (persistedOps (Some OpenTx) Sample.world w') = [dbEpoch]
    /\ Forall (fun r => dbtypes.Slot.Status r = dbtypes.Canonical)
              (slotRowsOf (persistedOps (Some OpenTx) Sample.world w'))
    /\ dbtypes.Epoch.AttestationCount dbEpoch
       = u64 (sumZ (map dbtypes.Slot.AttestationCount
                        (slotRowsOf
                           (persistedOps (Some OpenTx) Sample.world w')))).
Proof.
  exact (epoch_attestation_count_is_canonical_sum (Some OpenTx) Sample.chain 1
           [Sample.blockAtSlot 4; Sample.blockAtSlot 6]
           (Some (Sample.stats 1)) None Sample.world
           sample_world_healthy sample_epoch_inRange sample_duties_cover).
Defined.

(** C3 as it is stated fails as soon as an orphaned block of the epoch is
    persisted: its slot row counts one attestation that the epoch row does
    not. *)
Lemma epoch_attestation_count_counterexample :
  exists w' dbEpoch,
    (persistEpochData (Some OpenTx) Sample.chain 1
       [Sample.blockAtSlot 4; Sample.blockAtSlot 6]
       (Some (Sample.stats 1)) None;;
     persistBlockData Sample.chain (Sample.blockAtSlot 5)
       (Some (Sample.stats 1)) None true None) Sample.world
    = Ret (None, None) w'
    /\ epochRowsOf (newTxOps Sample.world w') = [dbEpoch]
    /\ map dbtypes.Slot.Status (slotRowsOf (newTxOps Sample.world w'))
       = [dbtypes.Canonical; dbtypes.Canonical; dbtypes.Orphaned]
    /\ sumZ (map dbtypes.Slot.AttestationCount
                 (slotRowsOf (newTxOps Sample.world w'))) = 3
    /\ dbtypes.Epoch.AttestationCount dbEpoch = 2.
Proof.
  eexists _, _. split; [vm_compute; reflexivity|].
  repeat split; vm_compute; reflexivity.
Qed.

(** ** Deposit indices *)

Lemma indicesFrom_cons d n : indicesFrom d (S n) = d :: indicesFrom (d + 1) n.
Proof.
  unfold indicesFrom. cbn [seq map]. rewrite Z.add_0_r. f_equal.
  rewrite <- seq_shift, map_map. apply map_ext. intros k. lia.
Qed.

Lemma indicesFrom_app d a b :
  indicesFrom d (a + b) = indicesFrom d a ++ indicesFrom (d + Z.of_nat a) b.
Proof.
  revert d. induction a as [|a IH]; intros d.
  - cbn. now rewrite Z.add_0_r.
  - cbn [Nat.add]. rewrite !indicesFrom_cons, IH. cbn [app].
    do 3 f_equal. lia.
Qed.

Lemma indicesFrom_lower d n : Forall (fun i => d <= i) (indicesFrom d n).
Proof.
  unfold indicesFrom. apply List.Forall_forall. intros i Hi.
  apply in_map_iff in Hi as (k & <- & _). lia.
Qed.

Lemma indicesFrom_increasing d n : StronglySorted Z.lt (indicesFrom d n).
Proof.
  revert d. induction n as [|n IH]; intros d; [constructor|].
  rewrite indicesFrom_cons. constructor; [apply IH|].
  eapply Forall_impl; [apply (indicesFrom_lower (d + 1) n)|].
  cbn. intros; lia.
Qed.

Section DepositRows.
Variable block : Block.
Variable orphaned : bool.
Variable overrideForkId : option Z.

(** The loop numbers the rows consecutively from the content of
    [*depositIndex] and leaves it advanced by one per deposit. *)
Lemma buildDbDeposits_loop_indices deposits :
  forall idx d,
    0 <= d ->
    d + Z.of_nat (length deposits) < U64.modulus ->
    let r := buildDbDeposits_loop block orphaned overrideForkId deposits idx
               (Some d) in
    map dbtypes.Deposit.Index (fst r)
    = map Some (indicesFrom d (length deposits))
    /\ map dbtypes.Deposit.SlotNumber (fst r)
       = repeat (Slot block) (length deposits)
    /\ snd r = Some (d + Z.of_nat (length deposits)).
Proof.
  induction deposits as [|deposit rest IH]; intros idx d Hd Hmax;
    cbn [buildDbDeposits_loop length].
  - cbn. rewrite Z.add_0_r. auto.
  - cbn [length] in Hmax. rewrite (u64_small (d + 1)) by lia.
    specialize (IH (S idx) (d + 1) ltac:(lia) ltac:(lia)).
    destruct (buildDbDeposits_loop block orphaned overrideForkId rest (S idx)
                (Some (d + 1))) as [rows di].
    cbn [fst snd] in *. destruct IH as (Hidx & Hslot & Hdi).
    cbn [map dbtypes.Deposit.Index dbtypes.Deposit.SlotNumber repeat].
    rewrite indicesFrom_cons, Hidx, Hslot, Hdi. cbn [map].
    repeat split. f_equal. lia.
Qed.

Lemma buildDbDeposits_indices d :
  0 <= d ->
  d + Z.of_nat (depositCount block) < U64.modulus ->
  let r := buildDbDeposits block (Some d) orphaned overrideForkId in
  map dbtypes.Deposit.Index (fst r)
  = map Some (indicesFrom d (depositCount block))
  /\ map dbtypes.Deposit.SlotNumber (fst r)
     = repeat (Slot block) (depositCount block)
  /\ snd r = Some (d + Z.of_nat (depositCount block)).
Proof.
  unfold buildDbDeposits, depositCount.
  destruct (GetBlock block) as [body|];
    [|cbn; intros; rewrite Z.add_0_r; auto].
  destruct (Deposits body) as [deposits|];
    [|cbn; intros; rewrite Z.add_0_r; auto].
  cbn [dropErr]. apply buildDbDeposits_loop_indices.
Qed.
End DepositRows.

Lemma depositRowsOf_epochOps taken :
  forall d,
    0 <= d ->
    d + Z.of_nat (totalDeposits taken) < U64.modulus ->
    map dbtypes.Deposit.Index (depositRowsOf (epochOps taken (Some d)))
    = map Some (indicesFrom d (totalDeposits taken))
    /\ map dbtypes.Deposit.SlotNumber
           (depositRowsOf (epochOps taken (Some d)))
       = flat_map (fun b => repeat (Slot b) (depositCount b)) taken.
Proof.
  induction taken as [|b rest IH]; intros d Hd Hmax;
    cbn [epochOps flat_map]; [split; reflexivity|].
  change (totalDeposits (b :: rest))
    with (depositCount b + totalDeposits rest)%nat in *.
  destruct (buildDbDeposits_indices b false (Some 0) d Hd ltac:(lia))
    as (Hidx & Hslot & Hdi).
  destruct (GetBlock b) as [body|] eqn:Hb.
  - rewrite depositRowsOf_app, depositRowsOf_block, !map_app, Hidx, Hslot, Hdi.
    destruct (IH (d + Z.of_nat (depositCount b)) ltac:(lia) ltac:(lia))
      as (Hidx' & Hslot').
    rewrite Hidx', Hslot', indicesFrom_app, map_app. auto.
  - assert (Hzero : depositCount b = 0%nat)
      by (unfold depositCount; now rewrite Hb).
    rewrite Hzero in *. cbn [Nat.add repeat app].
    apply IH; [exact Hd | lia].
Qed.

Lemma depositRowsOf_epochStatements cs epoch blocks epochStats epochVotes :
  depositRowsOf (epochStatements cs epoch blocks epochStats epochVotes)
  = depositRowsOf
      (epochOps
         (takenBlocks
            (slotWalk blocks (Z.to_nat (SlotsPerEpoch (GetSpecs cs)))
               (EpochStartSlot cs epoch) 0%nat))
         (FirstDepositIndex <$> GetValues cs epochStats)).
Proof.
  unfold epochStatements. rewrite !depositRowsOf_app.
  unfold depositRowsOf at 2 3.
  rewrite (flat_map_InsertMissingSlot _ (fun _ => [])) by reflexivity.
  rewrite flat_map_nil. cbn. now rewrite app_nil_r.
Qed.

(** C5.  When an epoch whose stats values are available is persisted, the
    deposit rows of its canonical blocks, block after block in ascending
    slot order and one row per deposit, carry as [Index] the consecutive
    integers from [FirstDepositIndex] on, which are strictly increasing. *)
Theorem deposit_indices_consecutive
    tx cs epoch blocks epochStats epochVotes epochStatsValues w :
  dbHealthy w ->
  epochInRange cs epoch ->
  slotsAscending blocks ->
  slotsInEpoch cs epoch blocks ->
  dutiesCover cs epochStats ->
  GetValues cs epochStats = Some epochStatsValues ->
  0 <= FirstDepositIndex epochStatsValues ->
  FirstDepositIndex epochStatsValues + Z.of_nat (totalDeposits blocks)
    < U64.modulus ->
  exists w',
    persistEpochData tx cs epoch blocks epochStats epochVotes w = Ret None w'
    /\ map dbtypes.Deposit.Index (depositRowsOf (persistedOps tx w w'))
       = map Some (indicesFrom (FirstDepositIndex epochStatsValues)
                               (totalDeposits blocks))
    /\ StronglySorted Z.lt
         (indicesFrom (FirstDepositIndex epochStatsValues)
                      (totalDeposits blocks))
    /\ map dbtypes.Deposit.SlotNumber (depositRowsOf (persistedOps tx w w'))
       = flat_map (fun b => repeat (Slot b) (depositCount b)) blocks.
Proof.
  intros H Hrange Hasc Hin Hduties Hvals Hfirst Hmax.
  destruct (persistEpochData_healthy tx cs epoch blocks epochStats epochVotes
              w H Hrange Hduties) as (w' & Hrun & Hops).
  exists w'. split; [exact Hrun|]. rewrite Hops.
  rewrite depositRowsOf_epochStatements, Hvals.
  rewrite (takenBlocks_epoch cs epoch blocks Hasc Hin)
    by (destruct Hrange as ((? & _) & _); lia).
  destruct (depositRowsOf_epochOps blocks (FirstDepositIndex epochStatsValues)
              Hfirst Hmax) as (Hidx & Hslot).
  split; [exact Hidx|]. split; [apply indicesFrom_increasing | exact Hslot].
Qed.

Lemma deposit_indices_witness :
  exists w',
    persistEpochData (Some OpenTx) Sample.chain 1
      [Sample.blockAtSlot 4; Sample.blockAtSlot 6]
      (Some (Sample.stats 1)) None Sample.world = Ret None w'
    /\ map dbtypes.Deposit.Index
           (depositRowsOf (persistedOps (Some OpenTx) Sample.world w'))
       = [Some 1000; Some 1001; Some 1002; Some 1003]
    /\ StronglySorted Z.lt [1000; 1001; 1002; 1003]
    /\ map dbtypes.Deposit.SlotNumber
           (depositRowsOf (persistedOps (Some OpenTx) Sample.world w'))
       = [4; 4; 6; 6].
Proof.
  apply (deposit_indices_consecutive (Some OpenTx) Sample.chain 1
           [Sample.blockAtSlot 4; Sample.blockAtSlot 6]
           (Some (Sample.stats 1)) None Sample.statsValues Sample.world
           sample_world_healthy sample_epoch_inRange sample_blocks_ascending
           sample_blocks_inEpoch sample_duties_cover eq_refl).
  - vm_compute. discriminate.
  - vm_compute. reflexivity.
Defined.

(** ** Sync-committee assignments *)

Lemma syncAssignment_rows period (duties : list Z) :
  forall index : nat -> Z,
    let rows :=
      imap (fun idx val =>
              {| dbtypes.SyncAssignment.Period := period;
                 dbtypes.SyncAssignment.Index := index idx;
                 dbtypes.SyncAssignment.Validator := val |}) duties in
    map dbtypes.SyncAssignment.Validator rows = duties
    /\ Forall (fun r => dbtypes.SyncAssignment.Period r = period) rows.
Proof.
  induction duties as [|val duties IH]; intros index; cbn [imap map].
  - split; constructor.
  - destruct (IH (index ∘ S)) as (Hvals & Hperiod). split.
    + cbn. f_equal. exact Hvals.
    + constructor; [reflexivity | exact Hperiod].
Qed.

(** C6, as amended.  For an epoch of period [N], at or after the Altair fork
    epoch and with epoch stats values, [persistSyncAssignments] inserts one
    row per sync-committee duty, each with period [N], when the epoch is the
    first of its period, and also when it is a later one that the database
    does not report as synchronized; for a later epoch of a period the
    database reports as synchronized it inserts nothing. *)
Theorem sync_assignments_once_per_period
    cs period offset epochStats epochStatsValues w :
  let specs := GetSpecs cs in
  let epoch := period * EpochsPerSyncCommitteePeriod specs + offset in
  dbHealthy w ->
  0 <= period ->
  0 <= offset < EpochsPerSyncCommitteePeriod specs ->
  AltairForkEpoch specs <= epoch < U64.modulus ->
  GetValues cs epochStats = Some epochStatsValues ->
  if (offset =? 0) || negb (w_syncSynchronized w period) then
    exists rows,
      persistSyncAssignments cs epoch epochStats w
      = Ret None (addOps [InsertSyncAssignments rows] w)
      /\ map dbtypes.SyncAssignment.Validator rows
         = SyncCommitteeDuties epochStatsValues
      /\ Forall (fun r => dbtypes.SyncAssignment.Period r = period) rows
  else persistSyncAssignments cs epoch epochStats w = Ret None w.
Proof.
  intros specs epoch H Hperiod Hoffset Hepoch Hvals.
  assert (Hdiv : epoch / EpochsPerSyncCommitteePeriod specs = period).
  { unfold epoch. rewrite Z.mul_comm.
    symmetry. apply (Z.div_unique_pos _ _ _ offset); [lia | reflexivity]. }
  assert (Hvals' :
    match epochStats with
    | Some _ => GetValues cs epochStats
    | None => None
    end = Some epochStatsValues) by (destruct epochStats; [exact Hvals | discriminate]).
  unfold persistSyncAssignments. fold specs.
  destruct (Z.ltb_spec epoch (AltairForkEpoch specs)); [lia|].
  rewrite Hvals'.
  destruct (Z.eqb_spec (EpochsPerSyncCommitteePeriod specs) 0); [lia|].
  rewrite Hdiv.
  rewrite (u64_small (period * EpochsPerSyncCommitteePeriod specs))
    by (unfold epoch in Hepoch; nia).
  replace (epoch =? period * EpochsPerSyncCommitteePeriod specs)
    with (offset =? 0)
    by (unfold epoch; destruct (Z.eqb_spec offset 0);
        destruct (Z.eqb_spec
                    (period * EpochsPerSyncCommitteePeriod specs + offset)
                    (period * EpochsPerSyncCommitteePeriod specs));
        try reflexivity; lia).
  unfold mbind, M_bind, mret, M_ret, db.IsSyncCommitteeSynchronized,
    db.InsertSyncAssignments.
  destruct (offset =? 0); cbn [negb orb].
  - rewrite dbExec_addOps by exact H.
    eexists. split; [reflexivity|]. apply syncAssignment_rows.
  - destruct (w_syncSynchronized w period); cbn [negb].
    + reflexivity.
    + rewrite dbExec_addOps by exact H.
      eexists. split; [reflexivity|]. apply syncAssignment_rows.
Qed.

Lemma sync_assignments_witness :
  exists rows,
    persistSyncAssignments Sample.chain 2 (Some (Sample.stats 2)) Sample.world
    = Ret None (addOps [InsertSyncAssignments rows] Sample.world)
    /\ map dbtypes.SyncAssignment.Validator rows = [21; 22]
    /\ Forall (fun r => dbtypes.SyncAssignment.Period r = 1) rows.
Proof.
  apply (sync_assignments_once_per_period Sample.chain 1 0
           (Some (Sample.stats 2)) Sample.statsValues Sample.world
           sample_world_healthy).
  - lia.
  - cbn. lia.
  - unfold U64.modulus. cbn. lia.
  - reflexivity.
Defined.

(** C6 as it is stated fails for a later epoch of a period the database
    does not report as synchronized: epoch 3 is the second epoch of period
    1, and the two rows are inserted. *)
Lemma sync_assignments_later_epoch_counterexample :
  Sample.chain.(GetSpecs).(EpochsPerSyncCommitteePeriod) = 2
  /\ persistSyncAssignments Sample.chain 3 (Some (Sample.stats 3)) Sample.world
     = Ret None
         (addOps
            [InsertSyncAssignments
               [{| dbtypes.SyncAssignment.Period := 1;
                   dbtypes.SyncAssignment.Index := 0;
                   dbtypes.SyncAssignment.Validator := 21 |};
                {| dbtypes.SyncAssignment.Period := 1;
                   dbtypes.SyncAssignment.Index := 1;
                   dbtypes.SyncAssignment.Validator := 22 |}]]
            Sample.world).
Proof. split; reflexivity. Qed.

(** ** The prune pass on wall-clock slot events *)

(** With thirty-two slots per epoch the progress of slot index [i] is
    [3 * i] percent. *)
Lemma slotProgress_mainnet slotIndex :
  0 <= slotIndex < 32 ->
  slotProgress SampleLoop.mainnet slotIndex = 3 * slotIndex.
Proof.
  intros H. unfold slotProgress, u8, u64, U64.modulus. cbn.
  change (100 / 32) with 3.
  rewrite (Z.mod_small (3 * slotIndex)) by lia.
  apply Z.mod_small. lia.
Qed.

(** The prune pass of a slot event runs exactly when the epoch of the slot
    is beyond [lastPruneRunEpoch] and the computed progress is at least
    fifty. *)
Lemma onSlotEvent_runs runCachePruning cs number w :
  SlotsPerEpoch (GetSpecs cs) <> 0 ->
  onSlotEvent runCachePruning cs number w
  = if (lastPruneRunEpoch w <? EpochOfSlot cs number)
       && (50 <=? slotProgress cs (SlotToSlotIndex cs number))
    then
      (err ← runCachePruning;
       match err with
       | Some e => logError "failed pruning cache" (Some e)
       | None => mret tt
       end;;
       modifyWorld (set_lastPruneRunEpoch (EpochOfSlot cs number))) w
    else Ret tt w.
Proof.
  intros Hspe. unfold onSlotEvent.
  destruct (Z.eqb_spec (SlotsPerEpoch (GetSpecs cs)) 0); [contradiction|].
  unfold mbind at 1. unfold M_bind at 1. unfold getWorld.
  destruct ((lastPruneRunEpoch w <? EpochOfSlot cs number)
            && (50 <=? slotProgress cs (SlotToSlotIndex cs number)));
    reflexivity.
Qed.

(** C7 at the failing input.  Slot 48 is the slot with index 16 of epoch 1,
    half of the thirty-two slots of the epoch, and no prune pass has run in
    epoch 1; the computed progress is 48, and the event leaves the world as
    it is, whatever [runCachePruning] would do.  The next slot runs it. *)
Lemma slot_event_at_half_epoch_skips_prune (runCachePruning : M (option error)) :
  EpochOfSlot SampleLoop.mainnet 48 = 1
  /\ SlotToSlotIndex SampleLoop.mainnet 48
     = SlotsPerEpoch (GetSpecs SampleLoop.mainnet) / 2
  /\ lastPruneRunEpoch Sample.world < 1
  /\ slotProgress SampleLoop.mainnet 16 = 48
  /\ onSlotEvent runCachePruning SampleLoop.mainnet 48 Sample.world
     = Ret tt Sample.world
  /\ (forall processFinalityEvent,
        runIndexerLoop processFinalityEvent runCachePruning
          SampleLoop.mainnet [WallclockSlotEvent 48] Sample.world
        = Ret tt Sample.world)
  /\ onSlotEvent (mret None) SampleLoop.mainnet 49 Sample.world
     = Ret tt (set_lastPruneRunEpoch 1 Sample.world).
Proof. repeat split; reflexivity. Qed.

(** ** The pruning state on finality events *)

Lemma finality_advancePruned_cases w :
  exists w',
    finality_advancePruned w = Ret tt w'
    /\ lastFinalizedEpoch w' = lastFinalizedEpoch w
    /\ if lastPrunedEpoch w <? lastFinalizedEpoch w then
         lastPrunedEpoch w' = lastFinalizedEpoch w
         /\ w_committed w'
            = if w_dbFail w [] (SetPruneState (lastFinalizedEpoch w))
              then w_committed w
              else w_committed w ++ [SetPruneState (lastFinalizedEpoch w)]
       else w' = w.
Proof.
  unfold finality_advancePruned.
  unfold mbind at 1. unfold M_bind at 1. unfold getWorld.
  destruct (lastPrunedEpoch w <? lastFinalizedEpoch w).
  - unfold mbind, M_bind, modifyWorld, db.RunDBTransaction,
      updatePruningState, dbExec, logError, modifyWorld, mret, M_ret.
    cbn [w_dbFail set_tx set_lastPrunedEpoch w_tx].
    destruct (w_dbFail w [] (SetPruneState (lastFinalizedEpoch w)));
      eexists; (split; [reflexivity|]); cbn; auto.
  - exists w. auto.
Qed.

(** The handler of a finality event is these two steps followed by the
    prune pass. *)
Lemma onFinalityEvent_split processFinalityEvent runCachePruning cs
    finalityEvent w :
  onFinalityEvent processFinalityEvent runCachePruning cs finalityEvent w
  = match (finality_process processFinalityEvent finalityEvent;;
           finality_advancePruned) w with
    | Ret _ w2 => finality_prune runCachePruning cs w2
    | Panic p w2 => Panic p w2
    | Diverge => Diverge
    end.
Proof.
  unfold onFinalityEvent.
  change (finality_process processFinalityEvent finalityEvent;;
          finality_advancePruned;; finality_prune runCachePruning cs)
    with (M_bind _ _
            (fun _ => M_bind _ _ (fun _ => finality_prune runCachePruning cs)
                        finality_advancePruned)
            (finality_process processFinalityEvent finalityEvent)).
  change (finality_process processFinalityEvent finalityEvent;;
          finality_advancePruned)
    with (M_bind _ _ (fun _ => finality_advancePruned)
            (finality_process processFinalityEvent finalityEvent)).
  unfold M_bind.
  destruct (finality_process processFinalityEvent finalityEvent w);
    reflexivity.
Qed.

(** C8, as amended.  When the indexer loop handles a finality event, the
    error of [processFinalityEvent] is only logged: whether or not it
    answered one, the loop then sets [lastPrunedEpoch] to
    [lastFinalizedEpoch] and writes the pruning cursor, in a transaction of
    its own, exactly when [lastFinalizedEpoch] is beyond [lastPrunedEpoch];
    otherwise it leaves the pruning state unchanged. *)
Theorem prune_state_follows_finalized_epoch
    (processFinalityEvent : Finality -> M (option error))
    finalityEvent w err w1 :
  processFinalityEvent finalityEvent w = Ret err w1 ->
  exists w2,
    (finality_process processFinalityEvent finalityEvent;;
     finality_advancePruned) w = Ret tt w2
    /\ lastFinalizedEpoch w2 = lastFinalizedEpoch w1
    /\ if lastPrunedEpoch w1 <? lastFinalizedEpoch w1 then
         lastPrunedEpoch w2 = lastFinalizedEpoch w1
         /\ w_committed w2
            = if w_dbFail w1 [] (SetPruneState (lastFinalizedEpoch w1))
              then w_committed w1
              else w_committed w1 ++ [SetPruneState (lastFinalizedEpoch w1)]
       else lastPrunedEpoch w2 = lastPrunedEpoch w1
            /\ w_committed w2 = w_committed w1.
Proof.
  intros Hrun.
  unfold mbind at 1. unfold M_bind at 1. unfold finality_process.
  unfold mbind at 1. unfold M_bind at 1. rewrite Hrun.
  set (w1' := match err with
              | Some e =>
                  set_log (w_log w1 ++
                           [LogError "error processing finality event"
                                     (Some e)]) w1
              | None => w1
              end).
  assert (Hlog :
    match err with
    | Some e => logError "error processing finality event" (Some e)
    | None => mret tt
    end w1 = Ret tt w1') by (destruct err; reflexivity).
  rewrite Hlog.
  assert (Hsame : lastFinalizedEpoch w1' = lastFinalizedEpoch w1
                  /\ lastPrunedEpoch w1' = lastPrunedEpoch w1
                  /\ w_committed w1' = w_committed w1
                  /\ w_dbFail w1' = w_dbFail w1)
    by (destruct err; cbn; auto).
  destruct Hsame as (Hf & Hp & Hc & Hd).
  destruct (finality_advancePruned_cases w1') as (w2 & Hadv & Hfin & Hcases).
  exists w2. split; [exact Hadv|]. rewrite Hf in Hfin. split; [exact Hfin|].
  rewrite Hf, Hp, Hc, Hd in Hcases.
  destruct (lastPrunedEpoch w1 <? lastFinalizedEpoch w1); [exact Hcases|].
  subst w2. auto.
Qed.

Lemma prune_state_witness :
  exists w1,
    processFinalityEvent_spec Sample.chain [] None
      (SampleLoop.finalityOfEpoch 2) Sample.world = Ret None w1
    /\ exists w2,
         (finality_process
            (processFinalityEvent_spec Sample.chain [] None)
            (SampleLoop.finalityOfEpoch 2);;
          finality_advancePruned) Sample.world = Ret tt w2
         /\ lastFinalizedEpoch w2 = lastFinalizedEpoch w1
         /\ if lastPrunedEpoch w1 <? lastFinalizedEpoch w1 then
              lastPrunedEpoch w2 = lastFinalizedEpoch w1
              /\ w_committed w2
                 = if w_dbFail w1 [] (SetPruneState (lastFinalizedEpoch w1))
                   then w_committed w1
                   else w_committed w1
                        ++ [SetPruneState (lastFinalizedEpoch w1)]
            else lastPrunedEpoch w2 = lastPrunedEpoch w1
                 /\ w_committed w2 = w_committed w1.
Proof.
  eexists. split; [vm_compute; reflexivity|].
  apply (prune_state_follows_finalized_epoch
           (processFinalityEvent_spec Sample.chain [] None)
           (SampleLoop.finalityOfEpoch 2) Sample.world None).
  vm_compute. reflexivity.
Defined.

(** C8 as it is stated fails when the processing of the finality event
    answers an error after it recorded the new finalized epoch: the database
    rejects the rows of the epoch, the error is logged, and the loop still
    moves [lastPrunedEpoch] from 1 to 2 and commits the cursor. *)
Lemma prune_state_after_failed_finality_counterexample :
  exists e w1 w2,
    processFinalityEvent_spec Sample.chain [] None
      (SampleLoop.finalityOfEpoch 2) SampleLoop.rejectingWorld
    = Ret (Some e) w1
    /\ (finality_process
          (processFinalityEvent_spec Sample.chain [] None)
          (SampleLoop.finalityOfEpoch 2);;
        finality_advancePruned) SampleLoop.rejectingWorld = Ret tt w2
    /\ lastPrunedEpoch SampleLoop.rejectingWorld = 1
    /\ lastPrunedEpoch w2 = 2
    /\ w_committed SampleLoop.rejectingWorld = []
    /\ w_committed w2 = [SetPruneState 2].
Proof.
  eexists _, _, _. split; [vm_compute; reflexivity|].
  split; [vm_compute; reflexivity|].
  repeat split.
Qed.

(** ** The restore of the unfinalized epoch stats *)

(** The in-memory range starts at the first slot of [lastPrunedEpoch]: the
    epoch of the cursor itself is kept. *)
Lemma getMinInMemorySlot_at_cursor cs w :
  0 < lastFinalizedEpoch w <= lastPrunedEpoch w ->
  lastPrunedEpoch w < U64.modulus ->
  getMinInMemorySlot cs w = Ret (EpochStartSlot cs (lastPrunedEpoch w)) w.
Proof.
  intros H Hmax. unfold getMinInMemorySlot, getMinInMemoryEpoch.
  unfold mbind, M_bind, mret, M_ret, getWorld, EpochToSlot.
  destruct (Z.ltb_spec 0 (lastFinalizedEpoch w)); [|lia].
  destruct (Z.ltb_spec 0 (lastPrunedEpoch w)); [|lia].
  rewrite (u64_small (lastFinalizedEpoch w - 1)) by lia.
  destruct (Z.ltb_spec (lastFinalizedEpoch w - 1) (lastPrunedEpoch w)); [|lia].
  cbn [andb]. rewrite (u64_small (lastPrunedEpoch w - 1)) by lia.
  rewrite u64_small by lia. do 2 f_equal. lia.
Qed.

Lemma restoreUnfinalizedDuty_effect finalizedEpoch dbDuty w :
  exists w',
    restoreUnfinalizedDuty finalizedEpoch dbDuty w = Ret tt w'
    /\ lastPrunedEpoch w' = lastPrunedEpoch w
    /\ (forall key, key <> dutyKey dbDuty ->
          epochCache w' !! key = epochCache w !! key)
    /\ (finalizedEpoch <= DutyEpoch dbDuty ->
        forall v, DutiesSSZ dbDuty = Some v ->
        exists es,
          epochCache w' !! dutyKey dbDuty = Some es
          /\ restoredAs (DutyEpoch dbDuty <? lastPrunedEpoch w) v es).
Proof.
  unfold restoreUnfinalizedDuty, dutyKey.
  destruct (Z.ltb_spec (DutyEpoch dbDuty) finalizedEpoch) as [Hlt|Hge].
  { exists w. repeat split; auto. intros; lia. }
  set (key := (DutyEpoch dbDuty, DutyDependentRoot dbDuty)).
  unfold mbind at 1. unfold M_bind at 1. unfold createOrGetEpochStats.
  fold key.
  set (w1 := match epochCache w !! key with
             | Some _ => w
             | None =>
                 set_epochCache
                   (<[key := {| epoch := DutyEpoch dbDuty;
                                dependentRoot := DutyDependentRoot dbDuty;
                                values := None; isInDb := false;
                                pruned := false |}]> (epochCache w)) w
             end).
  assert (Hcreate :
    match epochCache w !! key with
    | Some _ => Ret key w
    | None =>
        Ret key
          (set_epochCache
             (<[key := {| epoch := DutyEpoch dbDuty;
                          dependentRoot := DutyDependentRoot dbDuty;
                          values := None; isInDb := false;
                          pruned := false |}]> (epochCache w)) w)
    end = Ret key w1) by (unfold w1; destruct (epochCache w !! key); reflexivity).
  rewrite Hcreate.
  assert (Hw1 : lastPrunedEpoch w1 = lastPrunedEpoch w
                /\ (forall k, k <> key ->
                      epochCache w1 !! k = epochCache w !! k)
                /\ is_Some (epochCache w1 !! key)).
  { unfold w1. destruct (epochCache w !! key) eqn:Hk; cbn.
    - rewrite Hk. eauto.
    - repeat split; [|rewrite lookup_insert_eq; eauto].
      intros k Hne. now rewrite lookup_insert_ne. }
  destruct Hw1 as (Hp1 & Hother1 & (es0 & Hes0)).
  unfold mbind at 1. unfold M_bind at 1. unfold restoreFromDb.
  destruct (DutiesSSZ dbDuty) as [v|].
  - unfold mbind, M_bind, mret, M_ret, updateEpochStats, modifyWorld,
      getWorld.
    cbn [lastPrunedEpoch set_epochCache epochCache]. rewrite Hp1.
    destruct (DutyEpoch dbDuty <? lastPrunedEpoch w);
      (eexists; split; [reflexivity|]);
      cbn [lastPrunedEpoch set_epochCache epochCache];
      (split; [exact Hp1|]); split.
    + intros k Hne. rewrite !lookup_alter_ne by congruence. auto.
    + intros _ v' [= <-]. rewrite !lookup_alter_eq, Hes0. cbn.
      eexists. split; [reflexivity|]. repeat split.
    + intros k Hne. rewrite !lookup_alter_ne by congruence. auto.
    + intros _ v' [= <-]. rewrite !lookup_alter_eq, Hes0. cbn.
      eexists. split; [reflexivity|]. repeat split.
  - unfold mbind, M_bind, mret, M_ret, logError, modifyWorld.
    eexists. split; [reflexivity|]. cbn [lastPrunedEpoch set_log epochCache].
    repeat split; auto. intros _ v' [=].
Qed.

Lemma restore_forEach finalizedEpoch (duties : list UnfinalizedDuty) :
  forall w,
    NoDup (map dutyKey duties) ->
    exists w',
      forEach (restoreUnfinalizedDuty finalizedEpoch) duties w = Ret tt w'
      /\ lastPrunedEpoch w' = lastPrunedEpoch w
      /\ (forall key, key ∉ map dutyKey duties ->
            epochCache w' !! key = epochCache w !! key)
      /\ (forall dbDuty v,
            dbDuty ∈ duties ->
            finalizedEpoch <= DutyEpoch dbDuty ->
            DutiesSSZ dbDuty = Some v ->
            exists es,
              epochCache w' !! dutyKey dbDuty = Some es
              /\ restoredAs (DutyEpoch dbDuty <? lastPrunedEpoch w) v es).
Proof.
  induction duties as [|d rest IH]; intros w Hnd; cbn [forEach map].
  - exists w. repeat split; auto. intros dbDuty v Hin.
    now apply elem_of_nil in Hin.
  - cbn [map] in Hnd. apply NoDup_cons in Hnd as (Hfresh & Hnd).
    destruct (restoreUnfinalizedDuty_effect finalizedEpoch d w)
      as (w1 & Hrun1 & Hp1 & Hother1 & Hself1).
    destruct (IH w1 Hnd) as (w' & Hrun & Hp & Hother & Hrest).
    exists w'. unfold mbind at 1. unfold M_bind at 1. rewrite Hrun1.
    split; [exact Hrun|]. split; [congruence|]. split.
    + intros key Hkey. apply not_elem_of_cons in Hkey as (Hne & Hkey).
      rewrite Hother by exact Hkey. now apply Hother1.
    + intros dbDuty v Hin Hge Hv.
      apply elem_of_cons in Hin as [->|Hin].
      * rewrite Hother by exact Hfresh. now apply Hself1.
      * rewrite <- Hp1. now apply Hrest.
Qed.

Lemma StartIndexer_loadState_effect cs w :
  exists w',
    StartIndexer_loadState cs w = Ret tt w'
    /\ lastPrunedEpoch w'
       = Z.max (db.GetExplorerState_prunestate w) (FinalizedEpoch cs)
    /\ epochCache w' = epochCache w.
Proof.
  unfold StartIndexer_loadState.
  unfold mbind, M_bind, mret, M_ret, modifyWorld, getWorld,
    db.RunDBTransaction, updatePruningState, dbExec, logError, modifyWorld.
  change (db.GetExplorerState_prunestate
            (set_lastFinalizedEpoch (FinalizedEpoch cs) w))
    with (db.GetExplorerState_prunestate w).
  generalize (db.GetExplorerState_prunestate w) as cursor. intros cursor.
  cbn [lastPrunedEpoch set_lastPrunedEpoch set_lastFinalizedEpoch].
  destruct (Z.ltb_spec cursor (FinalizedEpoch cs)).
  - cbn.
    destruct (w_dbFail w [] (SetPruneState (FinalizedEpoch cs)));
      eexists; (split; [reflexivity|]); cbn; split; auto; lia.
  - eexists. split; [reflexivity|]. cbn. split; auto. lia.
Qed.

(** C9, as amended.  After [StartIndexer], on a stream of unfinalized duties
    with pairwise distinct keys, the entry of every row that is not below
    the finalized epoch and decodes is in the cache and marked as in the
    database; its duty arrays are discarded by [pruneValues] when its epoch
    is strictly below [lastPrunedEpoch], and it keeps its values when its
    epoch is equal to [lastPrunedEpoch] or above. *)
Theorem restored_stats_pruned_strictly_below_cursor
    cs (unfinalizedDuties : list UnfinalizedDuty) w dbDuty v :
  running w = false ->
  NoDup (map dutyKey unfinalizedDuties) ->
  dbDuty ∈ unfinalizedDuties ->
  FinalizedEpoch cs <= DutyEpoch dbDuty ->
  DutiesSSZ dbDuty = Some v ->
  exists w' es,
    StartIndexer cs unfinalizedDuties w = Ret tt w'
    /\ lastPrunedEpoch w'
       = Z.max (db.GetExplorerState_prunestate w) (FinalizedEpoch cs)
    /\ epochCache w' !! dutyKey dbDuty = Some es
    /\ restoredAs (DutyEpoch dbDuty <? lastPrunedEpoch w') v es.
Proof.
  intros Hrunning Hnd Hin Hge Hv. unfold StartIndexer.
  unfold mbind at 1. unfold M_bind at 1. unfold getWorld. rewrite Hrunning.
  unfold mbind at 1. unfold M_bind at 1. unfold modifyWorld at 1.
  destruct (StartIndexer_loadState_effect cs (set_running true w))
    as (w0 & Hload & Hp0 & _).
  unfold mbind at 1. unfold M_bind at 1. rewrite Hload.
  destruct (restore_forEach (FinalizedEpoch cs) unfinalizedDuties w0 Hnd)
    as (w' & Hrun & Hp & _ & Hall).
  destruct (Hall dbDuty v Hin Hge Hv) as (es & Hes & Hrestored).
  exists w', es. split; [exact Hrun|]. rewrite Hp.
  split; [exact Hp0|]. split; [exact Hes | exact Hrestored].
Qed.

Lemma restored_stats_witness :
  exists w' es,
    StartIndexer Sample.chain
      [SampleLoop.dutyOfEpoch 2; SampleLoop.dutyOfEpoch 3;
       SampleLoop.dutyOfEpoch 4] SampleLoop.restartWorld = Ret tt w'
    /\ lastPrunedEpoch w' = 3
    /\ epochCache w' !! (2, 9) = Some es
    /\ isInDb es = true
    /\ pruned es = true
    /\ values es = Some (dropDutyArrays Sample.statsValues).
Proof.
  destruct (restored_stats_pruned_strictly_below_cursor Sample.chain
              [SampleLoop.dutyOfEpoch 2; SampleLoop.dutyOfEpoch 3;
               SampleLoop.dutyOfEpoch 4] SampleLoop.restartWorld
              (SampleLoop.dutyOfEpoch 2) Sample.statsValues)
    as (w' & es & Hrun & Hp & Hes & Hin & Hpruned).
  - reflexivity.
  - refine (bool_decide_unpack _ _). vm_compute. exact I.
  - apply elem_of_cons. left. reflexivity.
  - vm_compute. discriminate.
  - reflexivity.
  - exists w', es. split; [exact Hrun|]. split; [exact Hp|].
    split; [exact Hes|]. split; [exact Hin|].
    rewrite Hp in Hpruned. exact Hpruned.
Defined.

(** C9 as it is stated fails for an entry whose epoch is equal to
    [lastPrunedEpoch]: the cursor is at epoch 3, the entry of epoch 3 is
    restored, and it keeps its duty arrays. *)
Lemma restored_stats_at_cursor_counterexample :
  exists w' es,
    StartIndexer Sample.chain
      [SampleLoop.dutyOfEpoch 2; SampleLoop.dutyOfEpoch 3;
       SampleLoop.dutyOfEpoch 4] SampleLoop.restartWorld = Ret tt w'
    /\ lastPrunedEpoch w' = 3
    /\ DutyEpoch (SampleLoop.dutyOfEpoch 3) <= lastPrunedEpoch w'
    /\ epochCache w' !! (3, 9) = Some es
    /\ pruned es = false
    /\ values es = Some Sample.statsValues
    /\ ProposerDuties Sample.statsValues = [11; 12; 13; 14].
Proof.
  eexists _, _. split; [vm_compute; reflexivity|].
  split; [reflexivity|]. split; [vm_compute; discriminate|].
  split; [vm_compute; reflexivity|]. repeat split.
Qed.

(** * Further properties of the DB writer *)

(** ** One block against any database *)

(** An insert guarded by [len(rows) > 0] either goes through or answers the
    wrapped error of the database and leaves the world as it is. *)
Lemma guarded_insert_any {A : Type} (mk : list A -> DbOp) what msg
    (rows : list A) w :
  (if (0 <? length rows)%nat then
     err ← dbExec what (mk rows);
     match err with
     | Some e => mret (Some (Errorf msg e))
     | None => mret None
     end
   else mret None) w
  = (if (0 <? length rows)%nat && w_dbFail w (w_tx w) (mk rows)
     then Ret (Some (Errorf msg (DbError what))) w
     else Ret None (addOps (insertIfAny mk rows) w)).
Proof.
  unfold insertIfAny. destruct (0 <? length rows)%nat; cbn [andb].
  - unfold_monad. unfold dbExec.
    destruct (w_dbFail w (w_tx w) (mk rows)); reflexivity.
  - unfold_monad. now rewrite addOps_nil.
Qed.

Lemma w_dbFail_addOps ops w : w_dbFail (addOps ops w) = w_dbFail w.
Proof. reflexivity. Qed.

Lemma w_tx_addOps ops w : w_tx (addOps ops w) = w_tx w ++ ops.
Proof. reflexivity. Qed.

Lemma persistBlockDeposits_any block depositIndex (orphaned : bool)
    overrideForkId w :
  let rows :=
    if orphaned
    then map (deposit_with_Orphaned true)
           (fst (buildDbDeposits block depositIndex orphaned overrideForkId))
    else fst (buildDbDeposits block depositIndex orphaned overrideForkId) in
  let depositIndex' :=
    snd (buildDbDeposits block depositIndex orphaned overrideForkId) in
  persistBlockDeposits block depositIndex orphaned overrideForkId w
  = (if (0 <? length rows)%nat && w_dbFail w (w_tx w) (InsertDeposits rows)
     then Ret (Some (Errorf "error inserting deposits"
                            (DbError "InsertDeposits")), depositIndex') w
     else Ret (None, depositIndex')
              (addOps (insertIfAny InsertDeposits rows) w)).
Proof.
  intros rows di'. unfold persistBlockDeposits. subst rows di'.
  destruct (buildDbDeposits block depositIndex orphaned overrideForkId)
    as [rows di]. cbn [fst snd]. unfold insertIfAny.
  destruct (0 <? length _)%nat; cbn [andb].
  - unfold_monad. unfold db.InsertDeposits, dbExec.
    destruct (w_dbFail w (w_tx w) _); reflexivity.
  - unfold_monad. now rewrite addOps_nil.
Qed.

Lemma persistBlockVoluntaryExits_any block orphaned overrideForkId w :
  let rows := buildDbVoluntaryExits block orphaned overrideForkId in
  persistBlockVoluntaryExits block orphaned overrideForkId w
  = (if (0 <? length rows)%nat
        && w_dbFail w (w_tx w) (InsertVoluntaryExits rows)
     then Ret (Some (Errorf "error inserting voluntary exits"
                            (DbError "InsertVoluntaryExits"))) w
     else Ret None (addOps (insertIfAny InsertVoluntaryExits rows) w)).
Proof. apply guarded_insert_any. Qed.

Lemma persistBlockSlashings_any block orphaned overrideForkId w :
  let rows := buildDbSlashings block orphaned overrideForkId in
  persistBlockSlashings block orphaned overrideForkId w
  = (if (0 <? length rows)%nat && w_dbFail w (w_tx w) (InsertSlashings rows)
     then Ret (Some (Errorf "error inserting slashings"
                            (DbError "InsertSlashings"))) w
     else Ret None (addOps (insertIfAny InsertSlashings rows) w)).
Proof. apply guarded_insert_any. Qed.

(** Whatever the database does, [persistBlockChildObjects] answers the
    content of [*depositIndex] after [buildDbDeposits] and leaves a prefix
    of the statements of the child objects; the prefix is all of them
    exactly when it answers no error. *)
Lemma persistBlockChildObjects_any block depositIndex orphaned
    overrideForkId w :
  exists err ops rest,
    persistBlockChildObjects block depositIndex orphaned overrideForkId w
    = Ret (err, snd (buildDbDeposits block depositIndex orphaned
                       overrideForkId)) (addOps ops w)
    /\ childStatements block depositIndex orphaned overrideForkId
       = ops ++ rest
    /\ (err = None <-> rest = []).
Proof.
  unfold persistBlockChildObjects, childStatements.
  unfold mbind at 1. unfold M_bind at 1.
  rewrite persistBlockDeposits_any.
  set (D := insertIfAny InsertDeposits _).
  set (E := insertIfAny InsertVoluntaryExits _).
  set (S := insertIfAny InsertSlashings _).
  destruct ((0 <? length _)%nat && w_dbFail w (w_tx w) (InsertDeposits _))
    eqn:HD.
  { exists (Some (Errorf "error inserting deposits"
                    (DbError "InsertDeposits"))), [], (D ++ E ++ S).
    rewrite addOps_nil. split; [reflexivity|]. split; [reflexivity|].
    split; [intros [=]|].
    apply andb_true_iff in HD as (Hlen & _). subst D. unfold insertIfAny.
    rewrite Hlen. intros [=]. }
  unfold mbind at 1. unfold M_bind at 1.
  unfold mbind at 1. unfold M_bind at 1.
  rewrite persistBlockVoluntaryExits_any. cbv zeta. fold E.
  destruct ((0 <? length _)%nat
            && w_dbFail (addOps D w) (w_tx (addOps D w))
                 (InsertVoluntaryExits _)) eqn:HE.
  { cbn [orReturn]. unfold_monad.
    exists (Some (Errorf "error inserting voluntary exits"
                    (DbError "InsertVoluntaryExits"))), D, (E ++ S).
    split; [reflexivity|]. split; [reflexivity|].
    split; [intros [=]|].
    apply andb_true_iff in HE as (Hlen & _). subst E. unfold insertIfAny.
    rewrite Hlen. intros [=]. }
  cbn [orReturn].
  unfold mbind at 1. unfold M_bind at 1.
  rewrite persistBlockSlashings_any. cbv zeta. fold S.
  destruct ((0 <? length _)%nat
            && w_dbFail (addOps E (addOps D w))
                 (w_tx (addOps E (addOps D w))) (InsertSlashings _)) eqn:HS.
  { cbn [orReturn]. unfold_monad.
    exists (Some (Errorf "error inserting slashings"
                    (DbError "InsertSlashings"))), (D ++ E), S.
    rewrite addOps_addOps, <- app_assoc.
    split; [reflexivity|]. split; [reflexivity|].
    split; [intros [=]|].
    apply andb_true_iff in HS as (Hlen & _). subst S. unfold insertIfAny.
    rewrite Hlen. intros [=]. }
  cbn [orReturn].
  unfold mbind at 1. unfold M_bind at 1.
  rewrite persistBlockConsolidations_healthy. cbn [orReturn].
  unfold mbind at 1. unfold M_bind at 1.
  rewrite persistBlockElRequests_healthy. cbn [orReturn].
  unfold mret, M_ret.
  exists None, (D ++ E ++ S), [].
  rewrite !addOps_addOps, app_nil_r.
  split; [reflexivity|]. split; [reflexivity|]. split; reflexivity.
Qed.

Lemma addOps_cons_flag row ops l w :
  addOps ops (set_inFinalizedDb l (set_tx (w_tx w ++ [row]) w))
  = addOps (row :: ops) (set_inFinalizedDb l w).
Proof.
  unfold addOps, set_tx, set_inFinalizedDb. cbn.
  now rewrite <- app_assoc.
Qed.

(** Whatever the database does, [persistBlockData] on a block with a body
    stops at the rejected slot row, or flags the block and goes on to the
    child objects. *)
Lemma persistBlockData_any cs block blockBody epochStats depositIndex
    orphaned overrideForkId w :
  GetBlock block = Some blockBody ->
  let row := slotRowOf block blockBody orphaned overrideForkId in
  if w_dbFail w (w_tx w) (InsertSlot row) then
    persistBlockData cs block epochStats depositIndex orphaned overrideForkId w
    = Ret (Some (Errorf "error inserting slot" (DbError "InsertSlot")),
           depositIndex) w
  else
    exists err ops rest,
      persistBlockData cs block epochStats depositIndex orphaned
        overrideForkId w
      = Ret (err, snd (buildDbDeposits block depositIndex orphaned
                         overrideForkId))
            (addOps (InsertSlot row :: ops)
               (set_inFinalizedDb (Root block :: w_inFinalizedDb w) w))
      /\ childStatements block depositIndex orphaned overrideForkId
         = ops ++ rest
      /\ (err = None <-> rest = []).
Proof.
  intros Hb row.
  assert (Hstep :
    persistBlockData cs block epochStats depositIndex orphaned overrideForkId w
    = if w_dbFail w (w_tx w) (InsertSlot row) then
        Ret (Some (Errorf "error inserting slot" (DbError "InsertSlot")),
             depositIndex) w
      else
        persistBlockChildObjects block depositIndex orphaned overrideForkId
          (set_inFinalizedDb (Root block :: w_inFinalizedDb w)
             (set_tx (w_tx w ++ [InsertSlot row]) w))).
  { unfold persistBlockData, buildDbBlock. rewrite Hb.
    unfold row, slotRowOf. unfold_monad.
    unfold db.InsertSlot, dbExec, markInFinalizedDb, modifyWorld.
    destruct (w_dbFail w (w_tx w) _); reflexivity. }
  rewrite Hstep. destruct (w_dbFail w (w_tx w) (InsertSlot row));
    [reflexivity|].
  destruct (persistBlockChildObjects_any block depositIndex orphaned
              overrideForkId
              (set_inFinalizedDb (Root block :: w_inFinalizedDb w)
                 (set_tx (w_tx w ++ [InsertSlot row]) w)))
    as (err & ops & rest & Hrun & Hops & Herr).
  exists err, ops, rest. rewrite Hrun, addOps_cons_flag. auto.
Qed.

Lemma insertIfAny_statement {A : Type} (mk : list A -> DbOp) (rows : list A) :
  (rows <> [] -> isBlockStatement (mk rows)) ->
  Forall isBlockStatement (insertIfAny mk rows).
Proof.
  intros H. unfold insertIfAny. destruct rows as [|r rows]; cbn.
  - constructor.
  - constructor; [|constructor]. now apply H.
Qed.

Lemma childStatements_statements block depositIndex orphaned overrideForkId :
  Forall isBlockStatement
         (childStatements block depositIndex orphaned overrideForkId).
Proof.
  unfold childStatements. rewrite !Forall_app.
  repeat split; apply insertIfAny_statement; cbn; auto.
Qed.

(** X1.  Whatever the database answers, [persistBlockData] on a block with
    a body answers, and the statements it has left in the transaction are a
    prefix of: the slot row, then the deposits, the voluntary exits and the
    slashings of the block, each of the three only when it holds a row.
    The prefix is the whole list exactly when it answers no error.  No
    empty batch, no consolidation and no EL request is ever handed to the
    database. *)
Theorem block_statements_are_prefix_of_slot_and_children
    cs block blockBody epochStats depositIndex orphaned overrideForkId w :
  GetBlock block = Some blockBody ->
  exists err depositIndex' ops rest w',
    persistBlockData cs block epochStats depositIndex orphaned overrideForkId w
    = Ret (err, depositIndex') w'
    /\ extends ops w w'
    /\ InsertSlot (slotRowOf block blockBody orphaned overrideForkId)
       :: childStatements block depositIndex orphaned overrideForkId
       = ops ++ rest
    /\ (err = None <-> rest = [])
    /\ Forall isBlockStatement (ops ++ rest).
Proof.
  intros Hb.
  assert (Hall :
    Forall isBlockStatement
      (InsertSlot (slotRowOf block blockBody orphaned overrideForkId)
       :: childStatements block depositIndex orphaned overrideForkId)).
  { constructor; [exact I | apply childStatements_statements]. }
  pose proof (persistBlockData_any cs block blockBody epochStats depositIndex
                orphaned overrideForkId w Hb) as Hrun.
  cbv zeta in Hrun.
  destruct (w_dbFail w (w_tx w) (InsertSlot _)).
  - eexists _, _, [], _, w. split; [exact Hrun|].
    split; [apply extends_refl|]. split; [reflexivity|].
    split; [split; intros [=] | exact Hall].
  - destruct Hrun as (err & ops & rest & Hrun & Hops & Herr).
    eexists err, _, (InsertSlot _ :: ops), rest, _. split; [exact Hrun|].
    split.
    { unfold extends, addOps. cbn. auto. }
    cbn [app]. rewrite <- Hops. split; [reflexivity|].
    split; [exact Herr | exact Hall].
Qed.

Lemma block_statements_witness :
  exists err depositIndex' ops rest w',
    persistBlockData Sample.chain (Sample.blockAtSlot 4)
      (Some (Sample.stats 1)) (Some 1000) true None SampleLoop.rejectingWorld
    = Ret (err, depositIndex') w'
    /\ extends ops SampleLoop.rejectingWorld w'
    /\ InsertSlot (slotRowOf (Sample.blockAtSlot 4) Sample.body true None)
       :: childStatements (Sample.blockAtSlot 4) (Some 1000) true None
       = ops ++ rest
    /\ (err = None <-> rest = [])
    /\ Forall isBlockStatement (ops ++ rest).
Proof.
  exact (block_statements_are_prefix_of_slot_and_children Sample.chain
           (Sample.blockAtSlot 4) Sample.body (Some (Sample.stats 1))
           (Some 1000) true None SampleLoop.rejectingWorld eq_refl).
Defined.

(** X2.  [persistBlockData] sets [isInFinalizedDb] of the block exactly
    when the database accepts the slot row.  When the row is rejected it
    answers the wrapped error and leaves the world and [*depositIndex] as
    they were; when the row is accepted the block is flagged and the row is
    in the transaction, also when an insert of a child object fails
    afterwards. *)
Theorem block_flagged_exactly_when_slot_row_accepted
    cs block blockBody epochStats depositIndex orphaned overrideForkId w :
  GetBlock block = Some blockBody ->
  let row := slotRowOf block blockBody orphaned overrideForkId in
  exists err depositIndex' w',
    persistBlockData cs block epochStats depositIndex orphaned overrideForkId w
    = Ret (err, depositIndex') w'
    /\ if w_dbFail w (w_tx w) (InsertSlot row) then
         err = Some (Errorf "error inserting slot" (DbError "InsertSlot"))
         /\ depositIndex' = depositIndex
         /\ w' = w
       else
         w_inFinalizedDb w' = Root block :: w_inFinalizedDb w
         /\ exists ops, w_tx w' = w_tx w ++ InsertSlot row :: ops.
Proof.
  intros Hb row.
  pose proof (persistBlockData_any cs block blockBody epochStats depositIndex
                orphaned overrideForkId w Hb) as Hrun.
  cbv zeta in Hrun. fold row in Hrun.
  destruct (w_dbFail w (w_tx w) (InsertSlot row)).
  - eexists _, _, w. split; [exact Hrun|]. auto.
  - destruct Hrun as (err & ops & rest & Hrun & _).
    eexists err, _, _. split; [exact Hrun|].
    split; [reflexivity|]. exists ops. reflexivity.
Qed.

Lemma block_flagged_witness :
  exists err depositIndex' w',
    persistBlockData Sample.chain (Sample.blockAtSlot 4)
      (Some (Sample.stats 1)) (Some 1000) false (Some 0) Sample.world
    = Ret (err, depositIndex') w'
    /\ w_inFinalizedDb w' = [104]
    /\ exists ops,
         w_tx w'
         = InsertSlot (slotRowOf (Sample.blockAtSlot 4) Sample.body false
                         (Some 0)) :: ops.
Proof.
  exact (block_flagged_exactly_when_slot_row_accepted Sample.chain
           (Sample.blockAtSlot 4) Sample.body (Some (Sample.stats 1))
           (Some 1000) false (Some 0) Sample.world eq_refl).
Defined.

(** ** The deposit index of one block *)

Lemma buildDbDeposits_loop_advanced block orphaned overrideForkId deposits :
  forall idx depositIndex,
    (forall d, depositIndex = Some d -> 0 <= d < U64.modulus) ->
    snd (buildDbDeposits_loop block orphaned overrideForkId deposits idx
           depositIndex)
    = advanced (length deposits) depositIndex
    /\ length (fst (buildDbDeposits_loop block orphaned overrideForkId
                      deposits idx depositIndex))
       = length deposits.
Proof.
  induction deposits as [|deposit rest IH]; intros idx di Hdi;
    cbn [buildDbDeposits_loop length].
  - split; [|reflexivity]. destruct di as [d|]; [|reflexivity].
    cbn. rewrite Z.add_0_r, u64_small; auto.
  - specialize (IH (S idx)
                  match di with
                  | Some d => Some (u64 (d + 1))
                  | None => None
                  end).
    destruct (buildDbDeposits_loop block orphaned overrideForkId rest (S idx)
                _) as [rows di'].
    cbn [fst snd length] in *.
    destruct IH as (Hsnd & Hlen).
    { intros d Hd. destruct di as [d0|]; [|discriminate].
      injection Hd as <-. unfold u64, U64.modulus.
      apply Z.mod_pos_bound. lia. }
    split; [|now rewrite Hlen]. rewrite Hsnd.
    destruct di as [d|]; [|reflexivity]. cbn. f_equal.
    unfold u64. rewrite Zplus_mod_idemp_l. f_equal. lia.
Qed.

Lemma buildDbDeposits_advanced block depositIndex orphaned overrideForkId :
  (forall d, depositIndex = Some d -> 0 <= d < U64.modulus) ->
  snd (buildDbDeposits block depositIndex orphaned overrideForkId)
  = advanced (depositCount block) depositIndex
  /\ length (fst (buildDbDeposits block depositIndex orphaned overrideForkId))
     = depositCount block.
Proof.
  intros Hdi. unfold buildDbDeposits, depositCount.
  assert (Hzero : advanced 0 depositIndex = depositIndex).
  { destruct depositIndex as [d|]; [|reflexivity].
    cbn. rewrite Z.add_0_r, u64_small; auto. }
  destruct (GetBlock block) as [body|];
    [|cbn [fst snd length]; now rewrite Hzero].
  destruct (Deposits body) as [deposits|];
    [|cbn [fst snd length dropErr]; now rewrite Hzero].
  now apply buildDbDeposits_loop_advanced.
Qed.

(** X3.  [*depositIndex] after [persistBlockData] on a block with a body:
    as it was when the slot row is rejected, and otherwise advanced by the
    number of deposits of the block, in [uint64] arithmetic, also when the
    insert of the deposits or of a later child object fails.  A [nil]
    pointer stays [nil]. *)
Theorem deposit_index_advances_once_slot_row_is_accepted
    cs block blockBody epochStats depositIndex orphaned overrideForkId w :
  GetBlock block = Some blockBody ->
  (forall d, depositIndex = Some d -> 0 <= d < U64.modulus) ->
  exists err depositIndex' w',
    persistBlockData cs block epochStats depositIndex orphaned overrideForkId w
    = Ret (err, depositIndex') w'
    /\ depositIndex'
       = if w_dbFail w (w_tx w)
              (InsertSlot (slotRowOf block blockBody orphaned overrideForkId))
         then depositIndex
         else advanced (depositCount block) depositIndex.
Proof.
  intros Hb Hdi.
  pose proof (persistBlockData_any cs block blockBody epochStats depositIndex
                orphaned overrideForkId w Hb) as Hrun.
  cbv zeta in Hrun.
  destruct (w_dbFail w (w_tx w) (InsertSlot _)).
  - eexists _, _, w. split; [exact Hrun | reflexivity].
  - destruct Hrun as (err & ops & rest & Hrun & _).
    eexists err, _, _. split; [exact Hrun|].
    now apply buildDbDeposits_advanced.
Qed.

Lemma deposit_index_witness :
  exists err depositIndex' w',
    persistBlockData Sample.chain (Sample.blockAtSlot 4)
      (Some (Sample.stats 1)) (Some 1000) false (Some 0)
      SampleDb.depositsRejected
    = Ret (err, depositIndex') w'
    /\ depositIndex' = Some 1002.
Proof.
  apply (deposit_index_advances_once_slot_row_is_accepted Sample.chain
           (Sample.blockAtSlot 4) Sample.body (Some (Sample.stats 1))
           (Some 1000) false (Some 0) SampleDb.depositsRejected eq_refl).
  intros d [= <-]. unfold U64.modulus. lia.
Defined.

(** ** The rows of one block against a healthy database *)

Section BlockStatementRows.
Variable block : Block.
Variable blockBody : BlockBody.
Variable depositIndex : option Z.
Variable orphaned : bool.
Variable overrideForkId : option Z.

Let ops :=
  persistBlockData_ops block blockBody depositIndex orphaned overrideForkId.

Lemma slotRowsOf_statements :
  slotRowsOf ops = [slotRowOf block blockBody orphaned overrideForkId].
Proof.
  unfold ops, persistBlockData_ops, slotRowsOf.
  cbn [flat_map]. rewrite !flat_map_app.
  rewrite !(flat_map_insertIfAny _ _ _ (fun _ => [])) by reflexivity.
  reflexivity.
Qed.

Lemma depositRowsOf_statements :
  depositRowsOf ops
  = if orphaned
    then map (deposit_with_Orphaned true)
           (fst (buildDbDeposits block depositIndex orphaned overrideForkId))
    else fst (buildDbDeposits block depositIndex orphaned overrideForkId).
Proof.
  unfold ops, persistBlockData_ops, depositRowsOf.
  cbn [flat_map]. rewrite !flat_map_app.
  rewrite (flat_map_insertIfAny InsertDeposits _ _ (fun rows => rows))
    by reflexivity.
  rewrite !(flat_map_insertIfAny _ _ _ (fun _ => [])) by reflexivity.
  now rewrite !app_nil_r.
Qed.

Lemma voluntaryExitRowsOf_statements :
  voluntaryExitRowsOf ops
  = buildDbVoluntaryExits block orphaned overrideForkId.
Proof.
  unfold ops, persistBlockData_ops, voluntaryExitRowsOf.
  cbn [flat_map]. rewrite !flat_map_app.
  rewrite (flat_map_insertIfAny InsertVoluntaryExits _ _ (fun rows => rows))
    by reflexivity.
  rewrite !(flat_map_insertIfAny _ _ _ (fun _ => [])) by reflexivity.
  now rewrite !app_nil_r.
Qed.
End BlockStatementRows.

Lemma length_buildDbVoluntaryExits block blockBody orphaned overrideForkId :
  GetBlock block = Some blockBody ->
  length (buildDbVoluntaryExits block orphaned overrideForkId)
  = length (dropErr (VoluntaryExits blockBody)).
Proof.
  intros Hb. unfold buildDbVoluntaryExits. rewrite Hb.
  destruct (VoluntaryExits blockBody) as [exits|]; [|reflexivity].
  apply length_imap.
Qed.

(** X4.  Against a database that answers no error, the slot row of a block
    with a body counts in [DepositCount] and [ExitCount] exactly the deposit
    rows and the voluntary-exit rows that [persistBlockData] writes for the
    block, orphaned or not; this also holds when an accessor of the body
    fails, where both the count and the rows are none. *)
Theorem slot_row_counts_the_child_rows_written
    cs block blockBody epochStats depositIndex orphaned overrideForkId w :
  dbHealthy w ->
  GetBlock block = Some blockBody ->
  exists depositIndex' w' row,
    persistBlockData cs block epochStats depositIndex orphaned overrideForkId w
    = Ret (None, depositIndex') w'
    /\ slotRowsOf (newTxOps w w') = [row]
    /\ dbtypes.Slot.DepositCount row
       = Z.of_nat (length (depositRowsOf (newTxOps w w')))
    /\ dbtypes.Slot.ExitCount row
       = Z.of_nat (length (voluntaryExitRowsOf (newTxOps w w'))).
Proof.
  intros H Hb.
  destruct (persistBlockData_healthy cs block blockBody epochStats
              depositIndex orphaned overrideForkId w H Hb)
    as (w' & Hrun & Hext).
  eexists _, w', _. split; [exact Hrun|].
  rewrite (extends_newTxOps _ _ _ Hext).
  rewrite slotRowsOf_statements, depositRowsOf_statements,
    voluntaryExitRowsOf_statements.
  split; [reflexivity|].
  rewrite (length_buildDbVoluntaryExits block blockBody) by exact Hb.
  assert (Hlen :
    length (fst (buildDbDeposits block depositIndex orphaned overrideForkId))
    = length (dropErr (Deposits blockBody))).
  { unfold buildDbDeposits. rewrite Hb.
    destruct (Deposits blockBody) as [deposits|]; [|reflexivity].
    cbn [dropErr]. generalize 0%nat as idx. generalize depositIndex as di.
    induction deposits as [|deposit rest IH]; intros di idx;
      cbn [buildDbDeposits_loop length]; [reflexivity|].
    specialize (IH match di with
                   | Some d => Some (u64 (d + 1))
                   | None => None
                   end (S idx)).
    destruct (buildDbDeposits_loop block orphaned overrideForkId rest (S idx)
                _) as [rows di'].
    cbn [fst length] in *. now rewrite IH. }
  split.
  - destruct orphaned; cbn; rewrite ?length_map, Hlen; reflexivity.
  - destruct orphaned; reflexivity.
Qed.

Lemma slot_row_counts_witness :
  exists depositIndex' w' row,
    persistBlockData Sample.chain (SampleDb.blockWithExitsAtSlot 5)
      (Some (Sample.stats 1)) None true None Sample.world
    = Ret (None, depositIndex') w'
    /\ slotRowsOf (newTxOps Sample.world w') = [row]
    /\ dbtypes.Slot.DepositCount row
       = Z.of_nat (length (depositRowsOf (newTxOps Sample.world w')))
    /\ dbtypes.Slot.ExitCount row
       = Z.of_nat (length (voluntaryExitRowsOf (newTxOps Sample.world w'))).
Proof.
  exact (slot_row_counts_the_child_rows_written Sample.chain
           (SampleDb.blockWithExitsAtSlot 5) SampleDb.bodyWithExits
           (Some (Sample.stats 1)) None true None Sample.world
           sample_world_healthy eq_refl).
Defined.

Lemma Forall_imap {A B : Type} (P : B -> Prop) (l : list A) :
  forall f : nat -> A -> B, (forall i x, P (f i x)) -> Forall P (imap f l).
Proof.
  induction l as [|x l IH]; intros f Hf; cbn [imap]; constructor.
  - apply Hf.
  - apply IH. intros i y. apply Hf.
Qed.

Lemma Forall_buildDbDeposits_loop (P : dbtypes.Deposit.t -> Prop) block
    orphaned overrideForkId deposits :
  (forall index idx deposit,
     P {| dbtypes.Deposit.Index := index;
          dbtypes.Deposit.SlotNumber := Slot block;
          dbtypes.Deposit.SlotIndex := Z.of_nat idx;
          dbtypes.Deposit.SlotRoot := Root block;
          dbtypes.Deposit.Orphaned := orphaned;
          dbtypes.Deposit.ForkId := rowForkId block overrideForkId;
          dbtypes.Deposit.PublicKey :=
            phase0.PublicKey (phase0.Data deposit);
          dbtypes.Deposit.WithdrawalCredentials :=
            phase0.WithdrawalCredentials (phase0.Data deposit);
          dbtypes.Deposit.Amount := phase0.Amount (phase0.Data deposit) |}) ->
  forall idx depositIndex,
    Forall P (fst (buildDbDeposits_loop block orphaned overrideForkId deposits
                     idx depositIndex)).
Proof.
  intros HP. induction deposits as [|deposit rest IH]; intros idx di;
    cbn [buildDbDeposits_loop]; [constructor|].
  specialize (IH (S idx)
                match di with
                | Some d => Some (u64 (d + 1))
                | None => None
                end).
  destruct (buildDbDeposits_loop block orphaned overrideForkId rest (S idx) _)
    as [rows di'].
  cbn [fst] in *. constructor; [apply HP | exact IH].
Qed.

(** X5.  Against a database that answers no error, the rows
    [persistBlockData] writes for a block with a body carry the orphaned
    flag and the fork id of the call: the slot row has status Orphaned when
    [orphaned] is set and Canonical otherwise, every deposit row and every
    voluntary-exit row has [Orphaned = orphaned], and all of them have the
    override fork id when there is one and the fork id of the block
    otherwise. *)
Theorem block_rows_carry_orphaned_flag_and_fork_id
    cs block blockBody epochStats depositIndex orphaned overrideForkId w :
  dbHealthy w ->
  GetBlock block = Some blockBody ->
  exists depositIndex' w' row,
    persistBlockData cs block epochStats depositIndex orphaned overrideForkId w
    = Ret (None, depositIndex') w'
    /\ slotRowsOf (newTxOps w w') = [row]
    /\ dbtypes.Slot.Status row
       = (if orphaned then dbtypes.Orphaned else dbtypes.Canonical)
    /\ dbtypes.Slot.ForkId row = rowForkId block overrideForkId
    /\ Forall (fun r => dbtypes.Deposit.Orphaned r = orphaned
                        /\ dbtypes.Deposit.ForkId r
                           = rowForkId block overrideForkId
                        /\ dbtypes.Deposit.SlotNumber r = Slot block
                        /\ dbtypes.Deposit.SlotRoot r = Root block)
              (depositRowsOf (newTxOps w w'))
    /\ Forall (fun r => dbtypes.VoluntaryExit.Orphaned r = orphaned
                        /\ dbtypes.VoluntaryExit.ForkId r
                           = rowForkId block overrideForkId
                        /\ dbtypes.VoluntaryExit.SlotNumber r = Slot block
                        /\ dbtypes.VoluntaryExit.SlotRoot r = Root block)
              (voluntaryExitRowsOf (newTxOps w w')).
Proof.
  intros H Hb.
  destruct (persistBlockData_healthy cs block blockBody epochStats
              depositIndex orphaned overrideForkId w H Hb)
    as (w' & Hrun & Hext).
  eexists _, w', _. split; [exact Hrun|].
  rewrite (extends_newTxOps _ _ _ Hext).
  rewrite slotRowsOf_statements, depositRowsOf_statements,
    voluntaryExitRowsOf_statements.
  split; [reflexivity|].
  split; [destruct orphaned; reflexivity|].
  split; [destruct orphaned; reflexivity|].
  split.
  - assert (Hrows :
      Forall (fun r => dbtypes.Deposit.Orphaned r = orphaned
                       /\ dbtypes.Deposit.ForkId r
                          = rowForkId block overrideForkId
                       /\ dbtypes.Deposit.SlotNumber r = Slot block
                       /\ dbtypes.Deposit.SlotRoot r = Root block)
             (fst (buildDbDeposits block depositIndex orphaned
                     overrideForkId))).
    { unfold buildDbDeposits. rewrite Hb.
      destruct (Deposits blockBody) as [deposits|]; [|constructor].
      apply Forall_buildDbDeposits_loop. cbn. auto. }
    destruct orphaned; [|exact Hrows].
    apply List.Forall_map. eapply Forall_impl; [exact Hrows|].
    cbn. intros r (_ & Hf & Hs & Hr). auto.
  - unfold buildDbVoluntaryExits. rewrite Hb.
    destruct (VoluntaryExits blockBody) as [exits|]; [|constructor].
    apply Forall_imap. cbn. auto.
Qed.

Lemma block_rows_flag_witness :
  exists depositIndex' w' row,
    persistBlockData Sample.chain (SampleDb.blockWithExitsAtSlot 5)
      (Some (Sample.stats 1)) None true None Sample.world
    = Ret (None, depositIndex') w'
    /\ slotRowsOf (newTxOps Sample.world w') = [row]
    /\ dbtypes.Slot.Status row = dbtypes.Orphaned
    /\ dbtypes.Slot.ForkId row = 5
    /\ Forall (fun r => dbtypes.Deposit.Orphaned r = true
                        /\ dbtypes.Deposit.ForkId r = 5
                        /\ dbtypes.Deposit.SlotNumber r = 5
                        /\ dbtypes.Deposit.SlotRoot r = 105)
              (depositRowsOf (newTxOps Sample.world w'))
    /\ Forall (fun r => dbtypes.VoluntaryExit.Orphaned r = true
                        /\ dbtypes.VoluntaryExit.ForkId r = 5
                        /\ dbtypes.VoluntaryExit.SlotNumber r = 5
                        /\ dbtypes.VoluntaryExit.SlotRoot r = 105)
              (voluntaryExitRowsOf (newTxOps Sample.world w')).
Proof.
  exact (block_rows_carry_orphaned_flag_and_fork_id Sample.chain
           (SampleDb.blockWithExitsAtSlot 5) SampleDb.bodyWithExits
           (Some (Sample.stats 1)) None true None Sample.world
           sample_world_healthy eq_refl).
Defined.

(** ** An epoch against a database that rejects statements of blocks *)

Lemma acceptsEpochRows_extends ops w w' :
  extends ops w w' -> acceptsEpochRows w -> acceptsEpochRows w'.
Proof. intros (_ & Hf & _) H tx op. rewrite Hf. apply H. Qed.

Lemma dbHealthy_acceptsEpochRows w : dbHealthy w -> acceptsEpochRows w.
Proof. intros H tx op. destruct op; auto. Qed.

Lemma persistMissedSlots_loop_accepting blocks epochStatsValues firstSlot
    (n : nat) :
  forall fuel lastSlot slot blockIdx w,
    acceptsEpochRows w ->
    (n < fuel)%nat ->
    0 <= firstSlot <= slot ->
    slot + Z.of_nat n < U64.modulus ->
    lastSlot = slot + Z.of_nat n ->
    lastSlot - firstSlot <= MaxInt64 ->
    match epochStatsValues with
    | Some v => lastSlot - firstSlot <= Z.of_nat (length (ProposerDuties v))
    | None => True
    end ->
    persistMissedSlots_loop fuel blocks epochStatsValues firstSlot lastSlot
      slot blockIdx w
    = Ret None
        (addOps
           (map InsertMissingSlot
              (missedOf epochStatsValues firstSlot
                 (slotWalk blocks n slot blockIdx))) w).
Proof.
  induction n as [|n IH];
    intros fuel lastSlot slot blockIdx w H Hfuel Hslot Hmax -> Hint Hduty;
    (destruct fuel as [|fuel]; [lia|]);
    cbn [persistMissedSlots_loop slotWalk].
  - destruct (Z.ltb_spec slot (slot + Z.of_nat 0)); [lia|].
    cbn [missedOf flat_map map]. now rewrite addOps_nil.
  - destruct (Z.ltb_spec slot (slot + Z.of_nat (S n))); [|lia].
    rewrite (u64_small (slot + 1)) by lia.
    assert (Hlast : slot + Z.of_nat (S n) = slot + 1 + Z.of_nat n) by lia.
    destruct (blockAt blocks blockIdx slot) as [b|];
      cbn [missedOf flat_map snd fst app map].
    + fold (missedOf epochStatsValues firstSlot
              (slotWalk blocks n (slot + 1) (S blockIdx))).
      apply IH; auto; lia.
    + fold (missedOf epochStatsValues firstSlot
              (slotWalk blocks n (slot + 1) blockIdx)).
      assert (Hproposer :
        match epochStatsValues with
        | None => mret MaxInt64
        | Some v =>
            match index_at (ProposerDuties v)
                           (to_int (u64 (slot - firstSlot))) with
            | Some p => mret p
            | None => panic IndexOutOfRange
            end
        end w
        = Ret (knownProposer epochStatsValues (slot - firstSlot)) w).
      { unfold knownProposer. destruct epochStatsValues as [v|];
          [|reflexivity].
        rewrite (u64_small (slot - firstSlot)) by lia.
        unfold to_int, MaxInt64, U64.modulus in *.
        destruct (Z.ltb_spec (slot - firstSlot) (2 ^ 63)); [|lia].
        unfold index_at.
        destruct (Z.ltb_spec (slot - firstSlot) 0); [lia|].
        rewrite (nth_error_nth' _ 0) by lia. reflexivity. }
      unfold mbind at 1. unfold M_bind at 1. rewrite Hproposer.
      unfold mbind at 1. unfold M_bind at 1.
      unfold db.InsertMissingSlot, dbExec.
      rewrite (H (w_tx w) (InsertMissingSlot _)).
      fold (addOps [InsertMissingSlot
                      (missedSlot slot
                         (knownProposer epochStatsValues (slot - firstSlot)))]
              w).
      rewrite (IH fuel (slot + Z.of_nat (S n)) (slot + 1) blockIdx)
        by (first [lia | auto
                  | eapply acceptsEpochRows_extends;
                    [apply extends_addOps | exact H]]).
      now rewrite addOps_addOps.
Qed.

(** A run of [persistEpochData] against a database that accepts the rows
    of missed slots and of epochs answers no error, whatever happens to the
    statements of its blocks. *)
Lemma persistEpochData_in_accepting cs epoch blocks epochStats epochVotes w :
  acceptsEpochRows w ->
  epochInRange cs epoch ->
  dutiesCover cs epochStats ->
  let epochStatsValues := GetValues cs epochStats in
  let firstSlot := EpochStartSlot cs epoch in
  let walk :=
    slotWalk blocks (Z.to_nat (SlotsPerEpoch (GetSpecs cs))) firstSlot 0%nat in
  exists blockOps w',
    persistEpochData_in cs epoch blocks epochStats epochVotes w = Ret None w'
    /\ Forall isBlockOp blockOps
    /\ extends
         (blockOps
          ++ map InsertMissingSlot (missedOf epochStatsValues firstSlot walk)
          ++ [InsertEpoch
                (epochTotals (takenBlocks walk)
                   (newDbEpoch epoch epochVotes epochStatsValues))])
         w w'.
Proof.
  intros H Hrange Hduties vals firstSlot walk.
  destruct (EpochStartSlot_inRange cs epoch Hrange) as (Hfirst & Hfirst0).
  destruct Hrange as ((Hpos & Hint) & Hepoch & Hmax).
  rewrite <- Hfirst in Hmax. fold firstSlot in Hmax, Hfirst0.
  set (spe := SlotsPerEpoch (GetSpecs cs)) in *.
  assert (Hvals :
    match epochStats with
    | Some _ => GetValues cs epochStats
    | None => None
    end = vals) by (destruct epochStats; reflexivity).
  unfold persistEpochData_in, buildDbEpoch. rewrite Hvals.
  fold spe firstSlot.
  rewrite (u64_small (firstSlot + spe - 1)) by lia.
  destruct (buildDbEpoch_loop_any cs epochStats blocks (Z.to_nat spe)
              (S (Z.to_nat spe)) (firstSlot + spe - 1) firstSlot 0%nat
              (FirstDepositIndex <$> vals)
              (newDbEpoch epoch epochVotes vals) w)
    as (ops1 & w1 & Hloop & Hext1 & HP1); [lia | lia | lia | lia |].
  unfold mbind at 1. unfold M_bind at 1.
  change (match vals with
          | Some v => Some (FirstDepositIndex v)
          | None => None
          end) with (FirstDepositIndex <$> vals).
  rewrite Hloop.
  unfold mbind at 1. unfold M_bind at 1.
  unfold persistMissedSlots. fold spe firstSlot vals.
  rewrite (u64_small (firstSlot + spe)) by lia.
  assert (H1 : acceptsEpochRows w1)
    by (eapply acceptsEpochRows_extends; eauto).
  rewrite (persistMissedSlots_loop_accepting blocks vals firstSlot
             (Z.to_nat spe)).
  - cbn [orReturn]. unfold mbind at 1. unfold M_bind at 1.
    unfold db.InsertEpoch, dbExec.
    rewrite w_dbFail_addOps, (H1 _ (InsertEpoch _)).
    exists ops1. eexists. split; [reflexivity|]. split; [exact HP1|].
    fold walk. eapply extends_trans; [exact Hext1|].
    fold (addOps [InsertEpoch
                    (epochTotals (takenBlocks walk)
                       (newDbEpoch epoch epochVotes vals))]
            (addOps (map InsertMissingSlot (missedOf vals firstSlot walk))
               w1)).
    rewrite addOps_addOps. apply extends_addOps.
  - exact H1.
  - lia.
  - lia.
  - lia.
  - lia.
  - unfold MaxInt64 in *. lia.
  - unfold dutiesCover in Hduties. fold spe vals in Hduties.
    destruct vals; [lia | exact I].
Qed.

Lemma persistEpochData_accepting tx cs epoch blocks epochStats epochVotes w :
  acceptsEpochRows w ->
  epochInRange cs epoch ->
  dutiesCover cs epochStats ->
  let epochStatsValues := GetValues cs epochStats in
  let firstSlot := EpochStartSlot cs epoch in
  let walk :=
    slotWalk blocks (Z.to_nat (SlotsPerEpoch (GetSpecs cs))) firstSlot 0%nat in
  exists blockOps w',
    persistEpochData tx cs epoch blocks epochStats epochVotes w = Ret None w'
    /\ Forall isBlockOp blockOps
    /\ persistedOps tx w w'
       = blockOps
         ++ map InsertMissingSlot (missedOf epochStatsValues firstSlot walk)
         ++ [InsertEpoch
               (epochTotals (takenBlocks walk)
                  (newDbEpoch epoch epochVotes epochStatsValues))].
Proof.
  intros H Hrange Hduties vals firstSlot walk.
  destruct tx as [tx|]; cbn [persistEpochData].
  - destruct (persistEpochData_in_accepting cs epoch blocks epochStats
                epochVotes w H Hrange Hduties)
      as (blockOps & w' & Hrun & HP & Hext).
    exists blockOps, w'. split; [exact Hrun|]. split; [exact HP|].
    cbn [persistedOps]. now apply extends_newTxOps.
  - assert (H0 : acceptsEpochRows (set_tx [] w)) by (intros ? ?; apply H).
    destruct (persistEpochData_in_accepting cs epoch blocks epochStats
                epochVotes (set_tx [] w) H0 Hrange Hduties)
      as (blockOps & w' & Hrun & HP & Htx & _ & Hc).
    unfold db.RunDBTransaction. rewrite Hrun.
    exists blockOps. eexists. split; [reflexivity|]. split; [exact HP|].
    cbn [persistedOps w_committed set_tx set_committed].
    rewrite Hc, Htx. cbn [w_committed set_tx w_tx app].
    apply drop_app_length.
Qed.

Lemma epoch_and_missed_rows_of_statements blockOps missed dbEpoch :
  Forall isBlockOp blockOps ->
  epochRowsOf
    (blockOps ++ map InsertMissingSlot missed ++ [InsertEpoch dbEpoch])
  = [dbEpoch]
  /\ missedSlotRowsOf
       (blockOps ++ map InsertMissingSlot missed ++ [InsertEpoch dbEpoch])
     = missed.
Proof.
  intros HP. destruct (blockOps_rows blockOps HP) as (_ & Hmissed & Hepoch & _).
  rewrite !epochRowsOf_app, !missedSlotRowsOf_app, Hmissed, Hepoch.
  unfold epochRowsOf at 1, missedSlotRowsOf at 1.
  rewrite (flat_map_InsertMissingSlot _ (fun _ => [])) by reflexivity.
  rewrite (flat_map_InsertMissingSlot _ (fun h => [h])) by reflexivity.
  rewrite flat_map_nil, flat_map_singleton. cbn. now rewrite app_nil_r.
Qed.

(** X6.  A statement of a canonical block that the database rejects does
    not fail the epoch.  Against a database that accepts the rows of missed
    slots and the epoch row, [persistEpochData] answers no error whatever
    happens to the statements of its blocks, and it writes the same epoch
    row and the same rows of missed slots as against a database that
    rejects nothing. *)
Theorem rejected_block_statements_do_not_fail_the_epoch
    tx cs epoch blocks epochStats epochVotes w healthy :
  acceptsEpochRows w ->
  dbHealthy healthy ->
  epochInRange cs epoch ->
  dutiesCover cs epochStats ->
  exists w' healthy',
    persistEpochData tx cs epoch blocks epochStats epochVotes w = Ret None w'
    /\ persistEpochData tx cs epoch blocks epochStats epochVotes healthy
       = Ret None healthy'
    /\ epochRowsOf (persistedOps tx w w')
       = epochRowsOf (persistedOps tx healthy healthy')
    /\ length (epochRowsOf (persistedOps tx w w')) = 1%nat
    /\ missedSlotRowsOf (persistedOps tx w w')
       = missedSlotRowsOf (persistedOps tx healthy healthy').
Proof.
  intros H Hh Hrange Hduties.
  destruct (persistEpochData_accepting tx cs epoch blocks epochStats
              epochVotes w H Hrange Hduties)
    as (ops1 & w' & Hrun1 & HP1 & Hops1).
  destruct (persistEpochData_accepting tx cs epoch blocks epochStats
              epochVotes healthy (dbHealthy_acceptsEpochRows _ Hh) Hrange
              Hduties)
    as (ops2 & h' & Hrun2 & HP2 & Hops2).
  exists w', h'. split; [exact Hrun1|]. split; [exact Hrun2|].
  rewrite Hops1, Hops2.
  match goal with
  | |- context [ops1 ++ map InsertMissingSlot ?m ++ [InsertEpoch ?e]] =>
      destruct (epoch_and_missed_rows_of_statements ops1 m e HP1) as (-> & ->);
      destruct (epoch_and_missed_rows_of_statements ops2 m e HP2) as (-> & ->)
  end.
  auto.
Qed.

Lemma sample_blocksRejected_accepts : acceptsEpochRows SampleDb.blocksRejected.
Proof. intros tx op. destruct op; reflexivity. Qed.

Lemma rejected_block_statements_witness :
  exists w' healthy',
    persistEpochData None Sample.chain 1
      [Sample.blockAtSlot 4; Sample.blockAtSlot 6] (Some (Sample.stats 1))
      None SampleDb.blocksRejected = Ret None w'
    /\ persistEpochData None Sample.chain 1
         [Sample.blockAtSlot 4; Sample.blockAtSlot 6] (Some (Sample.stats 1))
         None Sample.world = Ret None healthy'
    /\ epochRowsOf (persistedOps None SampleDb.blocksRejected w')
       = epochRowsOf (persistedOps None Sample.world healthy')
    /\ length (epochRowsOf (persistedOps None SampleDb.blocksRejected w'))
       = 1%nat
    /\ missedSlotRowsOf (persistedOps None SampleDb.blocksRejected w')
       = missedSlotRowsOf (persistedOps None Sample.world healthy').
Proof.
  exact (rejected_block_statements_do_not_fail_the_epoch None Sample.chain 1
           [Sample.blockAtSlot 4; Sample.blockAtSlot 6]
           (Some (Sample.stats 1)) None SampleDb.blocksRejected Sample.world
           sample_blocksRejected_accepts sample_world_healthy
           sample_epoch_inRange sample_duties_cover).
Defined.

(** ** An epoch without a transaction of the caller *)

(** Whatever the database does, the loop of [persistMissedSlots] answers
    and only appends to the open transaction. *)
Lemma persistMissedSlots_loop_frame blocks epochStatsValues firstSlot
    (n : nat) :
  forall fuel lastSlot slot blockIdx w,
    (n < fuel)%nat ->
    0 <= firstSlot <= slot ->
    slot + Z.of_nat n < U64.modulus ->
    lastSlot = slot + Z.of_nat n ->
    lastSlot - firstSlot <= MaxInt64 ->
    match epochStatsValues with
    | Some v => lastSlot - firstSlot <= Z.of_nat (length (ProposerDuties v))
    | None => True
    end ->
    exists err ops w',
      persistMissedSlots_loop fuel blocks epochStatsValues firstSlot lastSlot
        slot blockIdx w = Ret err w'
      /\ extends ops w w'
      /\ (err = None
          \/ err = Some (Errorf "error while adding missed slot to db"
                                (DbError "InsertMissingSlot"))).
Proof.
  induction n as [|n IH];
    intros fuel lastSlot slot blockIdx w Hfuel Hslot Hmax -> Hint Hduty;
    (destruct fuel as [|fuel]; [lia|]);
    cbn [persistMissedSlots_loop].
  - destruct (Z.ltb_spec slot (slot + Z.of_nat 0)); [lia|].
    exists None, [], w. split; [reflexivity|].
    split; [apply extends_refl | now left].
  - destruct (Z.ltb_spec slot (slot + Z.of_nat (S n))); [|lia].
    rewrite (u64_small (slot + 1)) by lia.
    assert (Hlast : slot + Z.of_nat (S n) = slot + 1 + Z.of_nat n) by lia.
    destruct (blockAt blocks blockIdx slot) as [b|].
    + apply IH; auto; lia.
    + assert (Hproposer :
        match epochStatsValues with
        | None => mret MaxInt64
        | Some v =>
            match index_at (ProposerDuties v)
                           (to_int (u64 (slot - firstSlot))) with
            | Some p => mret p
            | None => panic IndexOutOfRange
            end
        end w
        = Ret (knownProposer epochStatsValues (slot - firstSlot)) w).
      { unfold knownProposer. destruct epochStatsValues as [v|];
          [|reflexivity].
        rewrite (u64_small (slot - firstSlot)) by lia.
        unfold to_int, MaxInt64, U64.modulus in *.
        destruct (Z.ltb_spec (slot - firstSlot) (2 ^ 63)); [|lia].
        unfold index_at.
        destruct (Z.ltb_spec (slot - firstSlot) 0); [lia|].
        rewrite (nth_error_nth' _ 0) by lia. reflexivity. }
      unfold mbind at 1. unfold M_bind at 1. rewrite Hproposer.
      unfold mbind at 1. unfold M_bind at 1.
      unfold db.InsertMissingSlot, dbExec.
      destruct (w_dbFail w (w_tx w) _).
      * eexists _, [], w. split; [reflexivity|].
        split; [apply extends_refl | now right].
      * destruct (IH fuel (slot + Z.of_nat (S n)) (slot + 1) blockIdx
                    (set_tx (w_tx w ++
                             [InsertMissingSlot
                                (missedSlot slot
                                   (knownProposer epochStatsValues
                                      (slot - firstSlot)))]) w))
          as (err & ops & w' & Hloop & Hext & Herr);
          [lia | lia | lia | lia | lia | auto |].
        exists err. eexists. exists w'. split; [exact Hloop|].
        split; [|exact Herr].
        exact (extends_trans [_] _ _ _ _ (extends_addOps _ w) Hext).
Qed.

Lemma persistEpochData_in_frame cs epoch blocks epochStats epochVotes w :
  epochInRange cs epoch ->
  dutiesCover cs epochStats ->
  exists err ops w',
    persistEpochData_in cs epoch blocks epochStats epochVotes w = Ret err w'
    /\ extends ops w w'
    /\ (err = None
        \/ err = Some (Errorf "error while adding missed slot to db"
                              (DbError "InsertMissingSlot"))
        \/ err = Some (Errorf "error while saving epoch to db"
                              (DbError "InsertEpoch"))).
Proof.
  intros Hrange Hduties.
  destruct (EpochStartSlot_inRange cs epoch Hrange) as (Hfirst & Hfirst0).
  destruct Hrange as ((Hpos & Hint) & Hepoch & Hmax).
  rewrite <- Hfirst in Hmax.
  set (firstSlot := EpochStartSlot cs epoch) in *.
  set (vals := GetValues cs epochStats).
  set (spe := SlotsPerEpoch (GetSpecs cs)) in *.
  assert (Hvals :
    match epochStats with
    | Some _ => GetValues cs epochStats
    | None => None
    end = vals) by (destruct epochStats; reflexivity).
  unfold persistEpochData_in, buildDbEpoch. rewrite Hvals.
  fold spe firstSlot.
  rewrite (u64_small (firstSlot + spe - 1)) by lia.
  destruct (buildDbEpoch_loop_any cs epochStats blocks (Z.to_nat spe)
              (S (Z.to_nat spe)) (firstSlot + spe - 1) firstSlot 0%nat
              (FirstDepositIndex <$> vals)
              (newDbEpoch epoch epochVotes vals) w)
    as (ops1 & w1 & Hloop & Hext1 & HP1); [lia | lia | lia | lia |].
  unfold mbind at 1. unfold M_bind at 1.
  change (match vals with
          | Some v => Some (FirstDepositIndex v)
          | None => None
          end) with (FirstDepositIndex <$> vals).
  rewrite Hloop.
  unfold mbind at 1. unfold M_bind at 1.
  unfold persistMissedSlots. fold spe firstSlot vals.
  rewrite (u64_small (firstSlot + spe)) by lia.
  destruct (persistMissedSlots_loop_frame blocks vals firstSlot (Z.to_nat spe)
              (S (Z.to_nat spe)) (firstSlot + spe) firstSlot 0%nat w1)
    as (err & ops2 & w2 & Hmissed & Hext2 & Herr).
  - lia.
  - lia.
  - lia.
  - lia.
  - unfold MaxInt64 in *. lia.
  - unfold dutiesCover in Hduties. fold spe vals in Hduties.
    destruct vals; [lia | exact I].
  - rewrite Hmissed. destruct err as [e|]; cbn [orReturn].
    + eexists _, _, _. split; [reflexivity|].
      split; [eapply extends_trans; eauto|].
      destruct Herr as [Herr|Herr]; [discriminate | auto].
    + unfold mbind at 1. unfold M_bind at 1. unfold db.InsertEpoch, dbExec.
      destruct (w_dbFail w2 (w_tx w2) _).
      * eexists _, _, _. split; [reflexivity|].
        split; [eapply extends_trans; eauto | auto].
      * eexists _, _, _. split; [reflexivity|].
        split; [|auto].
        eapply extends_trans; [eapply extends_trans; eauto|].
        apply (extends_addOps [_] w2).
Qed.

(** X7.  With a [nil] transaction, [persistEpochData] runs inside
    [db.RunDBTransaction]: a run that answers an error commits nothing,
    although statements of its blocks and rows of missed slots may have
    been executed before the failing one, and a run that answers no error
    commits its statements behind those committed before.  The open
    transaction of the caller is as it was in both cases. *)
Theorem failed_epoch_without_transaction_commits_nothing
    cs epoch blocks epochStats epochVotes w :
  epochInRange cs epoch ->
  dutiesCover cs epochStats ->
  exists err w',
    persistEpochData None cs epoch blocks epochStats epochVotes w = Ret err w'
    /\ w_tx w' = w_tx w
    /\ match err with
       | Some _ => w_committed w' = w_committed w
       | None =>
           exists ops,
             w_committed w' = w_committed w ++ ops
             /\ epochRowsOf ops <> []
       end.
Proof.
  intros Hrange Hduties. cbn [persistEpochData]. unfold db.RunDBTransaction.
  destruct (persistEpochData_in_any cs epoch blocks epochStats epochVotes
              (set_tx [] w) Hrange Hduties) as (err & w' & Hrun & Hops).
  rewrite Hrun. destruct err as [e|].
  - eexists _, _. split; [reflexivity|]. split; [reflexivity|].
    destruct (persistEpochData_in_frame cs epoch blocks epochStats epochVotes
                (set_tx [] w) Hrange Hduties)
      as (err' & ops & w'' & Hrun' & (_ & _ & Hc) & _).
    rewrite Hrun in Hrun'. injection Hrun' as _ <-. exact Hc.
  - destruct (Hops eq_refl) as (blockOps & HP & Htx & _ & Hc).
    eexists _, _. split; [reflexivity|]. split; [reflexivity|].
    eexists. cbn [w_committed set_tx set_committed].
    rewrite Hc, Htx. cbn [w_committed set_tx w_tx app].
    split; [reflexivity|].
    match goal with
    | |- epochRowsOf (blockOps ++ map InsertMissingSlot ?m
                      ++ [InsertEpoch ?e]) <> [] =>
        destruct (epoch_and_missed_rows_of_statements blockOps m e HP)
          as (-> & _)
    end.
    discriminate.
Qed.

Lemma failed_epoch_witness :
  exists err w',
    persistEpochData None Sample.chain 1
      [Sample.blockAtSlot 4; Sample.blockAtSlot 6] (Some (Sample.stats 1))
      None SampleDb.epochRowsRejected = Ret err w'
    /\ w_tx w' = []
    /\ match err with
       | Some _ => w_committed w' = []
       | None =>
           exists ops, w_committed w' = [] ++ ops /\ epochRowsOf ops <> []
       end.
Proof.
  exact (failed_epoch_without_transaction_commits_nothing Sample.chain 1
           [Sample.blockAtSlot 4; Sample.blockAtSlot 6]
           (Some (Sample.stats 1)) None SampleDb.epochRowsRejected
           sample_epoch_inRange sample_duties_cover).
Defined.

(** ** The aggregates of an epoch *)

(** A counter of the epoch row that the aggregation raises by [count] for
    every block with a body. *)
Lemma epochTotals_counter (get : dbtypes.Epoch.t -> Z)
    (count : BlockBody -> Z) taken :
  (forall e, get (epoch_incBlockCount e) = get e) ->
  (forall body e, get (epoch_addBody body e) = u64 (get e + count body)) ->
  forall e,
    0 <= get e < U64.modulus ->
    get (epochTotals taken e)
    = u64 (get e + sumZ (map (fun p => count (snd p)) (withBody taken))).
Proof.
  intros Hinc Hadd.
  induction taken as [|b rest IH]; intros e He; cbn [epochTotals withBody].
  - cbn. rewrite Z.add_0_r. symmetry. now apply u64_small.
  - destruct (GetBlock b) as [body|].
    + rewrite IH.
      * cbn [map snd]. rewrite sumZ_cons, Hadd, Hinc.
        unfold u64. rewrite Zplus_mod_idemp_l. f_equal. lia.
      * rewrite Hadd. unfold u64, U64.modulus. apply Z.mod_pos_bound. lia.
    + rewrite IH; rewrite Hinc; [reflexivity | exact He].
Qed.

(** X8.  Against a database that answers no error, the epoch row of
    [persistEpochData] counts deposits, voluntary exits, attester
    slashings, proposer slashings and BLS changes as the slot rows of the
    run do: each of the five counters is the sum, in [uint64] arithmetic, of
    the counter of the same name over the slot rows written for the
    epoch. *)
Theorem epoch_counters_are_sums_over_slot_rows
    tx cs epoch blocks epochStats epochVotes w :
  dbHealthy w ->
  epochInRange cs epoch ->
  dutiesCover cs epochStats ->
  exists w' dbEpoch,
    persistEpochData tx cs epoch blocks epochStats epochVotes w = Ret None w'
    /\ epochRowsOf (persistedOps tx w w') = [dbEpoch]
    /\ dbtypes.Epoch.DepositCount dbEpoch
       = u64 (sumZ (map dbtypes.Slot.DepositCount
                        (slotRowsOf (persistedOps tx w w'))))
    /\ dbtypes.Epoch.ExitCount dbEpoch
       = u64 (sumZ (map dbtypes.Slot.ExitCount
                        (slotRowsOf (persistedOps tx w w'))))
    /\ dbtypes.Epoch.AttesterSlashingCount dbEpoch
       = u64 (sumZ (map dbtypes.Slot.AttesterSlashingCount
                        (slotRowsOf (persistedOps tx w w'))))
    /\ dbtypes.Epoch.ProposerSlashingCount dbEpoch
       = u64 (sumZ (map dbtypes.Slot.ProposerSlashingCount
                        (slotRowsOf (persistedOps tx w w'))))
    /\ dbtypes.Epoch.BLSChangeCount dbEpoch
       = u64 (sumZ (map dbtypes.Slot.BLSChangeCount
                        (slotRowsOf (persistedOps tx w w')))).
Proof.
  intros H Hrange Hduties.
  destruct (persistEpochData_healthy tx cs epoch blocks epochStats epochVotes
              w H Hrange Hduties) as (w' & Hrun & Hops).
  eexists w', _. split; [exact Hrun|]. rewrite Hops.
  split; [apply epochRowsOf_epochStatements|].
  rewrite slotRowsOf_epochStatements, !map_map.
  repeat split.
  - rewrite (epochTotals_counter dbtypes.Epoch.DepositCount
               (fun body => Z.of_nat (length (dropErr (Deposits body)))));
      [reflexivity | reflexivity | reflexivity |].
    cbn. unfold U64.modulus. lia.
  - rewrite (epochTotals_counter dbtypes.Epoch.ExitCount
               (fun body => Z.of_nat (length (dropErr (VoluntaryExits body)))));
      [reflexivity | reflexivity | reflexivity |].
    cbn. unfold U64.modulus. lia.
  - rewrite (epochTotals_counter dbtypes.Epoch.AttesterSlashingCount
               (fun body =>
                  Z.of_nat (length (dropErr (AttesterSlashings body)))));
      [reflexivity | reflexivity | reflexivity |].
    cbn. unfold U64.modulus. lia.
  - rewrite (epochTotals_counter dbtypes.Epoch.ProposerSlashingCount
               (fun body =>
                  Z.of_nat (length (dropErr (ProposerSlashings body)))));
      [reflexivity | reflexivity | reflexivity |].
    cbn. unfold U64.modulus. lia.
  - rewrite (epochTotals_counter dbtypes.Epoch.BLSChangeCount
               (fun body => Z.of_nat (length (BLSToExecutionChanges body))));
      [reflexivity | reflexivity | reflexivity |].
    cbn. unfold U64.modulus. lia.
Qed.

Lemma epoch_counters_witness :
  exists w' dbEpoch,
    persistEpochData (Some OpenTx) Sample.chain 1
      [Sample.blockAtSlot 4; SampleDb.blockWithExitsAtSlot 6]
      (Some (Sample.stats 1)) None Sample.world = Ret None w'
    /\ epochRowsOf (persistedOps (Some OpenTx) Sample.world w') = [dbEpoch]
    /\ dbtypes.Epoch.DepositCount dbEpoch
       = u64 (sumZ (map dbtypes.Slot.DepositCount
                        (slotRowsOf
                           (persistedOps (Some OpenTx) Sample.world w'))))
    /\ dbtypes.Epoch.ExitCount dbEpoch
       = u64 (sumZ (map dbtypes.Slot.ExitCount
                        (slotRowsOf
                           (persistedOps (Some OpenTx) Sample.world w'))))
    /\ dbtypes.Epoch.AttesterSlashingCount dbEpoch
       = u64 (sumZ (map dbtypes.Slot.AttesterSlashingCount
                        (slotRowsOf
                           (persistedOps (Some OpenTx) Sample.world w'))))
    /\ dbtypes.Epoch.ProposerSlashingCount dbEpoch
       = u64 (sumZ (map dbtypes.Slot.ProposerSlashingCount
                        (slotRowsOf
                           (persistedOps (Some OpenTx) Sample.world w'))))
    /\ dbtypes.Epoch.BLSChangeCount dbEpoch
       = u64 (sumZ (map dbtypes.Slot.BLSChangeCount
                        (slotRowsOf
                           (persistedOps (Some OpenTx) Sample.world w')))).
Proof.
  exact (epoch_counters_are_sums_over_slot_rows (Some OpenTx) Sample.chain 1
           [Sample.blockAtSlot 4; SampleDb.blockWithExitsAtSlot 6]
           (Some (Sample.stats 1)) None Sample.world
           sample_world_healthy sample_epoch_inRange sample_duties_cover).
Defined.

Lemma withBody_roots blocks :
  map (fun p => Root (fst p)) (withBody blocks)
  = map Root (List.filter hasBody blocks).
Proof.
  induction blocks as [|b rest IH]; cbn [withBody List.filter];
    [reflexivity|].
  unfold hasBody at 1. destruct (GetBlock b); cbn [map fst]; now rewrite IH.
Qed.

(** X9.  A canonical block whose body is not loaded is counted and gets no
    row.  Against a database that answers no error and for a block list
    that is strictly ascending by slot and lies in the epoch, the epoch row
    counts every block of the list in [BlockCount], slot rows are written
    for the blocks with a body only, in the order of the list, and no slot
    of a block of the list, with or without a body, gets a row with status
    Missing. *)
Theorem block_without_body_is_counted_but_gets_no_row
    tx cs epoch blocks epochStats epochVotes w :
  dbHealthy w ->
  epochInRange cs epoch ->
  slotsAscending blocks ->
  slotsInEpoch cs epoch blocks ->
  dutiesCover cs epochStats ->
  exists w' dbEpoch,
    persistEpochData tx cs epoch blocks epochStats epochVotes w = Ret None w'
    /\ epochRowsOf (persistedOps tx w w') = [dbEpoch]
    /\ dbtypes.Epoch.BlockCount dbEpoch = Z.of_nat (length blocks)
    /\ map dbtypes.Slot.Root (slotRowsOf (persistedOps tx w w'))
       = map Root (List.filter hasBody blocks)
    /\ forall b, In b blocks ->
                 missingRowsAt (Slot b) (persistedOps tx w w') = [].
Proof.
  intros H Hrange Hasc Hin Hduties.
  destruct (persistEpochData_healthy tx cs epoch blocks epochStats epochVotes
              w H Hrange Hduties) as (w' & Hrun & Hops).
  destruct (persistEpochData_accepting tx cs epoch blocks epochStats
              epochVotes w (dbHealthy_acceptsEpochRows _ H) Hrange Hduties)
    as (blockOps & w'' & Hrun' & HP & Hops').
  rewrite Hrun in Hrun'. injection Hrun' as <-.
  assert (Hspe : 0 <= SlotsPerEpoch (GetSpecs cs))
    by (destruct Hrange as ((? & _) & _); lia).
  eexists w', _. split; [exact Hrun|].
  split; [rewrite Hops; apply epochRowsOf_epochStatements|].
  rewrite (takenBlocks_epoch cs epoch blocks Hasc Hin) by exact Hspe.
  split.
  { rewrite epochTotals_BlockCount; cbn; [lia | lia |].
    destruct Hrange as ((Hpos & Hint) & Hepoch & Hmax).
    assert (Hlen : Z.of_nat (length blocks)
                   <= SlotsPerEpoch (GetSpecs cs)).
    { pose proof (length_slotWalk blocks
                    (Z.to_nat (SlotsPerEpoch (GetSpecs cs)))
                    (EpochStartSlot cs epoch) 0%nat) as Hwalk.
      pose proof (length_taken_missed (GetValues cs epochStats)
                    (EpochStartSlot cs epoch)
                    (slotWalk blocks
                       (Z.to_nat (SlotsPerEpoch (GetSpecs cs)))
                       (EpochStartSlot cs epoch) 0%nat)) as Htaken.
      rewrite (takenBlocks_epoch cs epoch blocks Hasc Hin) in Htaken
        by exact Hspe.
      lia. }
    unfold U64.modulus, MaxInt64 in *. lia. }
  split.
  { rewrite Hops, slotRowsOf_epochStatements.
    rewrite (takenBlocks_epoch cs epoch blocks Hasc Hin) by exact Hspe.
    rewrite map_map. cbn [buildDbBlock_row dbtypes.Slot.Root].
    apply withBody_roots. }
  intros b Hb. rewrite Hops'.
  destruct (blockOps_rows blockOps HP) as (Hnone & _).
  assert (Hslot : EpochStartSlot cs epoch <= Slot b
                  < EpochStartSlot cs epoch + SlotsPerEpoch (GetSpecs cs)).
  { unfold slotsInEpoch in Hin. rewrite List.Forall_forall in Hin.
    now apply Hin. }
  rewrite !missingRowsAt_app, Hnone.
  rewrite (missingRowsAt_missedOf cs epoch blocks epochStats Hasc Hin)
    by (exact Hspe || exact Hslot).
  assert (Hhas : hasBlockAt blocks (Slot b) = true).
  { unfold hasBlockAt. apply existsb_exists. exists b.
    split; [exact Hb | apply Z.eqb_refl]. }
  rewrite Hhas. reflexivity.
Qed.

Lemma sample_mixed_blocks_ascending :
  slotsAscending [Sample.blockAtSlot 4; SampleDb.bodilessBlockAtSlot 6].
Proof. repeat constructor. Qed.

Lemma sample_mixed_blocks_inEpoch :
  slotsInEpoch Sample.chain 1
    [Sample.blockAtSlot 4; SampleDb.bodilessBlockAtSlot 6].
Proof.
  unfold slotsInEpoch.
  constructor; [vm_compute; split; [discriminate | reflexivity]|].
  constructor; [vm_compute; split; [discriminate | reflexivity]|].
  constructor.
Qed.

Lemma block_without_body_witness :
  exists w' dbEpoch,
    persistEpochData (Some OpenTx) Sample.chain 1
      [Sample.blockAtSlot 4; SampleDb.bodilessBlockAtSlot 6]
      (Some (Sample.stats 1)) None Sample.world = Ret None w'
    /\ epochRowsOf (persistedOps (Some OpenTx) Sample.world w') = [dbEpoch]
    /\ dbtypes.Epoch.BlockCount dbEpoch = 2
    /\ map dbtypes.Slot.Root
           (slotRowsOf (persistedOps (Some OpenTx) Sample.world w'))
       = [104]
    /\ forall b,
         In b [Sample.blockAtSlot 4; SampleDb.bodilessBlockAtSlot 6] ->
         missingRowsAt (Slot b) (persistedOps (Some OpenTx) Sample.world w')
         = [].
Proof.
  exact (block_without_body_is_counted_but_gets_no_row (Some OpenTx)
           Sample.chain 1
           [Sample.blockAtSlot 4; SampleDb.bodilessBlockAtSlot 6]
           (Some (Sample.stats 1)) None Sample.world
           sample_world_healthy sample_epoch_inRange
           sample_mixed_blocks_ascending sample_mixed_blocks_inEpoch
           sample_duties_cover).
Defined.

(** ** Missed slots beyond the proposer duties *)

Lemma persistMissedSlots_loop_duties blocks v firstSlot (n : nat) :
  forall fuel lastSlot slot blockIdx w,
    dbHealthy w ->
    (n < fuel)%nat ->
    0 <= firstSlot <= slot ->
    slot + Z.of_nat n < U64.modulus ->
    lastSlot = slot + Z.of_nat n ->
    lastSlot - firstSlot <= MaxInt64 ->
    persistMissedSlots_loop fuel blocks (Some v) firstSlot lastSlot slot
      blockIdx w
    = (if existsb (beyondDuties (length (ProposerDuties v)) firstSlot)
               (slotWalk blocks n slot blockIdx)
       then Panic IndexOutOfRange
       else Ret None)
        (addOps
           (map InsertMissingSlot
              (missedOf (Some v) firstSlot
                 (coveredPrefix (length (ProposerDuties v)) firstSlot
                    (slotWalk blocks n slot blockIdx)))) w).
Proof.
  induction n as [|n IH];
    intros fuel lastSlot slot blockIdx w H Hfuel Hslot Hmax -> Hint;
    (destruct fuel as [|fuel]; [lia|]);
    cbn [persistMissedSlots_loop slotWalk].
  - destruct (Z.ltb_spec slot (slot + Z.of_nat 0)); [lia|].
    cbn. now rewrite addOps_nil.
  - destruct (Z.ltb_spec slot (slot + Z.of_nat (S n))); [|lia].
    rewrite (u64_small (slot + 1)) by lia.
    assert (Hlast : slot + Z.of_nat (S n) = slot + 1 + Z.of_nat n) by lia.
    destruct (blockAt blocks blockIdx slot) as [b|];
      cbn [existsb coveredPrefix beyondDuties snd fst orb].
    + cbn [missedOf flat_map snd app].
      fold (missedOf (Some v) firstSlot
              (coveredPrefix (length (ProposerDuties v)) firstSlot
                 (slotWalk blocks n (slot + 1) (S blockIdx)))).
      apply IH; auto; lia.
    + rewrite (u64_small (slot - firstSlot)) by lia.
      assert (Hint' : to_int (slot - firstSlot) = slot - firstSlot).
      { unfold to_int, MaxInt64 in *.
        destruct (Z.ltb_spec (slot - firstSlot) (2 ^ 63)); lia. }
      rewrite Hint'. unfold index_at.
      destruct (Z.ltb_spec (slot - firstSlot) 0); [lia|].
      destruct (Z.leb_spec (Z.of_nat (length (ProposerDuties v)))
                  (slot - firstSlot)) as [Hbeyond|Hcovered].
      * cbn [orb missedOf flat_map map].
        assert (Hnone : nth_error (ProposerDuties v)
                          (Z.to_nat (slot - firstSlot)) = None)
          by (apply nth_error_None; lia).
        rewrite Hnone. unfold mbind at 1. unfold M_bind at 1.
        unfold panic. now rewrite addOps_nil.
      * cbn [orb missedOf flat_map snd fst app map].
        fold (missedOf (Some v) firstSlot
                (coveredPrefix (length (ProposerDuties v)) firstSlot
                   (slotWalk blocks n (slot + 1) blockIdx))).
        rewrite (nth_error_nth' _ 0) by lia.
        unfold mbind at 1. unfold M_bind at 1. unfold mret at 1.
        unfold M_ret at 1.
        unfold mbind at 1. unfold M_bind at 1.
        unfold db.InsertMissingSlot. rewrite dbExec_addOps by exact H.
        rewrite (IH fuel (slot + Z.of_nat (S n)) (slot + 1) blockIdx)
          by (auto using dbHealthy_addOps; lia).
        rewrite addOps_addOps. reflexivity.
Qed.

Lemma existsb_beyondDuties blocks duties firstSlot slots :
  existsb (beyondDuties duties firstSlot)
          (map (fun s => (s, blockOfSlot blocks s)) slots)
  = existsb (uncoveredSlot blocks duties firstSlot) slots.
Proof.
  induction slots as [|s slots IH]; cbn [map existsb]; [reflexivity|].
  rewrite IH. f_equal. unfold beyondDuties, uncoveredSlot. cbn [fst snd].
  rewrite blockOfSlot_hasBlockAt. destruct (blockOfSlot blocks s); reflexivity.
Qed.

Lemma coveredMissedRows_beyond blocks proposerDuties firstSlot (n : nat) :
  forall start,
    Z.of_nat (length proposerDuties) <= start - firstSlot ->
    coveredMissedRows blocks proposerDuties firstSlot (slotsFrom start n) = [].
Proof.
  unfold coveredMissedRows.
  induction n as [|n IH]; intros start Hstart; cbn [slotsFrom flat_map];
    [reflexivity|].
  rewrite IH by lia.
  destruct (Z.leb_spec (Z.of_nat (length proposerDuties))
              (start - firstSlot)); [|lia].
  now rewrite orb_true_r.
Qed.

Lemma missedOf_coveredPrefix blocks v firstSlot (n : nat) :
  forall start,
    missedOf (Some v) firstSlot
      (coveredPrefix (length (ProposerDuties v)) firstSlot
         (map (fun s => (s, blockOfSlot blocks s)) (slotsFrom start n)))
    = coveredMissedRows blocks (ProposerDuties v) firstSlot
        (slotsFrom start n).
Proof.
  induction n as [|n IH]; intros start;
    cbn [slotsFrom map coveredPrefix]; [reflexivity|].
  unfold beyondDuties. cbn [fst snd].
  change (coveredMissedRows blocks (ProposerDuties v) firstSlot
            (start :: slotsFrom (start + 1) n))
    with ((if hasBlockAt blocks start
              || (Z.of_nat (length (ProposerDuties v)) <=? start - firstSlot)
           then []
           else [missedSlot start
                   (nth (Z.to_nat (start - firstSlot)) (ProposerDuties v) 0)])
          ++ coveredMissedRows blocks (ProposerDuties v) firstSlot
               (slotsFrom (start + 1) n)).
  rewrite blockOfSlot_hasBlockAt.
  destruct (blockOfSlot blocks start) as [b|].
  - cbn [orb app]. unfold missedOf. cbn [flat_map snd app].
    apply IH.
  - cbn [orb].
    destruct (Z.leb_spec (Z.of_nat (length (ProposerDuties v)))
                (start - firstSlot)) as [Hbeyond|Hcovered].
    + cbn [app]. rewrite coveredMissedRows_beyond by lia. reflexivity.
    + unfold missedOf. cbn [flat_map snd fst app]. f_equal. apply IH.
Qed.

(** X10.  [persistMissedSlots] indexes [ProposerDuties] without a bound
    check.  Against a database that answers no error and for a block list
    that is strictly ascending by slot and lies in the epoch, it panics
    with an index out of range exactly when some slot of the epoch has
    neither a block in the list nor a proposer duty (the duties are fewer
    than the slots up to it), and answers no error otherwise.  In both
    cases it has written the rows of the slots without a block that have a
    proposer duty. *)
Theorem missed_slot_without_proposer_duty_panics
    cs epoch blocks epochStats epochStatsValues w :
  dbHealthy w ->
  epochInRange cs epoch ->
  slotsAscending blocks ->
  slotsInEpoch cs epoch blocks ->
  GetValues cs epochStats = Some epochStatsValues ->
  let firstSlot := EpochStartSlot cs epoch in
  let slots := slotsFrom firstSlot (Z.to_nat (SlotsPerEpoch (GetSpecs cs))) in
  persistMissedSlots cs epoch blocks epochStats w
  = (if existsb
          (uncoveredSlot blocks (length (ProposerDuties epochStatsValues))
             firstSlot) slots
     then Panic IndexOutOfRange
     else Ret None)
      (addOps
         (map InsertMissingSlot
            (coveredMissedRows blocks (ProposerDuties epochStatsValues)
               firstSlot slots)) w).
Proof.
  intros H Hrange Hasc Hin Hvals firstSlot slots.
  destruct (EpochStartSlot_inRange cs epoch Hrange) as (Hfirst & Hfirst0).
  destruct Hrange as ((Hpos & Hint) & Hepoch & Hmax).
  rewrite <- Hfirst in Hmax. fold firstSlot in Hmax, Hfirst0.
  unfold persistMissedSlots. rewrite Hvals. fold firstSlot.
  rewrite (u64_small (firstSlot + SlotsPerEpoch (GetSpecs cs))) by lia.
  rewrite (persistMissedSlots_loop_duties blocks epochStatsValues firstSlot
             (Z.to_nat (SlotsPerEpoch (GetSpecs cs))))
    by (first [exact H | unfold MaxInt64 in *; lia]).
  unfold firstSlot.
  rewrite (slotWalk_epoch cs epoch blocks Hasc Hin).
  fold firstSlot. fold slots.
  rewrite existsb_beyondDuties. unfold slots.
  now rewrite missedOf_coveredPrefix.
Qed.

Lemma missed_slot_without_duty_witness :
  persistMissedSlots Sample.chain 1
    [Sample.blockAtSlot 4; Sample.blockAtSlot 6] (Some (SampleDb.shortStats 1))
    Sample.world
  = Panic IndexOutOfRange
      (addOps [InsertMissingSlot (missedSlot 5 12)] Sample.world).
Proof.
  exact (missed_slot_without_proposer_duty_panics Sample.chain 1
           [Sample.blockAtSlot 4; Sample.blockAtSlot 6]
           (Some (SampleDb.shortStats 1)) _ Sample.world
           sample_world_healthy sample_epoch_inRange sample_blocks_ascending
           sample_blocks_inEpoch eq_refl).
Defined.

(** ** The slot loops at the bounds *)

Lemma buildDbEpoch_loop_at_last_uint64 blocks blockFn (fuel : nat) :
  forall slot blockIdx depositIndex dbEpoch w a w',
    0 <= slot < U64.modulus ->
    buildDbEpoch_loop fuel blocks blockFn (U64.modulus - 1) slot blockIdx
      depositIndex dbEpoch w
    <> Ret a w'.
Proof.
  induction fuel as [|fuel IH]; intros slot blockIdx di e w a w' Hslot;
    cbn [buildDbEpoch_loop]; [discriminate|].
  destruct (Z.leb_spec slot (U64.modulus - 1)); [|lia].
  assert (Hnext : 0 <= u64 (slot + 1) < U64.modulus).
  { unfold u64, U64.modulus. apply Z.mod_pos_bound. lia. }
  destruct (blockAt blocks blockIdx slot) as [b|]; [|now apply IH].
  destruct (GetBlock b) as [body|].
  - unfold mbind, M_bind.
    destruct (match blockFn with
              | Some fn => fn b di
              | None => mret di
              end w) as [di' w1|p w1|]; [now apply IH | discriminate..].
  - unfold mbind, M_bind, logError, modifyWorld. now apply IH.
Qed.

(** X11.  The loop of [buildDbEpoch] runs while [slot <= lastSlot] with
    [lastSlot = firstSlot + SlotsPerEpoch - 1].  When that is the largest
    [uint64] the condition holds for every [uint64], and the loop does not
    exit: [buildDbEpoch] does not return, whatever the blocks and the
    callback, and neither does its loop however many rounds it is given. *)
Theorem buildDbEpoch_hangs_when_last_slot_is_max_uint64
    cs epoch blocks epochStats epochVotes blockFn w :
  u64 (EpochStartSlot cs epoch + SlotsPerEpoch (GetSpecs cs) - 1)
  = U64.modulus - 1 ->
  (forall dbEpoch w',
     buildDbEpoch cs epoch blocks epochStats epochVotes blockFn w
     <> Ret dbEpoch w')
  /\ (forall fuel depositIndex dbEpoch0 dbEpoch w',
        buildDbEpoch_loop fuel blocks blockFn
          (u64 (EpochStartSlot cs epoch + SlotsPerEpoch (GetSpecs cs) - 1))
          (EpochStartSlot cs epoch) 0%nat depositIndex dbEpoch0 w
        <> Ret dbEpoch w').
Proof.
  intros Hlast.
  assert (Hfirst : 0 <= EpochStartSlot cs epoch < U64.modulus).
  { unfold EpochStartSlot, u64, U64.modulus. apply Z.mod_pos_bound. lia. }
  split.
  - intros dbEpoch w'. unfold buildDbEpoch. rewrite Hlast.
    now apply buildDbEpoch_loop_at_last_uint64.
  - intros fuel di e0 e w'. rewrite Hlast.
    now apply buildDbEpoch_loop_at_last_uint64.
Qed.

Lemma buildDbEpoch_hangs_witness :
  (forall dbEpoch w',
     buildDbEpoch SampleLoop.mainnet SampleBounds.lastEpoch [] None None None
       Sample.world
     <> Ret dbEpoch w')
  /\ (forall fuel depositIndex dbEpoch0 dbEpoch w',
        buildDbEpoch_loop fuel [] None
          (u64 (EpochStartSlot SampleLoop.mainnet SampleBounds.lastEpoch
                + SlotsPerEpoch (GetSpecs SampleLoop.mainnet) - 1))
          (EpochStartSlot SampleLoop.mainnet SampleBounds.lastEpoch) 0%nat
          depositIndex dbEpoch0 Sample.world
        <> Ret dbEpoch w').
Proof.
  apply (buildDbEpoch_hangs_when_last_slot_is_max_uint64 SampleLoop.mainnet
           SampleBounds.lastEpoch [] None None None Sample.world).
  vm_compute. reflexivity.
Defined.

(** ** A block list whose head lies outside the epoch *)

Lemma slotWalk_blocked b rest (n : nat) :
  forall slot,
    ~ (slot <= Slot b < slot + Z.of_nat n) ->
    slotWalk (b :: rest) n slot 0%nat
    = map (fun s => (s, None)) (slotsFrom slot n).
Proof.
  induction n as [|n IH]; intros slot Hout; cbn [slotWalk slotsFrom map];
    [reflexivity|].
  unfold blockAt. cbn [nth_error].
  destruct (Z.eqb_spec (Slot b) slot); [lia|].
  rewrite IH by lia. reflexivity.
Qed.

Lemma missedOf_all_missed epochStatsValues firstSlot slots :
  missedOf epochStatsValues firstSlot (map (fun s => (s, None)) slots)
  = map (fun slot =>
           missedSlot slot (knownProposer epochStatsValues (slot - firstSlot)))
        slots.
Proof.
  unfold missedOf. induction slots as [|s slots IH]; cbn; [reflexivity|].
  now rewrite IH.
Qed.

Lemma takenBlocks_all_missed slots :
  takenBlocks (map (fun s => (s, None)) slots) = [].
Proof.
  unfold takenBlocks. induction slots as [|s slots IH]; cbn;
    [reflexivity | exact IH].
Qed.

(** X12.  The two slot loops take a block only at the head of what is left
    of the list.  When the first block of the list does not lie in the
    epoch, no block of the list is ever taken: against a database that
    answers no error, [persistEpochData] then writes a row with status
    Missing for every slot of the epoch and an epoch row that counts no
    block, and nothing else, whatever the rest of the list holds. *)
Theorem head_block_outside_epoch_blocks_the_list
    tx cs epoch b rest epochStats epochVotes w :
  dbHealthy w ->
  epochInRange cs epoch ->
  dutiesCover cs epochStats ->
  ~ (EpochStartSlot cs epoch <= Slot b
     < EpochStartSlot cs epoch + SlotsPerEpoch (GetSpecs cs)) ->
  exists w',
    persistEpochData tx cs epoch (b :: rest) epochStats epochVotes w
    = Ret None w'
    /\ persistedOps tx w w'
       = map InsertMissingSlot
           (allMissed (GetValues cs epochStats) (EpochStartSlot cs epoch)
              (Z.to_nat (SlotsPerEpoch (GetSpecs cs))))
         ++ [InsertEpoch
               (newDbEpoch epoch epochVotes (GetValues cs epochStats))].
Proof.
  intros H Hrange Hduties Hout.
  destruct (persistEpochData_healthy tx cs epoch (b :: rest) epochStats
              epochVotes w H Hrange Hduties) as (w' & Hrun & Hops).
  exists w'. split; [exact Hrun|]. rewrite Hops.
  unfold epochStatements.
  rewrite slotWalk_blocked
    by (destruct Hrange as ((? & _) & _); rewrite Z2Nat.id; lia).
  rewrite takenBlocks_all_missed, missedOf_all_missed. reflexivity.
Qed.

Lemma head_block_outside_epoch_witness :
  exists w',
    persistEpochData (Some OpenTx) Sample.chain 1
      [Sample.blockAtSlot 3; Sample.blockAtSlot 4; Sample.blockAtSlot 6]
      (Some (Sample.stats 1)) None Sample.world
    = Ret None w'
    /\ persistedOps (Some OpenTx) Sample.world w'
       = map InsertMissingSlot
           [missedSlot 4 11; missedSlot 5 12; missedSlot 6 13;
            missedSlot 7 14]
         ++ [InsertEpoch
               (newDbEpoch 1 None (Some Sample.statsValues))].
Proof.
  apply (head_block_outside_epoch_blocks_the_list (Some OpenTx) Sample.chain
           1 (Sample.blockAtSlot 3)
           [Sample.blockAtSlot 4; Sample.blockAtSlot 6]
           (Some (Sample.stats 1)) None Sample.world
           sample_world_healthy sample_epoch_inRange sample_duties_cover).
  vm_compute. intros (Hle & _). apply Hle. reflexivity.
Defined.

(** ** Sync-committee assignments at the edges *)

(** X13.  The edges of [persistSyncAssignments].  Before the Altair fork
    epoch, and for epoch stats without values, it answers no error and
    touches nothing, not even to ask the database whether the period is
    synchronized.  With [EpochsPerSyncCommitteePeriod = 0] the division of
    the epoch by the period length panics.  Unlike the inserts of a block,
    the insert of the assignments is not guarded by the number of rows: at
    the first epoch of a period an empty list of sync-committee duties
    hands an empty batch to the database. *)
Theorem sync_assignments_edges cs epoch epochStats w :
  (epoch < AltairForkEpoch (GetSpecs cs) ->
   persistSyncAssignments cs epoch epochStats w = Ret None w)
  /\ (GetValues cs epochStats = None ->
      persistSyncAssignments cs epoch epochStats w = Ret None w)
  /\ (forall v,
        AltairForkEpoch (GetSpecs cs) <= epoch ->
        GetValues cs epochStats = Some v ->
        EpochsPerSyncCommitteePeriod (GetSpecs cs) = 0 ->
        persistSyncAssignments cs epoch epochStats w = Panic DivideByZero w)
  /\ (forall v period,
        AltairForkEpoch (GetSpecs cs) <= epoch ->
        GetValues cs epochStats = Some v ->
        0 < EpochsPerSyncCommitteePeriod (GetSpecs cs) ->
        0 <= period ->
        epoch = period * EpochsPerSyncCommitteePeriod (GetSpecs cs) ->
        epoch < U64.modulus ->
        SyncCommitteeDuties v = [] ->
        persistSyncAssignments cs epoch epochStats w
        = dbExec "InsertSyncAssignments" (InsertSyncAssignments []) w).
Proof.
  assert (Hvals : forall r,
    GetValues cs epochStats = r ->
    match epochStats with
    | Some _ => GetValues cs epochStats
    | None => None
    end = r).
  { intros r <-. destruct epochStats; reflexivity. }
  unfold persistSyncAssignments. repeat split.
  - intros Hlt. destruct (Z.ltb_spec epoch (AltairForkEpoch (GetSpecs cs)));
      [reflexivity | lia].
  - intros Hnone. rewrite (Hvals _ Hnone).
    destruct (epoch <? AltairForkEpoch (GetSpecs cs)); reflexivity.
  - intros v Hge Hsome Hzero. rewrite (Hvals _ Hsome), Hzero.
    destruct (Z.ltb_spec epoch (AltairForkEpoch (GetSpecs cs)));
      [lia | reflexivity].
  - intros v period Hge Hsome Hpos Hperiod Hepoch Hmax Hduties.
    rewrite (Hvals _ Hsome), Hduties.
    destruct (Z.ltb_spec epoch (AltairForkEpoch (GetSpecs cs))); [lia|].
    destruct (Z.eqb_spec (EpochsPerSyncCommitteePeriod (GetSpecs cs)) 0);
      [lia|].
    assert (Hdiv : epoch / EpochsPerSyncCommitteePeriod (GetSpecs cs)
                   = period)
      by (rewrite Hepoch; apply Z.div_mul; lia).
    rewrite Hdiv, <- Hepoch, (u64_small epoch) by lia.
    rewrite Z.eqb_refl. reflexivity.
Qed.

Lemma sync_assignments_edges_witness :
  persistSyncAssignments SampleLoop.mainnet 5 (Some (Sample.stats 5))
    Sample.world = Ret None Sample.world
  /\ persistSyncAssignments SampleBounds.zeroPeriodChain 3
       (Some (Sample.stats 3)) Sample.world
     = Panic DivideByZero Sample.world.
Proof.
  split.
  - apply (proj1 (sync_assignments_edges SampleLoop.mainnet 5
                    (Some (Sample.stats 5)) Sample.world)).
    cbn. lia.
  - apply (proj1 (proj2 (proj2 (sync_assignments_edges
                                  SampleBounds.zeroPeriodChain 3
                                  (Some (Sample.stats 3)) Sample.world)))
             Sample.statsValues).
    + cbn. lia.
    + reflexivity.
    + reflexivity.
Defined.

(** ** Deposit rows of an epoch without stats values *)

Lemma buildDbDeposits_loop_nil block orphaned overrideForkId deposits :
  forall idx,
    let r := buildDbDeposits_loop block orphaned overrideForkId deposits idx
               None in
    map dbtypes.Deposit.Index (fst r) = repeat None (length deposits)
    /\ map dbtypes.Deposit.SlotNumber (fst r)
       = repeat (Slot block) (length deposits)
    /\ snd r = None.
Proof.
  induction deposits as [|deposit rest IH]; intros idx;
    cbn [buildDbDeposits_loop length]; [cbn; auto|].
  specialize (IH (S idx)).
  destruct (buildDbDeposits_loop block orphaned overrideForkId rest (S idx)
              None) as [rows di].
  cbn [fst snd] in *. destruct IH as (Hidx & Hslot & Hdi).
  cbn [map dbtypes.Deposit.Index dbtypes.Deposit.SlotNumber repeat].
  now rewrite Hidx, Hslot, Hdi.
Qed.

Lemma buildDbDeposits_nil block orphaned overrideForkId :
  let r := buildDbDeposits block None orphaned overrideForkId in
  map dbtypes.Deposit.Index (fst r) = repeat None (depositCount block)
  /\ map dbtypes.Deposit.SlotNumber (fst r)
     = repeat (Slot block) (depositCount block)
  /\ snd r = None.
Proof.
  unfold buildDbDeposits, depositCount.
  destruct (GetBlock block) as [body|]; [|cbn; auto].
  destruct (Deposits body) as [deposits|]; [|cbn; auto].
  cbn [dropErr]. apply buildDbDeposits_loop_nil.
Qed.

Lemma depositRowsOf_epochOps_nil taken :
  map dbtypes.Deposit.Index (depositRowsOf (epochOps taken None))
  = repeat None (totalDeposits taken)
  /\ map dbtypes.Deposit.SlotNumber (depositRowsOf (epochOps taken None))
     = flat_map (fun b => repeat (Slot b) (depositCount b)) taken.
Proof.
  induction taken as [|b rest (IHidx & IHslot)];
    cbn [epochOps flat_map]; [split; reflexivity|].
  change (totalDeposits (b :: rest))
    with (depositCount b + totalDeposits rest)%nat.
  destruct (buildDbDeposits_nil b false (Some 0)) as (Hidx & Hslot & Hdi).
  destruct (GetBlock b) as [body|] eqn:Hb.
  - rewrite depositRowsOf_app, depositRowsOf_block, !map_app, Hidx, Hslot,
      Hdi, IHidx, IHslot.
    now rewrite repeat_app.
  - assert (Hzero : depositCount b = 0%nat)
      by (unfold depositCount; now rewrite Hb).
    rewrite Hzero. cbn [Nat.add repeat app]. auto.
Qed.

(** X14.  When the values of the epoch stats are not available,
    [buildDbEpoch] hands a [nil] deposit index to the callback: against a
    database that answers no error and for a block list that is strictly
    ascending by slot and lies in the epoch, [persistEpochData] still
    writes one deposit row per deposit of the canonical blocks, block after
    block, and every one of these rows has no [Index]. *)
Theorem deposit_rows_have_no_index_without_stats_values
    tx cs epoch blocks epochStats epochVotes w :
  dbHealthy w ->
  epochInRange cs epoch ->
  slotsAscending blocks ->
  slotsInEpoch cs epoch blocks ->
  GetValues cs epochStats = None ->
  exists w',
    persistEpochData tx cs epoch blocks epochStats epochVotes w = Ret None w'
    /\ map dbtypes.Deposit.Index (depositRowsOf (persistedOps tx w w'))
       = repeat None (totalDeposits blocks)
    /\ map dbtypes.Deposit.SlotNumber (depositRowsOf (persistedOps tx w w'))
       = flat_map (fun b => repeat (Slot b) (depositCount b)) blocks.
Proof.
  intros H Hrange Hasc Hin Hvals.
  assert (Hduties : dutiesCover cs epochStats)
    by (unfold dutiesCover; now rewrite Hvals).
  destruct (persistEpochData_healthy tx cs epoch blocks epochStats epochVotes
              w H Hrange Hduties) as (w' & Hrun & Hops).
  exists w'. split; [exact Hrun|]. rewrite Hops.
  rewrite depositRowsOf_epochStatements, Hvals.
  rewrite (takenBlocks_epoch cs epoch blocks Hasc Hin)
    by (destruct Hrange as ((? & _) & _); lia).
  apply depositRowsOf_epochOps_nil.
Qed.

Lemma deposit_rows_without_index_witness :
  exists w',
    persistEpochData (Some OpenTx) Sample.chain 1
      [Sample.blockAtSlot 4; Sample.blockAtSlot 6]
      (Some (Sample.statsWithoutValues 1)) None Sample.world = Ret None w'
    /\ map dbtypes.Deposit.Index
           (depositRowsOf (persistedOps (Some OpenTx) Sample.world w'))
       = [None; None; None; None]
    /\ map dbtypes.Deposit.SlotNumber
           (depositRowsOf (persistedOps (Some OpenTx) Sample.world w'))
       = [4; 4; 6; 6].
Proof.
  exact (deposit_rows_have_no_index_without_stats_values (Some OpenTx)
           Sample.chain 1 [Sample.blockAtSlot 4; Sample.blockAtSlot 6]
           (Some (Sample.statsWithoutValues 1)) None Sample.world
           sample_world_healthy sample_epoch_inRange sample_blocks_ascending
           sample_blocks_inEpoch eq_refl).
Defined.

(** ** The numbering of the slashing rows *)

Lemma proposerSlashing_fold_indexes block orphaned overrideForkId
    proposerIndex (proposerSlashings : list phase0.ProposerSlashing) :
  forall dbSlashings slashingIndex,
  exists rows,
    fold_left
      (proposerSlashingStep block orphaned overrideForkId proposerIndex)
      proposerSlashings (dbSlashings, slashingIndex)
    = (dbSlashings ++ rows, (slashingIndex + length proposerSlashings)%nat)
    /\ map dbtypes.Slashing.SlotIndex rows
       = map Z.of_nat (seq slashingIndex (length proposerSlashings))
    /\ Forall (fun r => dbtypes.Slashing.SlasherIndex r = proposerIndex) rows.
Proof.
  induction proposerSlashings as [|p ps IH]; intros acc k; cbn [fold_left].
  - exists []. rewrite app_nil_r, Nat.add_0_r.
    split; [reflexivity|]. split; [reflexivity | constructor].
  - unfold proposerSlashingStep at 2.
    destruct (IH (acc ++ [proposerSlashingRow block orphaned overrideForkId
                             proposerIndex k p]) (S k))
      as (rows & Heq & Hidx & Hslasher).
    exists (proposerSlashingRow block orphaned overrideForkId
              proposerIndex k p :: rows).
    rewrite Heq, <- app_assoc. cbn [app length seq map]. split.
    + f_equal. lia.
    + rewrite Hidx. split; [reflexivity|].
      constructor; [reflexivity | exact Hslasher].
Qed.

Lemma attesterSlashing_fold_indexes block proposerIndex
    (attesterSlashings : list AttesterSlashing) :
  forall dbSlashings slashingIndex,
  exists rows,
    fst (fold_left (attesterSlashingStep block proposerIndex)
                   attesterSlashings (dbSlashings, slashingIndex))
    = dbSlashings ++ rows
    /\ map dbtypes.Slashing.SlotIndex rows
       = attesterSlotIndexes slashingIndex attesterSlashings
    /\ Forall (fun r => dbtypes.Slashing.SlasherIndex r = proposerIndex) rows.
Proof.
  induction attesterSlashings as [|s ss IH]; intros acc k;
    cbn [fold_left attesterSlotIndexes].
  - exists []. cbn. rewrite app_nil_r.
    split; [reflexivity|]. split; [reflexivity | constructor].
  - unfold attesterSlashingStep at 2, attestingIndexLists.
    destruct (Attestation1 s) as [a1|], (Attestation2 s) as [a2|];
      try (destruct (IH acc k) as (rows & Heq & Hidx & Hslasher);
           exists rows; now rewrite Heq).
    destruct (AttestingIndices a1) as [i1|], (AttestingIndices a2) as [i2|];
      try (destruct (IH acc k) as (rows & Heq & Hidx & Hslasher);
           exists rows; now rewrite Heq).
    rewrite attesterRows_fold.
    destruct (IH (acc ++ map (attesterSlashingRow block proposerIndex k)
                           (intersect.Simple i1 i2)) (S k))
      as (rows & Heq & Hidx & Hslasher).
    exists (map (attesterSlashingRow block proposerIndex k)
              (intersect.Simple i1 i2) ++ rows).
    rewrite Heq, <- app_assoc. split; [reflexivity|].
    rewrite map_app, map_map, Hidx. cbn [attesterSlashingRow
                                           dbtypes.Slashing.SlotIndex].
    split.
    + f_equal. generalize (intersect.Simple i1 i2) as l.
      intros l. induction l as [|x l IHl]; cbn; [reflexivity|].
      now rewrite IHl.
    + apply Forall_app. split; [|exact Hslasher].
      apply List.Forall_forall. intros r Hr.
      apply in_map_iff in Hr as (x & <- & _). reflexivity.
Qed.

(** X15.  [SlotIndex] numbers the slashings of a block, not the rows.  For
    a body whose accessors answer no error, the rows of [buildDbSlashings]
    carry, in order: the indexes [0 .. p-1] for the [p] proposer slashings;
    then, for every attester slashing that has both attestations and both
    index lists, the next index, repeated once per validator of the
    intersection, while a slashing that lacks an attestation or an index
    list is skipped and takes no index.  Every row names the proposer of
    the block as [SlasherIndex]. *)
Theorem slashing_rows_are_numbered_by_slashing
    block orphaned overrideForkId blockBody proposerSlashings
    attesterSlashings proposerIndex :
  GetBlock block = Some blockBody ->
  ProposerSlashings blockBody = Some proposerSlashings ->
  AttesterSlashings blockBody = Some attesterSlashings ->
  BodyProposerIndex blockBody = Some proposerIndex ->
  map dbtypes.Slashing.SlotIndex
      (buildDbSlashings block orphaned overrideForkId)
  = map Z.of_nat (seq 0 (length proposerSlashings))
    ++ attesterSlotIndexes (length proposerSlashings) attesterSlashings
  /\ Forall (fun r => dbtypes.Slashing.SlasherIndex r = proposerIndex)
            (buildDbSlashings block orphaned overrideForkId).
Proof.
  intros Hb Hp Ha Hi. unfold buildDbSlashings. rewrite Hb, Hp, Ha, Hi.
  destruct (proposerSlashing_fold_indexes block orphaned overrideForkId
              proposerIndex proposerSlashings [] 0%nat)
    as (prs & Hpf & Hpidx & Hpslasher).
  rewrite Hpf. cbn [app Nat.add].
  destruct (attesterSlashing_fold_indexes block proposerIndex
              attesterSlashings prs (length proposerSlashings))
    as (ars & Haf & Haidx & Haslasher).
  rewrite Haf, map_app, Hpidx, Haidx. split; [reflexivity|].
  apply Forall_app. auto.
Qed.

Lemma slashing_rows_numbering_witness :
  map dbtypes.Slashing.SlotIndex
      (buildDbSlashings (Sample.blockAtSlot 4) false None)
  = [0; 1; 1]
  /\ Forall (fun r => dbtypes.Slashing.SlasherIndex r = 7)
            (buildDbSlashings (Sample.blockAtSlot 4) false None).
Proof.
  exact (slashing_rows_are_numbered_by_slashing (Sample.blockAtSlot 4) false
           None Sample.body _ _ 7 eq_refl eq_refl eq_refl eq_refl).
Defined.

(** * Further properties of the controller *)

(** ** The lower bound of the in-memory range *)

(** X16.  [getMinInMemoryEpoch] answers the epoch before the later of the
    finalized epoch and the pruning cursor, and epoch 0 when both are 0;
    [getMinInMemorySlot] answers the first slot of the epoch after it.  So
    the in-memory range starts at the first slot of the later of the two,
    and, when both are still 0, at the first slot of epoch 1 and not at
    slot 0.  Neither reads anything else nor changes the state. *)
Theorem in_memory_range_starts_at_the_later_cursor cs w :
  0 <= lastFinalizedEpoch w < U64.modulus ->
  0 <= lastPrunedEpoch w < U64.modulus ->
  getMinInMemoryEpoch w
  = Ret (Z.max 0 (Z.max (lastFinalizedEpoch w) (lastPrunedEpoch w) - 1)) w
  /\ getMinInMemorySlot cs w
     = Ret (EpochToSlot cs
              (Z.max 1 (Z.max (lastFinalizedEpoch w) (lastPrunedEpoch w)))) w.
Proof.
  intros Hf Hp.
  assert (Hepoch :
    getMinInMemoryEpoch w
    = Ret (Z.max 0 (Z.max (lastFinalizedEpoch w) (lastPrunedEpoch w) - 1)) w).
  { unfold getMinInMemoryEpoch.
    unfold mbind, M_bind, mret, M_ret, getWorld.
    destruct (Z.ltb_spec 0 (lastFinalizedEpoch w)) as [Hf0|Hf0].
    - rewrite (u64_small (lastFinalizedEpoch w - 1)) by lia.
      destruct (Z.ltb_spec 0 (lastPrunedEpoch w)) as [Hp0|Hp0];
        destruct (Z.ltb_spec (lastFinalizedEpoch w - 1) (lastPrunedEpoch w));
        cbn [andb]; rewrite ?(u64_small (lastPrunedEpoch w - 1)) by lia;
        f_equal; lia.
    - destruct (Z.ltb_spec 0 (lastPrunedEpoch w)) as [Hp0|Hp0]; cbn [andb].
      + rewrite (u64_small (lastPrunedEpoch w - 1)) by lia. f_equal. lia.
      + f_equal. lia. }
  split; [exact Hepoch|].
  unfold getMinInMemorySlot. unfold mbind, M_bind. rewrite Hepoch.
  unfold mret, M_ret.
  rewrite u64_small by (unfold U64.modulus in *; lia).
  do 2 f_equal. lia.
Qed.

Lemma in_memory_range_witness :
  getMinInMemoryEpoch Sample.world = Ret 0 Sample.world
  /\ getMinInMemorySlot SampleLoop.mainnet Sample.world
     = Ret 32 Sample.world.
Proof.
  apply (in_memory_range_starts_at_the_later_cursor SampleLoop.mainnet
           Sample.world).
  - unfold U64.modulus. cbn. lia.
  - unfold U64.modulus. cbn. lia.
Defined.

(** ** The state [StartIndexer] leaves *)

Lemma restoreUnfinalizedDuty_controllerState finalizedEpoch dbDuty w :
  exists w',
    restoreUnfinalizedDuty finalizedEpoch dbDuty w = Ret tt w'
    /\ controllerState w' = controllerState w
    /\ w_committed w' = w_committed w.
Proof.
  unfold restoreUnfinalizedDuty.
  destruct (DutyEpoch dbDuty <? finalizedEpoch); [exists w; auto|].
  unfold mbind at 1. unfold M_bind at 1. unfold createOrGetEpochStats.
  destruct (epochCache w !! (DutyEpoch dbDuty, DutyDependentRoot dbDuty));
    unfold mbind at 1; unfold M_bind at 1; unfold restoreFromDb;
    destruct (DutiesSSZ dbDuty) as [v|];
    unfold mbind, M_bind, mret, M_ret, updateEpochStats, modifyWorld,
      getWorld, logError, modifyWorld;
    cbn [lastPrunedEpoch set_epochCache set_log];
    try (destruct (DutyEpoch dbDuty <? lastPrunedEpoch w));
    eexists; (split; [reflexivity|]); split; reflexivity.
Qed.

Lemma restore_forEach_controllerState finalizedEpoch
    (duties : list UnfinalizedDuty) :
  forall w,
    exists w',
      forEach (restoreUnfinalizedDuty finalizedEpoch) duties w = Ret tt w'
      /\ controllerState w' = controllerState w
      /\ w_committed w' = w_committed w.
Proof.
  induction duties as [|d rest IH]; intros w; cbn [forEach].
  - exists w. auto.
  - destruct (restoreUnfinalizedDuty_controllerState finalizedEpoch d w)
      as (w1 & Hrun1 & Hs1 & Hc1).
    destruct (IH w1) as (w' & Hrun & Hs & Hc).
    exists w'. unfold mbind at 1. unfold M_bind at 1. rewrite Hrun1.
    split; [exact Hrun|]. split; congruence.
Qed.

Lemma StartIndexer_loadState_state cs w :
  let cursor := db.GetExplorerState_prunestate w in
  exists w',
    StartIndexer_loadState cs w = Ret tt w'
    /\ controllerState w'
       = (running w, FinalizedEpoch cs, Z.max cursor (FinalizedEpoch cs),
          CurrentEpoch cs)
    /\ w_committed w'
       = if cursor <? FinalizedEpoch cs then
           if w_dbFail w [] (SetPruneState (FinalizedEpoch cs))
           then w_committed w
           else w_committed w ++ [SetPruneState (FinalizedEpoch cs)]
         else w_committed w.
Proof.
  unfold StartIndexer_loadState, controllerState.
  unfold mbind, M_bind, mret, M_ret, modifyWorld, getWorld,
    db.RunDBTransaction, updatePruningState, dbExec, logError, modifyWorld.
  change (db.GetExplorerState_prunestate
            (set_lastFinalizedEpoch (FinalizedEpoch cs) w))
    with (db.GetExplorerState_prunestate w).
  generalize (db.GetExplorerState_prunestate w) as cursor. intros cursor.
  cbv zeta.
  cbn [lastPrunedEpoch set_lastPrunedEpoch set_lastFinalizedEpoch].
  destruct (Z.ltb_spec cursor (FinalizedEpoch cs)).
  - cbn.
    destruct (w_dbFail w [] (SetPruneState (FinalizedEpoch cs)));
      eexists; (split; [reflexivity|]); cbn; split; auto;
      repeat f_equal; lia.
  - eexists. split; [reflexivity|]. cbn. split; auto. repeat f_equal. lia.
Qed.

Lemma StartIndexer_controllerState cs unfinalizedDuties w :
  running w = false ->
  exists w',
    StartIndexer cs unfinalizedDuties w = Ret tt w'
    /\ controllerState w'
       = (true, FinalizedEpoch cs,
          Z.max (db.GetExplorerState_prunestate w) (FinalizedEpoch cs),
          CurrentEpoch cs)
    /\ w_committed w'
       = if db.GetExplorerState_prunestate w <? FinalizedEpoch cs then
           if w_dbFail w [] (SetPruneState (FinalizedEpoch cs))
           then w_committed w
           else w_committed w ++ [SetPruneState (FinalizedEpoch cs)]
         else w_committed w.
Proof.
  intros Hrunning. unfold StartIndexer.
  unfold mbind at 1. unfold M_bind at 1. unfold getWorld. rewrite Hrunning.
  unfold mbind at 1. unfold M_bind at 1. unfold modifyWorld at 1.
  destruct (StartIndexer_loadState_state cs (set_running true w))
    as (w0 & Hload & Hs0 & Hc0).
  unfold mbind at 1. unfold M_bind at 1. rewrite Hload.
  destruct (restore_forEach_controllerState (FinalizedEpoch cs)
              unfinalizedDuties w0) as (w' & Hrun & Hs & Hc).
  exists w'. split; [exact Hrun|].
  rewrite Hs, Hs0, Hc, Hc0. split; reflexivity.
Qed.

(** X17.  The state [StartIndexer] leaves when the indexer was not
    running, whatever the stream of unfinalized duties holds: [running] is
    set, [lastFinalizedEpoch] is the finalized epoch of the chain state,
    [lastPrunedEpoch] is the later of the pruning cursor of the database
    and the finalized epoch, so never below [lastFinalizedEpoch], and
    [lastPruneRunEpoch] is the current epoch.  The cursor is written back
    only when it was behind the finalized epoch; when the database rejects
    that write the error is logged and the raised value is kept in
    memory. *)
Theorem StartIndexer_sets_the_controller_state cs unfinalizedDuties w :
  running w = false ->
  let cursor := db.GetExplorerState_prunestate w in
  exists w',
    StartIndexer cs unfinalizedDuties w = Ret tt w'
    /\ controllerState w'
       = (true, FinalizedEpoch cs, Z.max cursor (FinalizedEpoch cs),
          CurrentEpoch cs)
    /\ lastFinalizedEpoch w' <= lastPrunedEpoch w'
    /\ w_committed w'
       = if cursor <? FinalizedEpoch cs then
           if w_dbFail w [] (SetPruneState (FinalizedEpoch cs))
           then w_committed w
           else w_committed w ++ [SetPruneState (FinalizedEpoch cs)]
         else w_committed w.
Proof.
  intros Hrunning cursor.
  destruct (StartIndexer_controllerState cs unfinalizedDuties w Hrunning)
    as (w' & Hrun & Hs & Hc).
  exists w'. split; [exact Hrun|]. split; [exact Hs|].
  split; [|exact Hc].
  unfold controllerState in Hs. injection Hs as _ Hf Hp _.
  rewrite Hf, Hp. lia.
Qed.

Lemma StartIndexer_state_witness :
  exists w',
    StartIndexer Sample.chain
      [SampleLoop.dutyOfEpoch 2; SampleLoop.dutyOfEpoch 3]
      SampleLoop.restartWorld = Ret tt w'
    /\ controllerState w' = (true, 1, 3, 3)
    /\ lastFinalizedEpoch w' <= lastPrunedEpoch w'
    /\ w_committed w' = [SetPruneState 3].
Proof.
  exact (StartIndexer_sets_the_controller_state Sample.chain
           [SampleLoop.dutyOfEpoch 2; SampleLoop.dutyOfEpoch 3]
           SampleLoop.restartWorld eq_refl).
Defined.

(** X18.  [StartIndexer] starts the indexer once.  It answers with
    [running] set, and a further call, with whatever chain state and
    stream, returns at its first test and leaves the world as it is: no
    state is reloaded and no epoch stats entry is restored or pruned
    again. *)
Theorem StartIndexer_runs_once cs unfinalizedDuties w :
  exists w',
    StartIndexer cs unfinalizedDuties w = Ret tt w'
    /\ running w' = true
    /\ forall cs' unfinalizedDuties',
         StartIndexer cs' unfinalizedDuties' w' = Ret tt w'.
Proof.
  assert (Hagain : forall w', running w' = true ->
            forall cs' duties', StartIndexer cs' duties' w' = Ret tt w').
  { intros w' Hr cs' duties'. unfold StartIndexer.
    unfold mbind at 1. unfold M_bind at 1. unfold getWorld.
    now rewrite Hr. }
  destruct (running w) eqn:Hrunning.
  - exists w. split; [now apply Hagain|]. split; [exact Hrunning|].
    now apply Hagain.
  - destruct (StartIndexer_controllerState cs unfinalizedDuties w Hrunning)
      as (w' & Hrun & Hs & _).
    exists w'. split; [exact Hrun|].
    assert (Hr : running w' = true)
      by (unfold controllerState in Hs; now injection Hs).
    split; [exact Hr | now apply Hagain].
Qed.

(** ** The loop of the controller *)

Lemma runIndexerLoop_no_panic processFinalityEvent runCachePruning cs
    (events : list Event) :
  forall w p w',
    runIndexerLoop processFinalityEvent runCachePruning cs events w
    <> Panic p w'.
Proof.
  induction events as [|ev rest IH]; intros w p w'; cbn [runIndexerLoop];
    [discriminate|].
  destruct (handleEvent processFinalityEvent runCachePruning cs ev w);
    [apply IH | apply IH | discriminate].
Qed.

Lemma runIndexerLoop_app processFinalityEvent runCachePruning cs
    (events1 events2 : list Event) :
  forall w,
    runIndexerLoop processFinalityEvent runCachePruning cs
      (events1 ++ events2) w
    = match runIndexerLoop processFinalityEvent runCachePruning cs events1 w
      with
      | Ret _ w' =>
          runIndexerLoop processFinalityEvent runCachePruning cs events2 w'
      | Panic p w' => Panic p w'
      | Diverge => Diverge
      end.
Proof.
  induction events1 as [|ev rest IH]; intros w; cbn [app runIndexerLoop];
    [reflexivity|].
  destruct (handleEvent processFinalityEvent runCachePruning cs ev w);
    [apply IH | apply IH | reflexivity].
Qed.

(** X19.  No panic escapes [runIndexerLoop], whatever
    [processFinalityEvent] and [runCachePruning] do: the deferred function
    recovers it, logs it, and the loop goes on with the next event in the
    state the panic left.  So the loop handles a sequence of events as it
    handles a first part of it and then, from the state reached, the
    rest. *)
Theorem indexer_loop_recovers_every_panic
    processFinalityEvent runCachePruning cs (events1 events2 : list Event) w :
  (forall p w',
     runIndexerLoop processFinalityEvent runCachePruning cs events1 w
     <> Panic p w')
  /\ runIndexerLoop processFinalityEvent runCachePruning cs
       (events1 ++ events2) w
     = (runIndexerLoop processFinalityEvent runCachePruning cs events1;;
        runIndexerLoop processFinalityEvent runCachePruning cs events2) w
  /\ (forall ev p w1,
        handleEvent processFinalityEvent runCachePruning cs ev w = Panic p w1 ->
        exists line,
          runIndexerLoop processFinalityEvent runCachePruning cs
            (ev :: events2) w
          = runIndexerLoop processFinalityEvent runCachePruning cs events2
              (set_log (w_log w1 ++ [LogPanic line]) w1)).
Proof.
  split; [apply runIndexerLoop_no_panic|]. split.
  - rewrite runIndexerLoop_app. unfold mbind, M_bind. reflexivity.
  - intros ev p w1 Hpanic. eexists. cbn [runIndexerLoop].
    rewrite Hpanic. reflexivity.
Qed.

(** ** The prune pass of the wall-clock slot events *)

Lemma slotProgress_exact cs slotIndex :
  0 < SlotsPerEpoch (GetSpecs cs) ->
  0 <= slotIndex < SlotsPerEpoch (GetSpecs cs) ->
  slotProgress cs slotIndex = 100 / SlotsPerEpoch (GetSpecs cs) * slotIndex
  /\ 0 <= slotProgress cs slotIndex < 100.
Proof.
  intros Hspe Hidx. unfold slotProgress.
  set (spe := SlotsPerEpoch (GetSpecs cs)) in *.
  assert (Hq : 0 <= 100 / spe) by (apply Z.div_pos; lia).
  assert (Hmul : spe * (100 / spe) <= 100) by (apply Z.mul_div_le; lia).
  assert (Hbound : 0 <= 100 / spe * slotIndex < 100) by nia.
  unfold u8, u64, U64.modulus.
  rewrite (Z.mod_small (100 / spe * slotIndex)) by lia.
  rewrite Z.mod_small by lia. auto.
Qed.

Lemma onSlotEvent_exact runCachePruning cs number w :
  0 < SlotsPerEpoch (GetSpecs cs) ->
  0 <= number ->
  onSlotEvent runCachePruning cs number w
  = if (lastPruneRunEpoch w <? number / SlotsPerEpoch (GetSpecs cs))
       && (50 <=? 100 / SlotsPerEpoch (GetSpecs cs)
                  * (number mod SlotsPerEpoch (GetSpecs cs)))
    then slotEventPrune runCachePruning
           (number / SlotsPerEpoch (GetSpecs cs)) w
    else Ret tt w.
Proof.
  intros Hspe Hnumber. rewrite onSlotEvent_runs by lia.
  unfold EpochOfSlot, SlotToSlotIndex.
  destruct (slotProgress_exact cs (number mod SlotsPerEpoch (GetSpecs cs))
              Hspe) as (-> & _); [apply Z.mod_pos_bound; lia|].
  reflexivity.
Qed.

(** X20.  The progress a slot event computes is
    [100 / SlotsPerEpoch * slotIndex] in whole numbers, below 100 and
    never truncated by the conversion to [uint8].  A wall-clock slot event
    runs the prune pass, and then records the epoch of the slot as
    [lastPruneRunEpoch], exactly when that epoch is beyond
    [lastPruneRunEpoch] and the slot index times the floor of
    [100 / SlotsPerEpoch] is at least 50; otherwise it changes nothing. *)
Theorem slot_event_prunes_on_floored_percentage runCachePruning cs number w :
  0 < SlotsPerEpoch (GetSpecs cs) ->
  0 <= number ->
  let slotsPerEpoch := SlotsPerEpoch (GetSpecs cs) in
  slotProgress cs (number mod slotsPerEpoch)
  = 100 / slotsPerEpoch * (number mod slotsPerEpoch)
  /\ slotProgress cs (number mod slotsPerEpoch) < 100
  /\ onSlotEvent runCachePruning cs number w
     = if (lastPruneRunEpoch w <? number / slotsPerEpoch)
          && (50 <=? 100 / slotsPerEpoch * (number mod slotsPerEpoch))
       then slotEventPrune runCachePruning (number / slotsPerEpoch) w
       else Ret tt w.
Proof.
  intros Hspe Hnumber slotsPerEpoch.
  destruct (slotProgress_exact cs (number mod slotsPerEpoch) Hspe)
    as (Hprogress & Hbound); [apply Z.mod_pos_bound; exact Hspe|].
  split; [exact Hprogress|]. split; [lia|].
  now apply onSlotEvent_exact.
Qed.

Lemma slot_event_prunes_witness :
  slotProgress SampleLoop.mainnet (49 mod 32) = 100 / 32 * (49 mod 32)
  /\ slotProgress SampleLoop.mainnet (49 mod 32) < 100
  /\ onSlotEvent SampleController.failingPrune SampleLoop.mainnet 49
       Sample.world
     = slotEventPrune SampleController.failingPrune 1 Sample.world.
Proof.
  apply (slot_event_prunes_on_floored_percentage
           SampleController.failingPrune SampleLoop.mainnet 49 Sample.world).
  - cbn. lia.
  - lia.
Defined.

Lemma last_slot_reaches_half (slotsPerEpoch : Z) :
  2 <= slotsPerEpoch <= 100 ->
  50 <= 100 / slotsPerEpoch * (slotsPerEpoch - 1).
Proof.
  intros H.
  assert (Hall :
    forallb (fun s => 50 <=? 100 / s * (s - 1)) (map Z.of_nat (seq 2 99))
    = true) by (vm_compute; reflexivity).
  rewrite forallb_forall in Hall.
  apply Z.leb_le. apply Hall. apply in_map_iff.
  exists (Z.to_nat slotsPerEpoch). split; [lia|].
  apply in_seq. lia.
Qed.

(** X21.  Whether a wall-clock slot event can run the prune pass at all
    depends on [SlotsPerEpoch].  With one slot per epoch, or with more than
    a hundred, the computed progress never reaches 50 and no slot event
    ever runs it.  With two to a hundred slots per epoch, the event of the
    last slot of every epoch beyond [lastPruneRunEpoch] does. *)
Theorem slot_event_prune_depends_on_slots_per_epoch runCachePruning cs w :
  let slotsPerEpoch := SlotsPerEpoch (GetSpecs cs) in
  ((slotsPerEpoch = 1 \/ 100 < slotsPerEpoch) ->
   forall number,
     0 <= number -> onSlotEvent runCachePruning cs number w = Ret tt w)
  /\ (2 <= slotsPerEpoch <= 100 ->
      forall epoch,
        0 <= epoch ->
        lastPruneRunEpoch w < epoch ->
        onSlotEvent runCachePruning cs
          (epoch * slotsPerEpoch + (slotsPerEpoch - 1)) w
        = slotEventPrune runCachePruning epoch w).
Proof.
  intros slotsPerEpoch. split.
  - intros Hspe number Hnumber.
    rewrite onSlotEvent_exact by (fold slotsPerEpoch; lia).
    fold slotsPerEpoch.
    assert (Hzero : 100 / slotsPerEpoch * (number mod slotsPerEpoch) = 0).
    { destruct Hspe as [->|Hbig].
      - rewrite Z.mod_1_r. lia.
      - rewrite Z.div_small by lia. lia. }
    rewrite Hzero. cbn. now rewrite andb_false_r.
  - intros Hspe epoch Hepoch Hlast.
    rewrite onSlotEvent_exact by (fold slotsPerEpoch; nia).
    fold slotsPerEpoch.
    assert (Hdiv : (epoch * slotsPerEpoch + (slotsPerEpoch - 1))
                   / slotsPerEpoch = epoch).
    { symmetry. apply (Z.div_unique_pos _ _ _ (slotsPerEpoch - 1)); lia. }
    assert (Hmod : (epoch * slotsPerEpoch + (slotsPerEpoch - 1))
                   mod slotsPerEpoch = slotsPerEpoch - 1).
    { symmetry. apply (Z.mod_unique_pos _ _ epoch); lia. }
    rewrite Hdiv, Hmod.
    destruct (Z.ltb_spec (lastPruneRunEpoch w) epoch); [|lia].
    pose proof (last_slot_reaches_half slotsPerEpoch Hspe).
    destruct (Z.leb_spec 50 (100 / slotsPerEpoch * (slotsPerEpoch - 1)));
      [reflexivity | lia].
Qed.

Lemma slot_event_prune_witness :
  (forall number,
     0 <= number ->
     onSlotEvent SampleController.failingPrune
       {| GetSpecs :=
            {| SlotsPerEpoch := 128; AltairForkEpoch := 0;
               EpochsPerSyncCommitteePeriod := 256 |};
          CurrentEpoch := 1; FinalizedSlot := 0; FinalizedEpoch := 0 |}
       number Sample.world
     = Ret tt Sample.world)
  /\ onSlotEvent SampleController.failingPrune SampleLoop.mainnet
       (1 * 32 + (32 - 1)) Sample.world
     = slotEventPrune SampleController.failingPrune 1 Sample.world.
Proof.
  split.
  - apply (proj1 (slot_event_prune_depends_on_slots_per_epoch
                    SampleController.failingPrune _ Sample.world)).
    right. cbn. lia.
  - apply (proj2 (slot_event_prune_depends_on_slots_per_epoch
                    SampleController.failingPrune SampleLoop.mainnet
                    Sample.world)).
    + cbn. lia.
    + lia.
    + cbn. lia.
Defined.

Lemma prune_and_record_epoch runCachePruning epoch w w' :
  (err ← runCachePruning;
   match err with
   | Some e => logError "failed pruning cache" (Some e)
   | None => mret tt
   end;;
   modifyWorld (set_lastPruneRunEpoch epoch)) w = Ret tt w' ->
  lastPruneRunEpoch w' = epoch.
Proof.
  unfold mbind, M_bind.
  destruct (runCachePruning w) as [[e|] w1|p w1|]; try discriminate;
    unfold logError, mret, M_ret, modifyWorld; intros [= <-]; reflexivity.
Qed.

(** X22.  The prune pass runs at most once per epoch from the slot events.
    A slot event that changes the state has found its epoch beyond
    [lastPruneRunEpoch] and leaves it recorded there, also when
    [runCachePruning] answered an error; a handled finality event leaves
    the current epoch recorded there; and a slot event of an epoch that is
    not beyond [lastPruneRunEpoch] changes nothing.  So after either, the
    later slot events of that epoch, and of earlier ones, do not run the
    pass again. *)
Theorem prune_pass_runs_once_per_epoch
    processFinalityEvent runCachePruning cs :
  SlotsPerEpoch (GetSpecs cs) <> 0 ->
  (forall number w w',
     onSlotEvent runCachePruning cs number w = Ret tt w' ->
     w' = w
     \/ (lastPruneRunEpoch w < EpochOfSlot cs number
         /\ lastPruneRunEpoch w' = EpochOfSlot cs number))
  /\ (forall finalityEvent w w',
        onFinalityEvent processFinalityEvent runCachePruning cs
          finalityEvent w = Ret tt w' ->
        lastPruneRunEpoch w' = CurrentEpoch cs)
  /\ (forall number w,
        EpochOfSlot cs number <= lastPruneRunEpoch w ->
        onSlotEvent runCachePruning cs number w = Ret tt w).
Proof.
  intros Hspe. repeat split.
  - intros number w w'. rewrite onSlotEvent_runs by exact Hspe.
    destruct (Z.ltb_spec (lastPruneRunEpoch w) (EpochOfSlot cs number));
      cbn [andb]; [|intros [= <-]; now left].
    destruct (50 <=? slotProgress cs (SlotToSlotIndex cs number));
      [|intros [= <-]; now left].
    intros Hrun. right. split; [assumption|].
    now apply (prune_and_record_epoch runCachePruning _ w).
  - intros finalityEvent w w'. rewrite onFinalityEvent_split.
    destruct ((finality_process processFinalityEvent finalityEvent;;
               finality_advancePruned) w) as [[] w2|p w2|];
      try discriminate.
    unfold finality_prune.
    apply (prune_and_record_epoch runCachePruning (CurrentEpoch cs) w2).
  - intros number w Hepoch. rewrite onSlotEvent_runs by exact Hspe.
    destruct (Z.ltb_spec (lastPruneRunEpoch w) (EpochOfSlot cs number));
      [lia | reflexivity].
Qed.

Lemma prune_pass_once_witness :
  (forall number w w',
     onSlotEvent SampleController.failingPrune SampleLoop.mainnet number w
     = Ret tt w' ->
     w' = w
     \/ (lastPruneRunEpoch w < EpochOfSlot SampleLoop.mainnet number
         /\ lastPruneRunEpoch w' = EpochOfSlot SampleLoop.mainnet number))
  /\ (forall finalityEvent w w',
        onFinalityEvent SampleController.recordFinalized
          SampleController.failingPrune SampleLoop.mainnet finalityEvent w
        = Ret tt w' ->
        lastPruneRunEpoch w' = 1)
  /\ (forall number w,
        EpochOfSlot SampleLoop.mainnet number <= lastPruneRunEpoch w ->
        onSlotEvent SampleController.failingPrune SampleLoop.mainnet number w
        = Ret tt w).
Proof.
  apply (prune_pass_runs_once_per_epoch SampleController.recordFinalized
           SampleController.failingPrune SampleLoop.mainnet).
  cbn. discriminate.
Defined.

(** ** The pruning cursor over the loop *)

Lemma handleEvent_raises_prunedEpoch processFinalityEvent runCachePruning cs
    ev w :
  (forall finalityEvent,
     keepsPrunedEpoch (processFinalityEvent finalityEvent)) ->
  keepsPrunedEpoch runCachePruning ->
  match handleEvent processFinalityEvent runCachePruning cs ev w with
  | Ret _ w' | Panic _ w' => lastPrunedEpoch w <= lastPrunedEpoch w'
  | Diverge => True
  end.
Proof.
  intros Hpfe Hrcp. destruct ev as [finalityEvent|number];
    cbn [handleEvent].
  - rewrite onFinalityEvent_split.
    unfold mbind at 1. unfold M_bind at 1. unfold finality_process.
    unfold mbind at 1. unfold M_bind at 1.
    specialize (Hpfe finalityEvent w).
    destruct (processFinalityEvent finalityEvent w) as [err w1|p w1|];
      [|lia | exact I].
    set (w1' := match err with
                | Some e =>
                    set_log (w_log w1 ++
                             [LogError "error processing finality event"
                                       (Some e)]) w1
                | None => w1
                end).
    assert (Hlog :
      match err with
      | Some e => logError "error processing finality event" (Some e)
      | None => mret tt
      end w1 = Ret tt w1') by (destruct err; reflexivity).
    rewrite Hlog.
    assert (Hp1 : lastPrunedEpoch w1' = lastPrunedEpoch w1)
      by (destruct err; reflexivity).
    destruct (finality_advancePruned_cases w1') as (w2 & Hadv & _ & Hcases).
    rewrite Hadv.
    assert (Hp2 : lastPrunedEpoch w1' <= lastPrunedEpoch w2).
    { destruct (Z.ltb_spec (lastPrunedEpoch w1') (lastFinalizedEpoch w1')).
      - destruct Hcases as (-> & _). lia.
      - subst w2. lia. }
    unfold finality_prune, mbind, M_bind.
    specialize (Hrcp w2).
    destruct (runCachePruning w2) as [[e|] w3|p w3|];
      unfold logError, mret, M_ret, modifyWorld; cbn; try lia; exact I.
  - unfold onSlotEvent.
    destruct (SlotsPerEpoch (GetSpecs cs) =? 0); [unfold panic; lia|].
    unfold mbind at 1. unfold M_bind at 1. unfold getWorld.
    destruct ((lastPruneRunEpoch w <? EpochOfSlot cs number)
              && (50 <=? slotProgress cs (SlotToSlotIndex cs number)));
      [|unfold mret, M_ret; lia].
    unfold mbind, M_bind. specialize (Hrcp w).
    destruct (runCachePruning w) as [[e|] w3|p w3|];
      unfold logError, mret, M_ret, modifyWorld; cbn; try lia; exact I.
Qed.

(** X23.  The pruning cursor never moves back over the loop.  If neither
    [processFinalityEvent] nor [runCachePruning] assigns [lastPrunedEpoch],
    then however many finality and slot events [runIndexerLoop] handles,
    with errors and recovered panics among them, [lastPrunedEpoch] at the
    end is not below what it was at the start. *)
Theorem pruning_cursor_never_moves_back
    processFinalityEvent runCachePruning cs (events : list Event) w w' :
  (forall finalityEvent,
     keepsPrunedEpoch (processFinalityEvent finalityEvent)) ->
  keepsPrunedEpoch runCachePruning ->
  runIndexerLoop processFinalityEvent runCachePruning cs events w = Ret tt w' ->
  lastPrunedEpoch w <= lastPrunedEpoch w'.
Proof.
  intros Hpfe Hrcp. revert w.
  induction events as [|ev rest IH]; intros w; cbn [runIndexerLoop].
  - intros [= <-]. lia.
  - pose proof (handleEvent_raises_prunedEpoch processFinalityEvent
                  runCachePruning cs ev w Hpfe Hrcp) as Hstep.
    destruct (handleEvent processFinalityEvent runCachePruning cs ev w)
      as [[] w1|p w1|]; [| |discriminate].
    + intros Hrun. specialize (IH w1 Hrun). lia.
    + intros Hrun. specialize (IH _ Hrun). cbn in IH. lia.
Qed.

Lemma pruning_cursor_witness :
  exists w',
    runIndexerLoop SampleController.recordFinalized
      SampleController.panickingPrune SampleLoop.mainnet
      [FinalityEvent (SampleLoop.finalityOfEpoch 2); WallclockSlotEvent 120;
       FinalityEvent (SampleLoop.finalityOfEpoch 1)]
      SampleLoop.rejectingWorld = Ret tt w'
    /\ lastPrunedEpoch SampleLoop.rejectingWorld <= lastPrunedEpoch w'.
Proof.
  eexists. split; [vm_compute; reflexivity|].
  apply (pruning_cursor_never_moves_back SampleController.recordFinalized
           SampleController.panickingPrune SampleLoop.mainnet
           [FinalityEvent (SampleLoop.finalityOfEpoch 2);
            WallclockSlotEvent 120;
            FinalityEvent (SampleLoop.finalityOfEpoch 1)]
           SampleLoop.rejectingWorld).
  - intros finalityEvent w. reflexivity.
  - intros w. reflexivity.
  - vm_compute. reflexivity.
Defined.

(** ** [NewIndexer] *)

(** X24.  The settings of a new indexer.  [inMemoryEpochs],
    [cachePersistenceDelay] and [maxParallelStateCalls] are never below 2:
    a configured value of 2 or more is kept, the last one after its
    conversion to [uint16], so that a configured 65536 becomes 2.  The
    static spec handed to the SSZ encoder is empty whenever marshalling
    the chain specs succeeded, because the document is only unmarshalled
    when marshalling answered an error. *)
Theorem NewIndexer_settings yamlMarshal yamlUnmarshal config cs :
  let indexer := NewIndexer yamlMarshal yamlUnmarshal config cs in
  inMemoryEpochs indexer = Z.max 2 (InMemoryEpochs config)
  /\ cachePersistenceDelay indexer = Z.max 2 (CachePersistenceDelay config)
  /\ maxParallelStateCalls indexer
     = Z.max 2 (MaxParallelValidatorSetRequests config mod 2 ^ 16)
  /\ 2 <= maxParallelStateCalls indexer < 2 ^ 16
  /\ (snd (yamlMarshal (GetSpecs cs)) = None -> staticSpec indexer = []).
Proof.
  unfold NewIndexer.
  destruct (yamlMarshal (GetSpecs cs)) as [specYaml [e|]];
    cbn [inMemoryEpochs cachePersistenceDelay maxParallelStateCalls
         staticSpec snd]; unfold u16;
    pose proof (Z.mod_pos_bound (MaxParallelValidatorSetRequests config)
                  (2 ^ 16) ltac:(lia));
    destruct (Z.ltb_spec (InMemoryEpochs config) 2);
    destruct (Z.ltb_spec (CachePersistenceDelay config) 2);
    destruct (Z.ltb_spec (MaxParallelValidatorSetRequests config mod 2 ^ 16)
                2);
    repeat split; try lia; try discriminate; reflexivity.
Qed.

(** ** The epoch row and the callback of [buildDbEpoch] *)

Lemma buildDbEpoch_loop_without_callback blocks (n : nat) :
  forall fuel lastSlot slot blockIdx depositIndex dbEpoch w,
    (n < fuel)%nat ->
    0 <= slot ->
    slot + Z.of_nat n < U64.modulus ->
    lastSlot = slot + Z.of_nat n - 1 ->
    exists w',
      buildDbEpoch_loop fuel blocks None lastSlot slot blockIdx depositIndex
        dbEpoch w
      = Ret (epochTotals (takenBlocks (slotWalk blocks n slot blockIdx))
                         dbEpoch) w'
      /\ extends [] w w'.
Proof.
  induction n as [|n IH];
    intros fuel lastSlot slot blockIdx di e w Hfuel Hslot Hmax ->;
    (destruct fuel as [|fuel]; [lia|]); cbn [buildDbEpoch_loop slotWalk].
  - destruct (Z.leb_spec slot (slot + Z.of_nat 0 - 1)); [lia|].
    exists w. split; [reflexivity | apply extends_refl].
  - destruct (Z.leb_spec slot (slot + Z.of_nat (S n) - 1)); [|lia].
    rewrite (u64_small (slot + 1)) by lia.
    assert (Hlast : slot + Z.of_nat (S n) - 1 = slot + 1 + Z.of_nat n - 1)
      by lia.
    destruct (blockAt blocks blockIdx slot) as [b|];
      cbn [takenBlocks flat_map snd app epochTotals].
    + fold (takenBlocks (slotWalk blocks n (slot + 1) (S blockIdx))).
      destruct (GetBlock b) as [body|] eqn:Hb.
      * unfold mbind at 1. unfold M_bind at 1. unfold mret at 1.
        unfold M_ret at 1.
        apply IH; auto; lia.
      * unfold mbind at 1. unfold M_bind at 1.
        unfold logError, modifyWorld.
        destruct (IH fuel (slot + Z.of_nat (S n) - 1) (slot + 1)
                    (S blockIdx) di (epoch_incBlockCount e)
                    (set_log
                       (w_log w ++
                        [LogError
                           "error while building db epoch: block body not found for aggregation"
                           None]) w))
          as (w2 & Hloop & Hext2); [lia | lia | lia | exact Hlast |].
        exists w2. split; [exact Hloop|].
        exact (extends_trans [] _ _ _ _ (extends_set_log _ w) Hext2).
    + fold (takenBlocks (slotWalk blocks n (slot + 1) blockIdx)).
      apply IH; auto; lia.
Qed.

(** X25.  The epoch row does not depend on the callback or on the
    database.  For an epoch whose slots fit [uint64], [buildDbEpoch]
    returns, within [SlotsPerEpoch] rounds of its loop; without a callback
    it executes no statement; and with the callback of [persistEpochData],
    whatever the database does with the statements of the blocks, it
    answers the same epoch row as without one. *)
Theorem epoch_row_does_not_depend_on_the_callback
    cs epoch blocks epochStats epochVotes w1 w2 :
  epochInRange cs epoch ->
  exists dbEpoch w1' w2',
    buildDbEpoch cs epoch blocks epochStats epochVotes None w1
    = Ret dbEpoch w1'
    /\ w_tx w1' = w_tx w1
    /\ w_committed w1' = w_committed w1
    /\ buildDbEpoch cs epoch blocks epochStats epochVotes
         (Some (persistEpochData_blockFn cs epochStats 0)) w2
       = Ret dbEpoch w2'
    /\ dbtypes.Epoch.Epoch dbEpoch = epoch.
Proof.
  intros Hrange.
  destruct (EpochStartSlot_inRange cs epoch Hrange) as (Hfirst & Hfirst0).
  destruct Hrange as ((Hpos & Hint) & Hepoch & Hmax).
  rewrite <- Hfirst in Hmax.
  set (firstSlot := EpochStartSlot cs epoch) in *.
  set (spe := SlotsPerEpoch (GetSpecs cs)) in *.
  unfold buildDbEpoch. fold spe firstSlot.
  rewrite (u64_small (firstSlot + spe - 1)) by lia.
  set (vals := match epochStats with
               | Some _ => GetValues cs epochStats
               | None => None
               end).
  set (di := match vals with
             | Some v => Some (FirstDepositIndex v)
             | None => None
             end).
  destruct (buildDbEpoch_loop_without_callback blocks (Z.to_nat spe)
              (S (Z.to_nat spe)) (firstSlot + spe - 1) firstSlot 0%nat di
              (newDbEpoch epoch epochVotes vals) w1)
    as (w1' & Hloop1 & Htx & _ & Hc); [lia | lia | lia | lia |].
  destruct (buildDbEpoch_loop_any cs epochStats blocks (Z.to_nat spe)
              (S (Z.to_nat spe)) (firstSlot + spe - 1) firstSlot 0%nat di
              (newDbEpoch epoch epochVotes vals) w2)
    as (ops2 & w2' & Hloop2 & _); [lia | lia | lia | lia |].
  eexists _, w1', w2'. split; [exact Hloop1|].
  split; [now rewrite Htx, app_nil_r|]. split; [exact Hc|].
  split; [exact Hloop2|].
  generalize (takenBlocks (slotWalk blocks (Z.to_nat spe) firstSlot 0%nat)).
  intros taken.
  assert (Hkeep : forall e, dbtypes.Epoch.Epoch (epochTotals taken e)
                            = dbtypes.Epoch.Epoch e).
  { induction taken as [|b rest IH]; intros e; cbn [epochTotals];
      [reflexivity|].
    destruct (GetBlock b); rewrite IH; reflexivity. }
  rewrite Hkeep. reflexivity.
Qed.

Lemma epoch_row_callback_witness :
  exists dbEpoch w1' w2',
    buildDbEpoch Sample.chain 1
      [Sample.blockAtSlot 4; SampleDb.bodilessBlockAtSlot 6]
      (Some (Sample.stats 1)) None None Sample.world
    = Ret dbEpoch w1'
    /\ w_tx w1' = []
    /\ w_committed w1' = []
    /\ buildDbEpoch Sample.chain 1
         [Sample.blockAtSlot 4; SampleDb.bodilessBlockAtSlot 6]
         (Some (Sample.stats 1)) None
         (Some (persistEpochData_blockFn Sample.chain
                  (Some (Sample.stats 1)) 0))
         SampleDb.depositsRejected
       = Ret dbEpoch w2'
    /\ dbtypes.Epoch.Epoch dbEpoch = 1.
Proof.
  exact (epoch_row_does_not_depend_on_the_callback Sample.chain 1
           [Sample.blockAtSlot 4; SampleDb.bodilessBlockAtSlot 6]
           (Some (Sample.stats 1)) None Sample.world
           SampleDb.depositsRejected sample_epoch_inRange).
Defined.

(** ** The errors of [persistEpochData] *)

(** X26.  The errors of [persistEpochData].  For an epoch whose slots fit
    [uint64] and whose proposer duties cover it, whatever the database
    does, [persistEpochData] returns, with or without a transaction of the
    caller, and what it returns is no error, or the error of the database
    on a row of a missed slot wrapped as "error while adding missed slot
    to db", or its error on the epoch row wrapped as "error while saving
    epoch to db".  An error on a statement of a block is never
    returned. *)
Theorem epoch_returns_only_missed_slot_and_epoch_errors
    tx cs epoch blocks epochStats epochVotes w :
  epochInRange cs epoch ->
  dutiesCover cs epochStats ->
  exists err w',
    persistEpochData tx cs epoch blocks epochStats epochVotes w = Ret err w'
    /\ (err = None
        \/ err = Some (Errorf "error while adding missed slot to db"
                              (DbError "InsertMissingSlot"))
        \/ err = Some (Errorf "error while saving epoch to db"
                              (DbError "InsertEpoch"))).
Proof.
  intros Hrange Hduties. destruct tx as [tx|]; cbn [persistEpochData].
  - destruct (persistEpochData_in_frame cs epoch blocks epochStats epochVotes
                w Hrange Hduties) as (err & ops & w' & Hrun & _ & Herr).
    exists err, w'. auto.
  - destruct (persistEpochData_in_frame cs epoch blocks epochStats epochVotes
                (set_tx [] w) Hrange Hduties)
      as (err & ops & w' & Hrun & _ & Herr).
    unfold db.RunDBTransaction. rewrite Hrun.
    destruct err as [e|]; eexists _, _; (split; [reflexivity | exact Herr]).
Qed.

Lemma epoch_errors_witness :
  exists err w',
    persistEpochData (Some OpenTx) Sample.chain 1
      [Sample.blockAtSlot 4; Sample.blockAtSlot 6] (Some (Sample.stats 1))
      None SampleLoop.rejectingWorld = Ret err w'
    /\ (err = None
        \/ err = Some (Errorf "error while adding missed slot to db"
                              (DbError "InsertMissingSlot"))
        \/ err = Some (Errorf "error while saving epoch to db"
                              (DbError "InsertEpoch"))).
Proof.
  exact (epoch_returns_only_missed_slot_and_epoch_errors (Some OpenTx)
           Sample.chain 1 [Sample.blockAtSlot 4; Sample.blockAtSlot 6]
           (Some (Sample.stats 1)) None SampleLoop.rejectingWorld
           sample_epoch_inRange sample_duties_cover).
Defined.

(** ** Rows of the unfinalized duties that are not restored *)

(** X27.  The two ways a row of the unfinalized duties is not restored by
    [StartIndexer].  A row below the finalized epoch is skipped before the
    cache is touched.  For a row at or above it, the entry is created
    before the payload is decoded: when the payload does not decode, the
    error is logged and the entry that was created for the row stays in the
    cache, without values, not marked as in the database and not
    pruned. *)
Theorem failed_restore_leaves_an_empty_entry finalizedEpoch dbDuty w :
  (DutyEpoch dbDuty < finalizedEpoch ->
   restoreUnfinalizedDuty finalizedEpoch dbDuty w = Ret tt w)
  /\ (finalizedEpoch <= DutyEpoch dbDuty ->
      DutiesSSZ dbDuty = None ->
      epochCache w !! dutyKey dbDuty = None ->
      exists w' es line,
        restoreUnfinalizedDuty finalizedEpoch dbDuty w = Ret tt w'
        /\ epochCache w' !! dutyKey dbDuty = Some es
        /\ values es = None
        /\ isInDb es = false
        /\ pruned es = false
        /\ w_log w' = w_log w ++ [line]
        /\ forall key, key <> dutyKey dbDuty ->
                       epochCache w' !! key = epochCache w !! key).
Proof.
  unfold restoreUnfinalizedDuty, dutyKey. split.
  - intros Hlt. destruct (Z.ltb_spec (DutyEpoch dbDuty) finalizedEpoch);
      [reflexivity | lia].
  - intros Hge Hnone Hfresh.
    destruct (Z.ltb_spec (DutyEpoch dbDuty) finalizedEpoch); [lia|].
    unfold mbind at 1. unfold M_bind at 1. unfold createOrGetEpochStats.
    rewrite Hfresh.
    unfold mbind at 1. unfold M_bind at 1. unfold restoreFromDb.
    rewrite Hnone.
    unfold mret, M_ret, logError, modifyWorld.
    eexists _, _, _. split; [reflexivity|].
    cbn [epochCache set_log set_epochCache w_log].
    split; [apply lookup_insert_eq|].
    repeat split. intros key Hkey. now apply lookup_insert_ne.
Qed.

Lemma failed_restore_witness :
  restoreUnfinalizedDuty 3 (SampleController.undecodableDutyOfEpoch 2)
    Sample.world
  = Ret tt Sample.world
  /\ exists w' es line,
       restoreUnfinalizedDuty 1 (SampleController.undecodableDutyOfEpoch 2)
         Sample.world
       = Ret tt w'
       /\ epochCache w' !! (2, 9) = Some es
       /\ values es = None
       /\ isInDb es = false
       /\ pruned es = false
       /\ w_log w' = [line]
       /\ forall key, key <> (2, 9) ->
                      epochCache w' !! key = epochCache Sample.world !! key.
Proof.
  split.
  - apply (proj1 (failed_restore_leaves_an_empty_entry 3
                    (SampleController.undecodableDutyOfEpoch 2) Sample.world)).
    cbn. lia.
  - apply (proj2 (failed_restore_leaves_an_empty_entry 1
                    (SampleController.undecodableDutyOfEpoch 2) Sample.world)).
    + cbn. lia.
    + reflexivity.
    + reflexivity.
Defined.

(** ** Block count and missed slots of any block list *)

Lemma length_takenBlocks blocks (n : nat) :
  forall slot blockIdx,
    (length (takenBlocks (slotWalk blocks n slot blockIdx)) + blockIdx
     <= Nat.max blockIdx (length blocks))%nat.
Proof.
  unfold takenBlocks.
  induction n as [|n IH]; intros slot blockIdx; cbn [slotWalk flat_map];
    [cbn; lia|].
  unfold blockAt.
  destruct (nth_error blocks blockIdx) as [b|] eqn:Hnth.
  - assert (Hlt : (blockIdx < length blocks)%nat)
      by (apply nth_error_Some; congruence).
    destruct (Slot b =? slot); cbn [flat_map snd app length].
    + specialize (IH (slot + 1) (S blockIdx)). lia.
    + specialize (IH (slot + 1) blockIdx). lia.
  - cbn [flat_map snd app]. specialize (IH (slot + 1) blockIdx). lia.
Qed.

(** X28.  Every slot of the epoch is counted as a block or written as
    missed, whatever the block list: sorted or not, with blocks of other
    epochs or with several blocks of one slot.  In every run of
    [persistEpochData] that answers no error, whatever the database did
    with the statements of the blocks, [BlockCount] of the epoch row and
    the number of rows with status Missing add up to [SlotsPerEpoch], and
    [BlockCount] is at most the length of the list. *)
Theorem block_count_plus_missing_for_any_block_list
    tx cs epoch blocks epochStats epochVotes w :
  epochInRange cs epoch ->
  dutiesCover cs epochStats ->
  exists err w',
    persistEpochData tx cs epoch blocks epochStats epochVotes w = Ret err w'
    /\ (err = None ->
        exists dbEpoch,
          epochRowsOf (persistedOps tx w w') = [dbEpoch]
          /\ dbtypes.Epoch.BlockCount dbEpoch
             + Z.of_nat (missingCount (persistedOps tx w w'))
             = SlotsPerEpoch (GetSpecs cs)
          /\ 0 <= dbtypes.Epoch.BlockCount dbEpoch
             <= Z.of_nat (length blocks)).
Proof.
  intros Hrange Hduties.
  destruct (persistEpochData_any tx cs epoch blocks epochStats epochVotes w
              Hrange Hduties) as (err & w' & Hrun & _ & Hops).
  exists err, w'. split; [exact Hrun|].
  intros Herr. destruct (Hops Herr) as (blockOps & HP & ->).
  destruct (blockOps_rows blockOps HP) as (_ & Hmissed & Hepoch & Hslots).
  destruct Hrange as ((Hpos & Hint) & Hepoch0 & Hmax).
  set (walk := slotWalk blocks (Z.to_nat (SlotsPerEpoch (GetSpecs cs)))
                 (EpochStartSlot cs epoch) 0%nat).
  assert (Hlen := length_taken_missed (GetValues cs epochStats)
                    (EpochStartSlot cs epoch) walk).
  unfold walk in Hlen at 3. rewrite length_slotWalk in Hlen.
  assert (Htaken := length_takenBlocks blocks
                      (Z.to_nat (SlotsPerEpoch (GetSpecs cs)))
                      (EpochStartSlot cs epoch) 0%nat).
  fold walk in Htaken.
  assert (Hcount :
    dbtypes.Epoch.BlockCount
      (epochTotals (takenBlocks walk)
         (newDbEpoch epoch epochVotes (GetValues cs epochStats)))
    = Z.of_nat (length (takenBlocks walk))).
  { rewrite epochTotals_BlockCount; cbn; unfold U64.modulus in *; lia. }
  eexists. split.
  { rewrite !epochRowsOf_app, Hepoch. unfold epochRowsOf at 1.
    rewrite (flat_map_InsertMissingSlot _ (fun _ => [])) by reflexivity.
    rewrite flat_map_nil. reflexivity. }
  fold walk. rewrite Hcount. split; [|lia].
  unfold missingCount.
  rewrite !slotRowsOf_app, !missedSlotRowsOf_app, Hmissed.
  unfold slotRowsOf at 2 3, missedSlotRowsOf at 1 2.
  rewrite (flat_map_InsertMissingSlot _ (fun _ => [])) by reflexivity.
  rewrite (flat_map_InsertMissingSlot _ (fun h => [h])) by reflexivity.
  rewrite flat_map_nil, flat_map_singleton. cbn [flat_map app].
  rewrite !app_nil_r, Hslots, missedOf_all_missing.
  cbn [length]. lia.
Qed.

Lemma block_count_any_list_witness :
  exists err w',
    persistEpochData (Some OpenTx) Sample.chain 1
      [Sample.blockAtSlot 6; Sample.blockAtSlot 4; Sample.blockAtSlot 6;
       Sample.blockAtSlot 9]
      (Some (Sample.stats 1)) None Sample.world = Ret err w'
    /\ (err = None ->
        exists dbEpoch,
          epochRowsOf (persistedOps (Some OpenTx) Sample.world w')
          = [dbEpoch]
          /\ dbtypes.Epoch.BlockCount dbEpoch
             + Z.of_nat
                 (missingCount (persistedOps (Some OpenTx) Sample.world w'))
             = 4
          /\ 0 <= dbtypes.Epoch.BlockCount dbEpoch <= 4).
Proof.
  exact (block_count_plus_missing_for_any_block_list (Some OpenTx)
           Sample.chain 1
           [Sample.blockAtSlot 6; Sample.blockAtSlot 4; Sample.blockAtSlot 6;
            Sample.blockAtSlot 9]
           (Some (Sample.stats 1)) None Sample.world
           sample_epoch_inRange sample_duties_cover).
Defined.

(** ** The flag of a block and a transaction that is rolled back *)

Lemma acceptsSlotRows_extends ops w w' :
  extends ops w w' -> acceptsSlotRows w -> acceptsSlotRows w'.
Proof. intros (_ & Hf & _) H tx row. rewrite Hf. apply H. Qed.

(** The closure of [persistEpochData] flags the block when its slot row is
    accepted, whatever becomes of the child objects. *)
Lemma persistEpochData_blockFn_flags cs epochStats block blockBody
    depositIndex w :
  acceptsSlotRows w ->
  GetBlock block = Some blockBody ->
  exists di ops w',
    persistEpochData_blockFn cs epochStats 0 block depositIndex w = Ret di w'
    /\ extends ops w w'
    /\ w_inFinalizedDb w' = Root block :: w_inFinalizedDb w.
Proof.
  intros Hacc Hb.
  pose proof (persistBlockData_any cs block blockBody epochStats depositIndex
                false (Some 0) w Hb) as Hany.
  cbv zeta in Hany. rewrite Hacc in Hany.
  destruct Hany as (err & ops & rest & Hrun & _ & _).
  unfold persistEpochData_blockFn.
  unfold mbind at 1. unfold M_bind at 1. rewrite Hrun.
  destruct err as [e|]; eexists _, (_ :: ops), _;
    (split; [reflexivity|]);
    (split; [|reflexivity]);
    unfold extends, addOps; cbn; auto.
Qed.

Lemma buildDbEpoch_loop_flags cs epochStats blocks (n : nat) :
  forall fuel lastSlot slot blockIdx depositIndex dbEpoch w,
    acceptsSlotRows w ->
    (n < fuel)%nat ->
    0 <= slot ->
    slot + Z.of_nat n < U64.modulus ->
    lastSlot = slot + Z.of_nat n - 1 ->
    exists r ops w',
      buildDbEpoch_loop fuel blocks
        (Some (persistEpochData_blockFn cs epochStats 0))
        lastSlot slot blockIdx depositIndex dbEpoch w
      = Ret r w'
      /\ extends ops w w'
      /\ w_inFinalizedDb w'
         = rev (map Root
                  (List.filter hasBody
                     (takenBlocks (slotWalk blocks n slot blockIdx))))
           ++ w_inFinalizedDb w.
Proof.
  induction n as [|n IH];
    intros fuel lastSlot slot blockIdx di e w H Hfuel Hslot Hmax ->;
    (destruct fuel as [|fuel]; [lia|]); cbn [buildDbEpoch_loop slotWalk].
  - destruct (Z.leb_spec slot (slot + Z.of_nat 0 - 1)); [lia|].
    exists e, [], w. split; [reflexivity|].
    split; [apply extends_refl | reflexivity].
  - destruct (Z.leb_spec slot (slot + Z.of_nat (S n) - 1)); [|lia].
    rewrite (u64_small (slot + 1)) by lia.
    assert (Hlast : slot + Z.of_nat (S n) - 1 = slot + 1 + Z.of_nat n - 1)
      by lia.
    destruct (blockAt blocks blockIdx slot) as [b|];
      cbn [takenBlocks flat_map snd app List.filter].
    + fold (takenBlocks (slotWalk blocks n (slot + 1) (S blockIdx))).
      unfold hasBody at 1.
      destruct (GetBlock b) as [body|] eqn:Hb.
      * destruct (persistEpochData_blockFn_flags cs epochStats b body di
                    w H Hb) as (di1 & ops1 & w1 & Hfn & Hext1 & Hflag1).
        unfold mbind at 1. unfold M_bind at 1. rewrite Hfn.
        destruct (IH fuel (slot + Z.of_nat (S n) - 1) (slot + 1)
                    (S blockIdx) di1
                    (epoch_addBody body (epoch_incBlockCount e)) w1)
          as (r & ops2 & w2 & Hloop & Hext2 & Hflag2);
          [eapply acceptsSlotRows_extends; eauto
          | lia | lia | lia | exact Hlast |].
        exists r, (ops1 ++ ops2), w2. split; [exact Hloop|].
        split; [eapply extends_trans; eauto|].
        rewrite Hflag2, Hflag1. cbn [map rev].
        rewrite <- app_assoc. reflexivity.
      * unfold mbind at 1. unfold M_bind at 1.
        unfold logError, modifyWorld.
        destruct (IH fuel (slot + Z.of_nat (S n) - 1) (slot + 1)
                    (S blockIdx) di (epoch_incBlockCount e)
                    (set_log
                       (w_log w ++
                        [LogError
                           "error while building db epoch: block body not found for aggregation"
                           None]) w))
          as (r & ops2 & w2 & Hloop & Hext2 & Hflag2);
          [intros ? ?; apply H | lia | lia | lia | exact Hlast |].
        exists r, ops2, w2. split; [exact Hloop|].
        split; [|exact Hflag2].
        exact (extends_trans [] _ _ _ _ (extends_set_log _ w) Hext2).
    + fold (takenBlocks (slotWalk blocks n (slot + 1) blockIdx)).
      apply IH; auto; lia.
Qed.

(** The loop of [persistMissedSlots] touches no flag of a block. *)
Lemma persistMissedSlots_loop_flags blocks epochStatsValues firstSlot
    lastSlot (fuel : nat) :
  forall slot blockIdx w err w',
    persistMissedSlots_loop fuel blocks epochStatsValues firstSlot lastSlot
      slot blockIdx w = Ret err w' ->
    w_inFinalizedDb w' = w_inFinalizedDb w
    /\ w_dbFail w' = w_dbFail w.
Proof.
  induction fuel as [|fuel IH]; intros slot blockIdx w err w';
    cbn [persistMissedSlots_loop]; [discriminate|].
  destruct (slot <? lastSlot).
  - destruct (blockAt blocks blockIdx slot) as [b|]; [apply IH|].
    unfold mbind at 1. unfold M_bind at 1.
    destruct (match epochStatsValues with
              | None => mret MaxInt64
              | Some v =>
                  match index_at (ProposerDuties v)
                                 (to_int (u64 (slot - firstSlot))) with
                  | Some p => mret p
                  | None => panic IndexOutOfRange
                  end
              end w) as [p w1|p w1|] eqn:Hp; [|discriminate|discriminate].
    assert (w1 = w) as ->.
    { destruct epochStatsValues as [v|];
        [destruct (index_at _ _)|]; cbv in Hp; congruence. }
    unfold mbind at 1. unfold M_bind at 1.
    unfold db.InsertMissingSlot, dbExec.
    destruct (w_dbFail w (w_tx w) _).
    + intros [= <- <-]. auto.
    + intros Hloop. apply IH in Hloop. exact Hloop.
  - intros [= <- <-]. auto.
Qed.

Lemma persistEpochData_in_flags cs epoch blocks epochStats epochVotes w :
  acceptsSlotRows w ->
  rejectsEpochRows w ->
  epochInRange cs epoch ->
  dutiesCover cs epochStats ->
  exists e w',
    persistEpochData_in cs epoch blocks epochStats epochVotes w
    = Ret (Some e) w'
    /\ w_committed w' = w_committed w
    /\ w_inFinalizedDb w'
       = rev (map Root
                (List.filter hasBody
                   (takenBlocks
                      (slotWalk blocks
                         (Z.to_nat (SlotsPerEpoch (GetSpecs cs)))
                         (EpochStartSlot cs epoch) 0%nat))))
         ++ w_inFinalizedDb w.
Proof.
  intros Hacc Hrej Hrange Hduties.
  destruct (EpochStartSlot_inRange cs epoch Hrange) as (Hfirst & Hfirst0).
  destruct Hrange as ((Hpos & Hint) & Hepoch & Hmax).
  rewrite <- Hfirst in Hmax.
  set (firstSlot := EpochStartSlot cs epoch) in *.
  set (vals := GetValues cs epochStats).
  set (spe := SlotsPerEpoch (GetSpecs cs)) in *.
  assert (Hvals :
    match epochStats with
    | Some _ => GetValues cs epochStats
    | None => None
    end = vals) by (destruct epochStats; reflexivity).
  unfold persistEpochData_in, buildDbEpoch. rewrite Hvals.
  fold spe firstSlot.
  rewrite (u64_small (firstSlot + spe - 1)) by lia.
  destruct (buildDbEpoch_loop_flags cs epochStats blocks (Z.to_nat spe)
              (S (Z.to_nat spe)) (firstSlot + spe - 1) firstSlot 0%nat
              (FirstDepositIndex <$> vals)
              (newDbEpoch epoch epochVotes vals) w Hacc)
    as (r & ops1 & w1 & Hloop & Hext1 & Hflag1); [lia | lia | lia | lia |].
  unfold mbind at 1. unfold M_bind at 1.
  change (match vals with
          | Some v => Some (FirstDepositIndex v)
          | None => None
          end) with (FirstDepositIndex <$> vals).
  rewrite Hloop.
  unfold mbind at 1. unfold M_bind at 1.
  unfold persistMissedSlots. fold spe firstSlot vals.
  rewrite (u64_small (firstSlot + spe)) by lia.
  destruct (persistMissedSlots_loop_frame blocks vals firstSlot (Z.to_nat spe)
              (S (Z.to_nat spe)) (firstSlot + spe) firstSlot 0%nat w1)
    as (err & ops2 & w2 & Hmissed & Hext2 & Herr).
  - lia.
  - lia.
  - lia.
  - lia.
  - unfold MaxInt64 in *. lia.
  - unfold dutiesCover in Hduties. fold spe vals in Hduties.
    destruct vals; [lia | exact I].
  - rewrite Hmissed.
    destruct (persistMissedSlots_loop_flags _ _ _ _ _ _ _ _ _ _ Hmissed)
      as (Hflag2 & _).
    destruct Hext1 as (_ & Hf1 & Hc1). destruct Hext2 as (_ & Hf2 & Hc2).
    destruct err as [e|]; cbn [orReturn].
    + eexists _, _. split; [reflexivity|].
      split; [congruence|]. now rewrite Hflag2.
    + unfold mbind at 1. unfold M_bind at 1. unfold db.InsertEpoch, dbExec.
      rewrite Hf2, Hf1, Hrej.
      eexists _, _. split; [reflexivity|].
      split; [congruence|]. now rewrite Hflag2.
Qed.

(** X29.  A block stays flagged when its epoch is rolled back.  With a
    [nil] transaction and a database that accepts every slot row and
    rejects every epoch row, [persistEpochData] answers an error and
    commits nothing, and still leaves [isInFinalizedDb] set on every block
    of the list whose body is loaded: the flag is set as soon as the slot
    row is accepted and no later step of the run takes it back. *)
Theorem rolled_back_epoch_leaves_blocks_flagged
    cs epoch blocks epochStats epochVotes w :
  acceptsSlotRows w ->
  rejectsEpochRows w ->
  epochInRange cs epoch ->
  dutiesCover cs epochStats ->
  slotsAscending blocks ->
  slotsInEpoch cs epoch blocks ->
  exists e w',
    persistEpochData None cs epoch blocks epochStats epochVotes w
    = Ret (Some e) w'
    /\ w_committed w' = w_committed w
    /\ w_tx w' = w_tx w
    /\ w_inFinalizedDb w'
       = rev (map Root (List.filter hasBody blocks)) ++ w_inFinalizedDb w.
Proof.
  intros Hacc Hrej Hrange Hduties Hasc Hin.
  cbn [persistEpochData]. unfold db.RunDBTransaction.
  destruct (persistEpochData_in_flags cs epoch blocks epochStats epochVotes
              (set_tx [] w)) as (e & w' & Hrun & Hc & Hflag); auto.
  rewrite Hrun. eexists _, _. split; [reflexivity|].
  split; [exact Hc|]. split; [reflexivity|].
  cbn. rewrite Hflag.
  rewrite (takenBlocks_epoch cs epoch blocks Hasc Hin)
    by (destruct Hrange as ((? & ?) & _); lia).
  reflexivity.
Qed.

Lemma rolled_back_epoch_witness :
  exists e w',
    persistEpochData None Sample.chain 1
      [Sample.blockAtSlot 4; SampleDb.bodilessBlockAtSlot 6]
      (Some (Sample.stats 1)) None SampleDb.epochRowsRejected
    = Ret (Some e) w'
    /\ w_committed w' = []
    /\ w_tx w' = []
    /\ w_inFinalizedDb w' = [104].
Proof.
  refine (rolled_back_epoch_leaves_blocks_flagged Sample.chain 1
           [Sample.blockAtSlot 4; SampleDb.bodilessBlockAtSlot 6]
           (Some (Sample.stats 1)) None SampleDb.epochRowsRejected
           _ _ sample_epoch_inRange sample_duties_cover
           sample_mixed_blocks_ascending sample_mixed_blocks_inEpoch).
  - intros tx row. reflexivity.
  - intros tx row. reflexivity.
Defined.
